(** * Bomberman: the character state machine and its movement resolver

    A shallow embedding of [source/core/game_objects/Character/Character.py],
    followed by its callers: the match loop ([source/core/engine/Match.py]),
    the map view ([source/core/ui/Map.py]) and the engine
    ([source/core/engine/Engine.py]).

    Numbers.  Positions, the speed and the frame rate are Python floats in the
    source; they are embedded as exact rationals ([Q]), so every statement
    below is about the arithmetic the source writes down, read over the
    rationals, and equalities between computed coordinates are stated with
    [==].  The velocity is a two-cell numpy integer array and is embedded as a
    pair of [Z] with the 64-bit wrap-around of numpy's in-place addition
    written out.  The bomb counters are Python integers ([Z]).

    Effects.  Every method mutates [self] and may raise; a method is embedded
    as a function from the object before the call to the object after the
    call together with either the returned value or the exception raised, so
    that a mutation made before an exception stays visible. *)

From Stdlib Require Import ZArith QArith Qround Qminmax Lqa Lia List Bool.
Import ListNotations.

Local Open Scope Q_scope.

(** ** Python and numpy primitives *)

Inductive exn : Type :=
| IndexError
| ZeroDivisionError.

Inductive result (A : Type) : Type :=
| Ok (a : A)
| Raise (e : exn).

Arguments Ok {A} a.
Arguments Raise {A} e.

(** [a < b] on floats, as a boolean. *)
Definition Qltb (a b : Q) : bool := negb (Qle_bool b a).

(** [int(q)]: truncation toward zero. *)
Definition py_int (q : Q) : Z := Z.quot (Qnum q) (Z.pos (Qden q)).

(** [a / b] on Python floats. *)
Definition py_div (a b : Q) : result Q :=
  if Qeq_bool b 0 then Raise ZeroDivisionError else Ok (a / b).

(** [a % m] on Python floats (for a divisor that is not zero): the result has
    the sign of the divisor, [a - floor(a / m) * m]. *)
Definition py_mod (a m : Q) : Q := a - inject_Z (Qfloor (a / m)) * m.

(** In-place addition on a numpy [int64] cell. *)
Definition wrap64 (z : Z) : Z :=
  ((z + 2 ^ 63) mod 2 ^ 64 - 2 ^ 63)%Z.

(** [a[i]] on one axis of a numpy array: negative indices count from the end,
    anything outside [-n, n) raises. *)
Definition np_getitem {A : Type} (a : list A) (i : Z) : result A :=
  let n := Z.of_nat (length a) in
  let j := if (i <? 0)%Z then (i + n)%Z else i in
  if ((j <? 0) || (n <=? j))%Z then Raise IndexError
  else match nth_error a (Z.to_nat j) with
       | Some v => Ok v
       | None => Raise IndexError
       end.

(** The tile map is a two-dimensional numpy array of unit codes, row first. *)
Definition Tilemap : Type := list (list Z).

(** [tilemap[r, c]]. *)
Definition tilemap_at (tilemap : Tilemap) (r c : Z) : result Z :=
  match np_getitem tilemap r with
  | Ok row => np_getitem row c
  | Raise e => Raise e
  end.

(** ** Collaborators that the character only uses *)

(** [source.core.utils.Constants]: the names the character reads. *)
Class Constants : Type := {
  SQUARE_SIZE : Q;
  INITIAL_SPEED : Q;
  MAX_SPEED : Q;
  SPEED_INCREMENT : Q;
  INITIAL_FIRE : Q;
  FIRE_INCREMENT : Q;
  UNIT_BLOCK : Z;
  UNIT_FIXED_BLOCK : Z;
  UNIT_BOMB : Z;
  UNIT_POWERUP_FIRE_HIDE : Z;
  UNIT_POWERUP_VELOCITY_HIDE : Z;
  UNIT_POWERUP_BOMB_HIDE : Z
}.

(** [source.core.ui.Animation]: the interface of a clip, as far as the
    character's death clip is concerned ([update()] advances the clip,
    [done()] tells whether a stop-at-end clip has ended). *)
Class AnimationClip : Type := {
  Animation : Type;
  Animation_update : Animation -> Animation;
  Animation_done : Animation -> bool
}.

(** [source.core.utils.ObjectEvents.CharacterEvents]. *)
Inductive CharacterEvents : Type :=
| MOVE_UP | MOVE_DOWN | MOVE_LEFT | MOVE_RIGHT
| STOP_UP | STOP_DOWN | STOP_LEFT | STOP_RIGHT
| WIN | DIE
| INCREASE_SPEED | INCREASE_BOMB | INCREASE_FIRE.

(** [pygame.locals] key identifiers. *)
Inductive Key : Type :=
| K_LEFT | K_RIGHT | K_UP | K_DOWN
| K_OTHER (code : Z).

(** [pygame.time.Clock], read through [get_fps()]. *)
Record Clock : Type := { get_fps : Q }.

Record Pose : Type := { pose_x : Q; pose_y : Q }.

(** ** The character object

    The sprite dictionary, the icon and the movement and winning clips only
    feed [draw]; of the rendering state the object below keeps the death
    clip, which [update] consults. *)
Section Character.

Context {constants : Constants} {clip : AnimationClip}.

Record Character : Type := {
  pose : Pose;
  speed : Q;
  velocity : Z * Z;
  placed_bombs : Z;
  total_bombs : Z;
  fire : Q;
  event : option CharacterEvents;
  new_event : option CharacterEvents;
  got_special_event : bool;
  die_animation : Animation
}.

Definition set_pose (v : Pose) (self : Character) : Character :=
  {| pose := v; speed := speed self; velocity := velocity self;
     placed_bombs := placed_bombs self; total_bombs := total_bombs self;
     fire := fire self; event := event self; new_event := new_event self;
     got_special_event := got_special_event self;
     die_animation := die_animation self |}.

Definition set_pose_x (v : Q) (self : Character) : Character :=
  set_pose {| pose_x := v; pose_y := pose_y (pose self) |} self.

Definition set_pose_y (v : Q) (self : Character) : Character :=
  set_pose {| pose_x := pose_x (pose self); pose_y := v |} self.

Definition set_speed (v : Q) (self : Character) : Character :=
  {| pose := pose self; speed := v; velocity := velocity self;
     placed_bombs := placed_bombs self; total_bombs := total_bombs self;
     fire := fire self; event := event self; new_event := new_event self;
     got_special_event := got_special_event self;
     die_animation := die_animation self |}.

Definition set_velocity (v : Z * Z) (self : Character) : Character :=
  {| pose := pose self; speed := speed self; velocity := v;
     placed_bombs := placed_bombs self; total_bombs := total_bombs self;
     fire := fire self; event := event self; new_event := new_event self;
     got_special_event := got_special_event self;
     die_animation := die_animation self |}.

Definition set_placed_bombs (v : Z) (self : Character) : Character :=
  {| pose := pose self; speed := speed self; velocity := velocity self;
     placed_bombs := v; total_bombs := total_bombs self;
     fire := fire self; event := event self; new_event := new_event self;
     got_special_event := got_special_event self;
     die_animation := die_animation self |}.

Definition set_total_bombs (v : Z) (self : Character) : Character :=
  {| pose := pose self; speed := speed self; velocity := velocity self;
     placed_bombs := placed_bombs self; total_bombs := v;
     fire := fire self; event := event self; new_event := new_event self;
     got_special_event := got_special_event self;
     die_animation := die_animation self |}.

Definition set_fire (v : Q) (self : Character) : Character :=
  {| pose := pose self; speed := speed self; velocity := velocity self;
     placed_bombs := placed_bombs self; total_bombs := total_bombs self;
     fire := v; event := event self; new_event := new_event self;
     got_special_event := got_special_event self;
     die_animation := die_animation self |}.

Definition set_event (v : option CharacterEvents) (self : Character)
  : Character :=
  {| pose := pose self; speed := speed self; velocity := velocity self;
     placed_bombs := placed_bombs self; total_bombs := total_bombs self;
     fire := fire self; event := v; new_event := new_event self;
     got_special_event := got_special_event self;
     die_animation := die_animation self |}.

Definition set_new_event (v : option CharacterEvents) (self : Character)
  : Character :=
  {| pose := pose self; speed := speed self; velocity := velocity self;
     placed_bombs := placed_bombs self; total_bombs := total_bombs self;
     fire := fire self; event := event self; new_event := v;
     got_special_event := got_special_event self;
     die_animation := die_animation self |}.

Definition set_got_special_event (v : bool) (self : Character) : Character :=
  {| pose := pose self; speed := speed self; velocity := velocity self;
     placed_bombs := placed_bombs self; total_bombs := total_bombs self;
     fire := fire self; event := event self; new_event := new_event self;
     got_special_event := v;
     die_animation := die_animation self |}.

Definition set_die_animation (v : Animation) (self : Character) : Character :=
  {| pose := pose self; speed := speed self; velocity := velocity self;
     placed_bombs := placed_bombs self; total_bombs := total_bombs self;
     fire := fire self; event := event self; new_event := new_event self;
     got_special_event := got_special_event self;
     die_animation := v |}.

(** *** Methods as state transformers that may raise *)

Definition M (A : Type) : Type := Character -> Character * result A.

Definition ret {A : Type} (a : A) : M A := fun self => (self, Ok a).

Definition bind {A B : Type} (m : M A) (k : A -> M B) : M B :=
  fun self =>
    match m self with
    | (self', Ok a) => k a self'
    | (self', Raise e) => (self', Raise e)
    end.

Definition get : M Character := fun self => (self, Ok self).

Definition modify (f : Character -> Character) : M unit :=
  fun self => (f self, Ok tt).

Definition lift {A : Type} (r : result A) : M A := fun self => (self, r).

Notation "x <- m ;; k" := (bind m (fun x => k))
  (at level 61, m at next level, right associativity).
Notation "m ;; k" := (bind m (fun _ => k))
  (at level 61, right associativity).

Definition CharacterEvents_eqb (a b : CharacterEvents) : bool :=
  match a, b with
  | MOVE_UP, MOVE_UP | MOVE_DOWN, MOVE_DOWN
  | MOVE_LEFT, MOVE_LEFT | MOVE_RIGHT, MOVE_RIGHT
  | STOP_UP, STOP_UP | STOP_DOWN, STOP_DOWN
  | STOP_LEFT, STOP_LEFT | STOP_RIGHT, STOP_RIGHT
  | WIN, WIN | DIE, DIE
  | INCREASE_SPEED, INCREASE_SPEED | INCREASE_BOMB, INCREASE_BOMB
  | INCREASE_FIRE, INCREASE_FIRE => true
  | _, _ => false
  end.

(** [field == CharacterEvents.X], where the field may hold [None]. *)
Definition is_event (field : option CharacterEvents) (e : CharacterEvents)
  : bool :=
  match field with
  | Some e' => CharacterEvents_eqb e' e
  | None => false
  end.

(** [__init__]; the pose comes from [GameObject.__init__] and the clips from
    [__setup_animations]. *)
Definition init (initial_pose : Pose) (die_clip : Animation) : Character :=
  {| pose := initial_pose;
     speed := INITIAL_SPEED;
     velocity := (0, 0)%Z;
     placed_bombs := 0;
     total_bombs := 1;
     fire := INITIAL_FIRE;
     event := Some STOP_DOWN;
     new_event := Some STOP_DOWN;
     got_special_event := false;
     die_animation := die_clip |}.

(** *** [__move] *)

Definition obstacles : list Z :=
  [UNIT_BLOCK; UNIT_FIXED_BLOCK; UNIT_BOMB; UNIT_POWERUP_FIRE_HIDE;
   UNIT_POWERUP_VELOCITY_HIDE; UNIT_POWERUP_BOMB_HIDE].

(** [np.any(obstacles == unit)]. *)
Definition is_obstacle (unit : Z) : bool := existsb (Z.eqb unit) obstacles.

(** Lines 270-292: the move upwards. *)
Definition move_up_block (tilemap : Tilemap) (x : Q) (x_tile : Z)
  (direction : Z * Z) : M (Z * Z) :=
  let sq := SQUARE_SIZE in
  self <- get ;;
  let y := pose_y (pose self) + sq / 2 in
  let y_tile := py_int (y / sq) in
  if is_event (event self) MOVE_UP then
    ahead <- lift (tilemap_at tilemap (y_tile - 1) x_tile) ;;
    if negb (is_obstacle ahead) then
      if Qltb (sq * 0.45) (py_mod x sq) && Qltb (py_mod x sq) (sq * 0.55) then
        modify (set_pose_x ((inject_Z x_tile + 0.5) * sq)) ;;
        ret direction
      else if Qle_bool (py_mod x sq) (sq * 0.45) then
        modify (set_event (Some MOVE_RIGHT)) ;;
        ret (1, 0)%Z
      else
        modify (set_event (Some MOVE_LEFT)) ;;
        ret (-1, 0)%Z
    else
      side <- lift (tilemap_at tilemap (y_tile - 1) (x_tile - 1)) ;;
      if negb (is_obstacle side)
         && (Qltb 0 (py_mod x sq) && Qltb (py_mod x sq) (sq / 4)) then
        modify (set_event (Some MOVE_LEFT)) ;;
        ret (-1, 0)%Z
      else
        side <- lift (tilemap_at tilemap (y_tile - 1) (x_tile + 1)) ;;
        if negb (is_obstacle side)
           && (Qltb (3 * sq / 4) (py_mod x sq) && Qltb (py_mod x sq) sq) then
          modify (set_event (Some MOVE_RIGHT)) ;;
          ret (1, 0)%Z
        else
          modify (set_event (Some STOP_UP)) ;;
          ret (0, 0)%Z
  else ret direction.

(** Lines 294-317: the move downwards. *)
Definition move_down_block (tilemap : Tilemap) (x : Q) (x_tile : Z)
  (direction : Z * Z) : M (Z * Z) :=
  let sq := SQUARE_SIZE in
  self <- get ;;
  let y := pose_y (pose self) - sq / 2 - 1 in
  let y_tile := py_int (y / sq) in
  if is_event (event self) MOVE_DOWN then
    ahead <- lift (tilemap_at tilemap (y_tile + 1) x_tile) ;;
    if negb (is_obstacle ahead) then
      if Qltb (sq * 0.45) (py_mod x sq) && Qltb (py_mod x sq) (sq * 0.55) then
        modify (set_pose_x ((inject_Z x_tile + 0.5) * sq)) ;;
        ret direction
      else if Qle_bool (py_mod x sq) (sq * 0.45) then
        modify (set_event (Some MOVE_RIGHT)) ;;
        ret (1, 0)%Z
      else
        modify (set_event (Some MOVE_LEFT)) ;;
        ret (-1, 0)%Z
    else
      side <- lift (tilemap_at tilemap (y_tile + 1) (x_tile - 1)) ;;
      if negb (is_obstacle side)
         && (Qle_bool 0 (py_mod x sq) && Qltb (py_mod x sq) (sq / 4)) then
        modify (set_event (Some MOVE_LEFT)) ;;
        ret (-1, 0)%Z
      else
        side <- lift (tilemap_at tilemap (y_tile + 1) (x_tile + 1)) ;;
        if negb (is_obstacle side)
           && (Qltb (3 * sq / 4) (py_mod x sq) && Qltb (py_mod x sq) sq) then
          modify (set_event (Some MOVE_RIGHT)) ;;
          ret (1, 0)%Z
        else
          modify (set_event (Some STOP_DOWN)) ;;
          ret (0, 0)%Z
  else ret direction.

(** Lines 322-345: the move rightwards. *)
Definition move_right_block (tilemap : Tilemap) (y : Q) (y_tile : Z)
  (direction : Z * Z) : M (Z * Z) :=
  let sq := SQUARE_SIZE in
  self <- get ;;
  let x := pose_x (pose self) - sq / 2 - 1 in
  let x_tile := py_int (x / sq) in
  if is_event (event self) MOVE_RIGHT then
    ahead <- lift (tilemap_at tilemap y_tile (x_tile + 1)) ;;
    if negb (is_obstacle ahead) then
      if Qltb (sq * 0.45) (py_mod y sq) && Qltb (py_mod y sq) (sq * 0.55) then
        modify (set_pose_y ((inject_Z y_tile + 0.5) * sq)) ;;
        ret direction
      else if Qle_bool (py_mod y sq) (sq * 0.45) then
        modify (set_event (Some MOVE_DOWN)) ;;
        ret (0, 1)%Z
      else
        modify (set_event (Some MOVE_UP)) ;;
        ret (0, -1)%Z
    else
      side <- lift (tilemap_at tilemap (y_tile - 1) (x_tile + 1)) ;;
      if negb (is_obstacle side)
         && (Qle_bool 0 (py_mod y sq) && Qltb (py_mod y sq) (sq / 4)) then
        modify (set_event (Some MOVE_UP)) ;;
        ret (0, -1)%Z
      else
        side <- lift (tilemap_at tilemap (y_tile + 1) (x_tile + 1)) ;;
        if negb (is_obstacle side)
           && (Qltb (3 * sq / 4) (py_mod y sq) && Qltb (py_mod y sq) sq) then
          modify (set_event (Some MOVE_DOWN)) ;;
          ret (0, 1)%Z
        else
          modify (set_event (Some STOP_RIGHT)) ;;
          ret (0, 0)%Z
  else ret direction.

(** Lines 347-370: the move leftwards. *)
Definition move_left_block (tilemap : Tilemap) (y : Q) (y_tile : Z)
  (direction : Z * Z) : M (Z * Z) :=
  let sq := SQUARE_SIZE in
  self <- get ;;
  let x := pose_x (pose self) + sq / 2 in
  let x_tile := py_int (x / sq) in
  if is_event (event self) MOVE_LEFT then
    ahead <- lift (tilemap_at tilemap y_tile (x_tile - 1)) ;;
    if negb (is_obstacle ahead) then
      if Qltb (sq * 0.45) (py_mod y sq) && Qltb (py_mod y sq) (sq * 0.55) then
        modify (set_pose_y ((inject_Z y_tile + 0.5) * sq)) ;;
        ret direction
      else if Qle_bool (py_mod y sq) (sq * 0.45) then
        modify (set_event (Some MOVE_DOWN)) ;;
        ret (0, 1)%Z
      else
        modify (set_event (Some MOVE_UP)) ;;
        ret (0, -1)%Z
    else
      side <- lift (tilemap_at tilemap (y_tile - 1) (x_tile - 1)) ;;
      if negb (is_obstacle side)
         && (Qle_bool 0 (py_mod y sq) && Qltb (py_mod y sq) (sq / 4)) then
        modify (set_event (Some MOVE_UP)) ;;
        ret (0, -1)%Z
      else
        side <- lift (tilemap_at tilemap (y_tile + 1) (x_tile - 1)) ;;
        if negb (is_obstacle side)
           && (Qltb (3 * sq / 4) (py_mod y sq) && Qltb (py_mod y sq) sq) then
          modify (set_event (Some MOVE_DOWN)) ;;
          ret (0, 1)%Z
        else
          modify (set_event (Some STOP_LEFT)) ;;
          ret (0, 0)%Z
  else ret direction.

(** Lines 372-376: walking towards the best direction.  Each of the two
    statements divides by the measured frame rate before it stores. *)
Definition integrate (direction : Z * Z) (clock : Clock) : M unit :=
  self <- get ;;
  dx <- lift (py_div (inject_Z (fst direction) * speed self * SQUARE_SIZE)
                     (get_fps clock)) ;;
  modify (set_pose_x (pose_x (pose self) + dx)) ;;
  self <- get ;;
  dy <- lift (py_div (inject_Z (snd direction) * speed self * SQUARE_SIZE)
                     (get_fps clock)) ;;
  modify (set_pose_y (pose_y (pose self) + dy)).

(** [__move]: the four blocks run one after the other (they are [if]s, not
    [elif]s, so a redirect made by one block is seen by the later ones), then
    the position is integrated.  The first division by the tile size raises
    when that constant is zero; the later ones are then safe. *)
Definition __move (direction : Z * Z) (clock : Clock) (tilemap : Tilemap)
  : M unit :=
  let sq := SQUARE_SIZE in
  self <- get ;;
  let x := pose_x (pose self) in
  q <- lift (py_div x sq) ;;
  let x_tile := py_int q in
  direction <- move_up_block tilemap x x_tile direction ;;
  direction <- move_down_block tilemap x x_tile direction ;;
  self <- get ;;
  let y := pose_y (pose self) in
  let y_tile := py_int (y / sq) in
  direction <- move_right_block tilemap y y_tile direction ;;
  direction <- move_left_block tilemap y y_tile direction ;;
  integrate direction clock.

(** *** Public methods *)

(** [update]: returns [False] once the death clip has ended; otherwise the
    pending event becomes the current one and is acted upon.  In the
    speed-up branch the four [set_durations] calls touch only the movement
    clips; what remains of them here is the division that computes the step
    frequency. *)
Definition update (clock : Clock) (tilemap : Tilemap) : M bool :=
  self <- get ;;
  if Animation_done (die_animation self) then ret false
  else
    modify (fun self => set_event (new_event self) self) ;;
    modify (fun self => if got_special_event self
                        then set_got_special_event false self else self) ;;
    self <- get ;;
    (if is_event (new_event self) MOVE_UP then
       __move (0, -1)%Z clock tilemap
     else if is_event (new_event self) MOVE_DOWN then
       __move (0, 1)%Z clock tilemap
     else if is_event (new_event self) MOVE_RIGHT then
       __move (1, 0)%Z clock tilemap
     else if is_event (new_event self) MOVE_LEFT then
       __move (-1, 0)%Z clock tilemap
     else if is_event (new_event self) INCREASE_SPEED then
       modify (fun self => set_speed (speed self + SPEED_INCREMENT) self) ;;
       modify (fun self => if Qltb MAX_SPEED (speed self)
                           then set_speed MAX_SPEED self else self) ;;
       self <- get ;;
       _ <- lift (py_div (speed self) MAX_SPEED) ;;
       modify (set_new_event None)
     else if is_event (new_event self) INCREASE_BOMB then
       modify (fun self => set_total_bombs (total_bombs self + 1) self) ;;
       modify (set_new_event None)
     else if is_event (new_event self) INCREASE_FIRE then
       modify (fun self => set_fire (fire self + FIRE_INCREMENT) self) ;;
       modify (set_new_event None)
     else ret tt) ;;
    ret true.

(** [draw], restricted to the state kept here: the death clip advances while
    the current event is [DIE]. *)
Definition draw : M unit :=
  self <- get ;;
  if is_event (event self) DIE then
    modify (set_die_animation (Animation_update (die_animation self)))
  else ret tt.

(** [self.__velocity += (dx, dy)]. *)
Definition add_velocity (d : Z * Z) (self : Character) : Character :=
  set_velocity (wrap64 (fst (velocity self) + fst d),
                wrap64 (snd (velocity self) + snd d)) self.

Definition key_up (key : Key) : M unit :=
  self <- get ;;
  if negb (is_event (new_event self) WIN || is_event (new_event self) DIE)
  then
    match key with
    | K_LEFT =>
        modify (add_velocity (1, 0)%Z) ;;
        modify (set_new_event (Some STOP_LEFT))
    | K_RIGHT =>
        modify (add_velocity (-1, 0)%Z) ;;
        modify (set_new_event (Some STOP_RIGHT))
    | K_UP =>
        modify (add_velocity (0, 1)%Z) ;;
        modify (set_new_event (Some STOP_UP))
    | K_DOWN =>
        modify (add_velocity (0, -1)%Z) ;;
        modify (set_new_event (Some STOP_DOWN))
    | K_OTHER _ => ret tt
    end ;;
    self <- get ;;
    if negb (got_special_event self) then
      if (snd (velocity self) =? 1)%Z then
        modify (set_new_event (Some MOVE_DOWN))
      else if (snd (velocity self) =? -1)%Z then
        modify (set_new_event (Some MOVE_UP))
      else if (fst (velocity self) =? 1)%Z then
        modify (set_new_event (Some MOVE_RIGHT))
      else if (fst (velocity self) =? -1)%Z then
        modify (set_new_event (Some MOVE_LEFT))
      else ret tt
    else ret tt
  else ret tt.

Definition key_down (key : Key) : M unit :=
  self <- get ;;
  if negb (is_event (new_event self) WIN || is_event (new_event self) DIE)
  then
    match key with
    | K_LEFT => modify (add_velocity (-1, 0)%Z)
    | K_RIGHT => modify (add_velocity (1, 0)%Z)
    | K_UP => modify (add_velocity (0, -1)%Z)
    | K_DOWN => modify (add_velocity (0, 1)%Z)
    | K_OTHER _ => ret tt
    end ;;
    self <- get ;;
    if negb (got_special_event self) then
      if (snd (velocity self) =? 1)%Z then
        modify (set_new_event (Some MOVE_DOWN))
      else if (snd (velocity self) =? -1)%Z then
        modify (set_new_event (Some MOVE_UP))
      else if (fst (velocity self) =? 1)%Z then
        modify (set_new_event (Some MOVE_RIGHT))
      else if (fst (velocity self) =? -1)%Z then
        modify (set_new_event (Some MOVE_LEFT))
      else ret tt
    else ret tt
  else ret tt.

Definition place_bomb : M bool :=
  self <- get ;;
  if (placed_bombs self <? total_bombs self)%Z then
    modify (set_placed_bombs (placed_bombs self + 1)) ;;
    ret true
  else ret false.

Definition bomb_exploded : M unit :=
  modify (fun self => set_placed_bombs (placed_bombs self - 1) self).

Definition special_event (e : CharacterEvents) : M unit :=
  modify (set_new_event (Some e)) ;;
  modify (set_got_special_event true).

(** *** Runs of calls

    The calls a match makes on its player.  A [Tick] is what lines 42-43
    of [Match.play] write for the end of a frame: [update], and [draw] only
    when [update] returned [True] (the contract stated in [draw]'s
    docstring). *)
Inductive Call : Type :=
| Tick (clock : Clock) (tilemap : Tilemap)
| KeyUp (key : Key)
| KeyDown (key : Key)
| PlaceBomb
| BombExploded
| SpecialEvent (e : CharacterEvents).

Definition call (c : Call) : M unit :=
  match c with
  | Tick clock tilemap =>
      alive <- update clock tilemap ;;
      if alive : bool then draw else ret tt
  | KeyUp key => key_up key
  | KeyDown key => key_down key
  | PlaceBomb => _ <- place_bomb ;; ret tt
  | BombExploded => bomb_exploded
  | SpecialEvent e => special_event e
  end.

(** The object after a run of calls; an exception ends the run. *)
Fixpoint run (calls : list Call) (self : Character) : Character :=
  match calls with
  | [] => self
  | c :: calls' =>
      match call c self with
      | (self', Ok _) => run calls' self'
      | (self', Raise _) => self'
      end
  end.

End Character.

(** ** Vocabulary of the statements *)

Inductive Direction : Type := Up | Down | Right | Left.

(** The three tiles a move looks at, in the order the source tests them:
    the one straight ahead, then the diagonal on the side of the smaller
    cross coordinate (left of a vertical move, above a horizontal one), then
    the diagonal on the other side. *)
Inductive Probe : Type := Ahead | Lower | Upper.

Definition move_event (d : Direction) : CharacterEvents :=
  match d with
  | Up => MOVE_UP | Down => MOVE_DOWN | Right => MOVE_RIGHT | Left => MOVE_LEFT
  end.

Definition stop_event (d : Direction) : CharacterEvents :=
  match d with
  | Up => STOP_UP | Down => STOP_DOWN | Right => STOP_RIGHT | Left => STOP_LEFT
  end.

(** The direction tuple [update] passes to [__move]. *)
Definition vector (d : Direction) : Z * Z :=
  match d with
  | Up => (0, -1) | Down => (0, 1) | Right => (1, 0) | Left => (-1, 0)
  end%Z.

(** The coordinate across the move, and the one along it. *)
Definition cross (d : Direction) (p : Pose) : Q :=
  match d with
  | Up | Down => pose_x p
  | Right | Left => pose_y p
  end.

Definition along (d : Direction) (p : Pose) : Q :=
  match d with
  | Up | Down => pose_y p
  | Right | Left => pose_x p
  end.

(** +1 when the move increases its coordinate, -1 otherwise. *)
Definition heading (d : Direction) : Q :=
  match d with
  | Up | Left => -1
  | Down | Right => 1
  end.

Definition is_key_edge {constants : Constants} {clip : AnimationClip}
  (c : Call) : bool :=
  match c with
  | KeyUp _ | KeyDown _ => true
  | _ => false
  end.

Definition is_powerup (e : CharacterEvents) : bool :=
  match e with
  | INCREASE_SPEED | INCREASE_BOMB | INCREASE_FIRE => true
  | _ => false
  end.

Section Vocabulary.

Context {constants : Constants} {clip : AnimationClip}.

(** [coordinate % sq] and the same as a fraction of the tile. *)
Definition offset (v : Q) : Q := py_mod v SQUARE_SIZE.

Definition offset_fraction (v : Q) : Q := offset v / SQUARE_SIZE.

(** The centre line of the tile column (or row) the source computes for a
    coordinate: [(int(v / sq) + 0.5) * sq]. *)
Definition centerline (v : Q) : Q :=
  (inject_Z (py_int (v / SQUARE_SIZE)) + 0.5) * SQUARE_SIZE.

(** Row and column of the tile each move reads, as written in the four
    blocks of [__move]. *)
Definition probe (d : Direction) (w : Probe) (p : Pose) : Z * Z :=
  let sq := SQUARE_SIZE in
  match d with
  | Up =>
      let x_tile := py_int (pose_x p / sq) in
      let y_tile := py_int ((pose_y p + sq / 2) / sq) in
      match w with
      | Ahead => (y_tile - 1, x_tile)
      | Lower => (y_tile - 1, x_tile - 1)
      | Upper => (y_tile - 1, x_tile + 1)
      end
  | Down =>
      let x_tile := py_int (pose_x p / sq) in
      let y_tile := py_int ((pose_y p - sq / 2 - 1) / sq) in
      match w with
      | Ahead => (y_tile + 1, x_tile)
      | Lower => (y_tile + 1, x_tile - 1)
      | Upper => (y_tile + 1, x_tile + 1)
      end
  | Right =>
      let y_tile := py_int (pose_y p / sq) in
      let x_tile := py_int ((pose_x p - sq / 2 - 1) / sq) in
      match w with
      | Ahead => (y_tile, x_tile + 1)
      | Lower => (y_tile - 1, x_tile + 1)
      | Upper => (y_tile + 1, x_tile + 1)
      end
  | Left =>
      let y_tile := py_int (pose_y p / sq) in
      let x_tile := py_int ((pose_x p + sq / 2) / sq) in
      match w with
      | Ahead => (y_tile, x_tile - 1)
      | Lower => (y_tile - 1, x_tile - 1)
      | Upper => (y_tile + 1, x_tile - 1)
      end
  end%Z.

Definition tile (d : Direction) (w : Probe) (tilemap : Tilemap) (p : Pose)
  : result Z :=
  tilemap_at tilemap (fst (probe d w p)) (snd (probe d w p)).

(** The block of [__move] that serves direction [d], with the locals it is
    given there. *)
Definition resolve (d : Direction) (tilemap : Tilemap) : M (Z * Z) :=
  fun self =>
    let sq := SQUARE_SIZE in
    let x := pose_x (pose self) in
    let y := pose_y (pose self) in
    match d with
    | Up => move_up_block tilemap x (py_int (x / sq)) (vector d) self
    | Down => move_down_block tilemap x (py_int (x / sq)) (vector d) self
    | Right => move_right_block tilemap y (py_int (y / sq)) (vector d) self
    | Left => move_left_block tilemap y (py_int (y / sq)) (vector d) self
    end.

(** What the block decides: the direction tuple and the current event it
    leaves. *)
Definition decision (d : Direction) (tilemap : Tilemap) (self : Character)
  : result (Z * Z * option CharacterEvents) :=
  match resolve d tilemap self with
  | (self', Ok direction) => Ok (direction, event self')
  | (_, Raise e) => Raise e
  end.

(** Reflection across the axis of the move: the cross component of the
    direction changes sign and the two sideways moves are exchanged. *)
Definition mirror_event (d : Direction) (e : CharacterEvents)
  : CharacterEvents :=
  match d, e with
  | (Up | Down), MOVE_LEFT => MOVE_RIGHT
  | (Up | Down), MOVE_RIGHT => MOVE_LEFT
  | (Right | Left), MOVE_UP => MOVE_DOWN
  | (Right | Left), MOVE_DOWN => MOVE_UP
  | _, _ => e
  end.

Definition mirror_decision (d : Direction)
  (r : result (Z * Z * option CharacterEvents))
  : result (Z * Z * option CharacterEvents) :=
  match r with
  | Ok ((dx, dy), e) =>
      Ok (match d with
          | Up | Down => (- dx, dy)
          | Right | Left => (dx, - dy)
          end%Z,
          option_map (mirror_event d) e)
  | Raise e => Raise e
  end.

(** Two situations show mirrored rows of tiles to a move in direction [d]:
    every probe is inside the map, the tiles straight ahead agree on being
    obstacles, and each diagonal of one agrees with the opposite diagonal of
    the other. *)
Definition mirrored_layout (d : Direction)
  (tilemap : Tilemap) (p : Pose) (tilemap' : Tilemap) (p' : Pose) : Prop :=
  exists a l u a' l' u',
    tile d Ahead tilemap p = Ok a /\ tile d Lower tilemap p = Ok l /\
    tile d Upper tilemap p = Ok u /\
    tile d Ahead tilemap' p' = Ok a' /\ tile d Lower tilemap' p' = Ok l' /\
    tile d Upper tilemap' p' = Ok u' /\
    is_obstacle a' = is_obstacle a /\
    is_obstacle l' = is_obstacle u /\
    is_obstacle u' = is_obstacle l.

(** [place_bomb()] immediately followed by [bomb_exploded()]. *)
Definition place_then_explode : M unit :=
  bind place_bomb (fun _ => bomb_exploded).

(** [n] calls of [place_bomb()], with what each returned. *)
Fixpoint place_bombs (n : nat) (self : Character) : Character * list bool :=
  match n with
  | O => (self, [])
  | S n' =>
      match place_bomb self with
      | (self', Ok b) =>
          let (self'', bs) := place_bombs n' self' in (self'', b :: bs)
      | (self', Raise _) => (self', [])
      end
  end.

(** A speed power-up picked up [n] times, each followed by a frame. *)
Fixpoint speed_ups (n : nat) (clock : Clock) (tilemap : Tilemap)
  : list Call :=
  match n with
  | O => []
  | S n' =>
      SpecialEvent INCREASE_SPEED :: Tick clock tilemap
        :: speed_ups n' clock tilemap
  end.

(** What [__move] and its blocks leave alone: they write the pose and the
    current event only. *)
Definition keeps_intent (self self' : Character) : Prop :=
  speed self' = speed self /\ velocity self' = velocity self /\
  placed_bombs self' = placed_bombs self /\
  total_bombs self' = total_bombs self /\ fire self' = fire self /\
  new_event self' = new_event self /\
  got_special_event self' = got_special_event self /\
  die_animation self' = die_animation self.

(** What the key, bomb and special-event calls leave alone. *)
Definition keeps_body (self self' : Character) : Prop :=
  pose self' = pose self /\ speed self' = speed self /\
  die_animation self' = die_animation self.

(** The first statements of [update] on a live character: the pending event
    becomes the current one and the one-shot flag is cleared. *)
Definition begin_tick (self : Character) : Character :=
  let self := set_event (new_event self) self in
  if got_special_event self then set_got_special_event false self else self.

(** The cross coordinate of the pose, overwritten. *)
Definition set_cross (d : Direction) (v : Q) (self : Character) : Character :=
  match d with
  | Up | Down => set_pose_x v self
  | Right | Left => set_pose_y v self
  end.

(** The pose after [integrate] when the frame rate is not zero. *)
Definition advanced (direction : Z * Z) (clock : Clock) (self : Character)
  : Character :=
  let sq := SQUARE_SIZE in
  set_pose
    {| pose_x := pose_x (pose self)
                 + inject_Z (fst direction) * speed self * sq / get_fps clock;
       pose_y := pose_y (pose self)
                 + inject_Z (snd direction) * speed self * sq / get_fps clock
    |} self.

(** *** Reflecting a situation across the axis of a move

    A vertical move is reflected left to right: the columns of the map are
    reversed and [x] becomes [width - x].  A horizontal move is reflected
    top to bottom: the rows are reversed and [y] becomes [height - y].  An
    offset [f] that is not zero becomes [1 - f]; a character exactly on a
    tile boundary stays on a tile boundary. *)

Definition rows (tilemap : Tilemap) : Z := Z.of_nat (length tilemap).

Definition columns (tilemap : Tilemap) : Z :=
  Z.of_nat (length (hd [] tilemap)).

Definition rectangular (tilemap : Tilemap) : Prop :=
  Forall (fun row => length row = length (hd [] tilemap)) tilemap.

(** The number of tiles across the move. *)
Definition cross_tiles (d : Direction) (tilemap : Tilemap) : Z :=
  match d with
  | Up | Down => columns tilemap
  | Right | Left => rows tilemap
  end.

Definition extent (d : Direction) (tilemap : Tilemap) : Q :=
  inject_Z (cross_tiles d tilemap) * SQUARE_SIZE.

Definition mirror_tilemap (d : Direction) (tilemap : Tilemap) : Tilemap :=
  match d with
  | Up | Down => map (@rev Z) tilemap
  | Right | Left => rev tilemap
  end.

Definition mirror_pose (d : Direction) (tilemap : Tilemap) (p : Pose)
  : Pose :=
  match d with
  | Up | Down =>
      {| pose_x := extent d tilemap - pose_x p; pose_y := pose_y p |}
  | Right | Left =>
      {| pose_x := pose_x p; pose_y := extent d tilemap - pose_y p |}
  end.

Definition mirror_character (d : Direction) (tilemap : Tilemap)
  (self : Character) : Character :=
  set_pose (mirror_pose d tilemap (pose self)) self.

(** The character stands where the three probes of a move in direction [d]
    and those of its mirror image are tiles of the map: its cross tile is
    neither the first nor the last one, and the row (or column) probed
    ahead exists. *)
Definition inside (d : Direction) (tilemap : Tilemap) (p : Pose) : Prop :=
  0 <= cross d p /\
  (1 <= py_int (cross d p / SQUARE_SIZE) <= cross_tiles d tilemap - 2)%Z /\
  match d with
  | Up | Down => (0 <= fst (probe d Ahead p) < rows tilemap)%Z
  | Right | Left => (0 <= snd (probe d Ahead p) < columns tilemap)%Z
  end.

(** Lines 147-155 of [key_up], which are lines 174-182 of [key_down]: unless
    a special event was just set, the pending event is read off the
    velocity. *)
Definition infer_from_velocity : M unit :=
  bind get (fun self =>
    if negb (got_special_event self) then
      if (snd (velocity self) =? 1)%Z then
        modify (set_new_event (Some MOVE_DOWN))
      else if (snd (velocity self) =? -1)%Z then
        modify (set_new_event (Some MOVE_UP))
      else if (fst (velocity self) =? 1)%Z then
        modify (set_new_event (Some MOVE_RIGHT))
      else if (fst (velocity self) =? -1)%Z then
        modify (set_new_event (Some MOVE_LEFT))
      else ret tt
    else ret tt).

(** The pending event agrees with the velocity, the vertical axis first. *)
Definition reads_velocity (self : Character) : Prop :=
  let vx := fst (velocity self) in
  let vy := snd (velocity self) in
  ((vy = 1 -> new_event self = Some MOVE_DOWN) /\
   (vy = -1 -> new_event self = Some MOVE_UP) /\
   (vy <> 1 -> vy <> -1 -> vx = 1 -> new_event self = Some MOVE_RIGHT) /\
   (vy <> 1 -> vy <> -1 -> vx = -1 -> new_event self = Some MOVE_LEFT))%Z.

End Vocabulary.

(** ** A concrete game, on which the statements are exercised *)

Definition demo_constants : Constants :=
  {| SQUARE_SIZE := 32;
     INITIAL_SPEED := 2;
     MAX_SPEED := 4;
     SPEED_INCREMENT := 0.5;
     INITIAL_FIRE := 2;
     FIRE_INCREMENT := 1;
     UNIT_BLOCK := 1;
     UNIT_FIXED_BLOCK := 2;
     UNIT_BOMB := 3;
     UNIT_POWERUP_FIRE_HIDE := 4;
     UNIT_POWERUP_VELOCITY_HIDE := 5;
     UNIT_POWERUP_BOMB_HIDE := 6 |}.

(** A stop-at-end clip with a frame counter: done from frame 27 on (the
    death clip has 27 frames). *)
Definition demo_clip : AnimationClip :=
  {| Animation := nat;
     Animation_update := fun frame => Nat.min 27 (S frame);
     Animation_done := fun frame => Nat.leb 27 frame |}.

(** Five by five tiles inside a wall of fixed blocks, with fixed blocks
    among them; every row reads the same in both directions. *)
Definition demo_tilemap : Tilemap :=
  [[2; 2; 2; 2; 2; 2; 2];
   [2; 0; 0; 0; 0; 0; 2];
   [2; 0; 2; 0; 2; 0; 2];
   [2; 0; 0; 2; 0; 0; 2];
   [2; 0; 2; 2; 2; 0; 2];
   [2; 0; 0; 0; 0; 0; 2];
   [2; 2; 2; 2; 2; 2; 2]]%Z.

Definition demo_clock : Clock := {| get_fps := 60 |}.

Definition stalled_clock : Clock := {| get_fps := 0 |}.

(** A player standing at the centre of tile (row 1, column 1). *)
Definition demo_player : @Character demo_clip :=
  @init demo_constants demo_clip {| pose_x := 48; pose_y := 48 |} 0%nat.

Definition at_pose (px py : Q) (e : CharacterEvents)
  : @Character demo_clip :=
  set_new_event (Some e) (set_event (Some e)
    (set_pose {| pose_x := px; pose_y := py |} demo_player)).

Definition dead_player : @Character demo_clip :=
  @set_die_animation demo_clip 27%nat demo_player.

(** ** The match loop ([source/core/engine/Match.py]) *)

(** [pygame.locals]: [K_BACKSPACE] is 8 and [K_ESCAPE] is 27. *)
Definition K_BACKSPACE : Key := K_OTHER 8.

Definition K_ESCAPE : Key := K_OTHER 27.

(** [event.key == key] on key identifiers. *)
Definition Key_eqb (a b : Key) : bool :=
  match a, b with
  | K_LEFT, K_LEFT | K_RIGHT, K_RIGHT | K_UP, K_UP | K_DOWN, K_DOWN => true
  | K_OTHER c, K_OTHER c' => (c =? c')%Z
  | _, _ => false
  end.

(** What [pygame.event.get()] hands over, by [event.type]. *)
Inductive Event : Type :=
| QUIT
| KEYUP (key : Key)
| KEYDOWN (key : Key)
| OTHER_EVENT.

(** The names of [Constants] for the state of the game: [play] returns
    [MENU], [PAUSE] or [PLAYING_SINGLE]; the engine tests for [MENU],
    [SETUP], [PLAYING] and [FINISH]. *)
Inductive Screen : Type :=
| MENU | SETUP | PLAYING | FINISH | PAUSE | PLAYING_SINGLE.

(** How a call of [play] ends: it returns a screen, or [sys.exit()] ends the
    program, or an exception comes through: one of the player, or the
    [AttributeError] of a method that the map does not have. *)
Inductive Played : Type :=
| Returned (screen : Screen)
| SystemExit
| Raised (e : exn)
| AttributeError.

Section Match.

Context {constants : Constants} {clip : AnimationClip}.

(** The [for event in pygame.event.get()] loop of [play]: [None] when the
    loop runs to its end. *)
Fixpoint drain (events : list Event) (player : Character)
  : Character * option Played :=
  match events with
  | [] => (player, None)
  | QUIT :: _ => (player, Some SystemExit)
  | KEYUP key :: events' =>
      if Key_eqb key K_BACKSPACE then (player, Some (Returned MENU))
      else if Key_eqb key K_ESCAPE then (player, Some (Returned PAUSE))
      else
        match key_up key player with
        | (player', Ok _) => drain events' player'
        | (player', Raise e) => (player', Some (Raised e))
        end
  | KEYDOWN key :: events' =>
      match key_down key player with
      | (player', Ok _) => drain events' player'
      | (player', Raise e) => (player', Some (Raised e))
      end
  | OTHER_EVENT :: events' => drain events' player
  end.

(** [Match.play], on the player: the events of the frame, then line 42,
    [self.__player.update(clock, self.__map.get_grid().get_tilemap())].  The
    arguments of a call are evaluated before the call, and [Map] defines
    [__init__], [draw] and [update] only: the look-up of [get_grid] raises
    [AttributeError], so a frame that comes to the end of its events calls
    neither [update] nor [draw] of the player and returns no screen. *)
Definition play (events : list Event) (clock : Clock) (player : Character)
  : Character * Played :=
  match drain events player with
  | (player', Some out) => (player', out)
  | (player', None) => (player', AttributeError)
  end.

(** *** Vocabulary for runs of frames and key edges *)

(** The event makes [play] leave inside the loop over the events. *)
Definition leaves (ev : Event) : bool :=
  match ev with
  | QUIT => true
  | KEYUP key => Key_eqb key K_BACKSPACE || Key_eqb key K_ESCAPE
  | _ => false
  end.

(** The call on the player an event stands for. *)
Definition calls_of (ev : Event) : list Call :=
  match ev with
  | KEYUP key => [KeyUp key]
  | KEYDOWN key => [KeyDown key]
  | _ => []
  end.

(** The range of a numpy [int64] cell. *)
Definition int64 (z : Z) : Prop := (- 2 ^ 63 <= z < 2 ^ 63)%Z.

(** What a key edge adds to the velocity. *)
Definition edge_delta (c : Call) : Z * Z :=
  match c with
  | KeyDown K_LEFT | KeyUp K_RIGHT => (-1, 0)
  | KeyDown K_RIGHT | KeyUp K_LEFT => (1, 0)
  | KeyDown K_UP | KeyUp K_DOWN => (0, -1)
  | KeyDown K_DOWN | KeyUp K_UP => (0, 1)
  | _ => (0, 0)
  end%Z.

Fixpoint net_delta (calls : list Call) : Z * Z :=
  match calls with
  | [] => (0, 0)%Z
  | c :: calls' =>
      (fst (edge_delta c) + fst (net_delta calls'),
       snd (edge_delta c) + snd (net_delta calls'))%Z
  end.

(** The stop event a released arrow key leaves. *)
Definition released (key : Key) : option CharacterEvents :=
  match key with
  | K_LEFT => Some STOP_LEFT
  | K_RIGHT => Some STOP_RIGHT
  | K_UP => Some STOP_UP
  | K_DOWN => Some STOP_DOWN
  | K_OTHER _ => None
  end.

(** No component of the velocity asks for a move. *)
Definition at_rest (v : Z * Z) : Prop :=
  (fst v <> 1 /\ fst v <> -1 /\ snd v <> 1 /\ snd v <> -1)%Z.

Definition is_move (e : option CharacterEvents) : bool :=
  match e with
  | Some (MOVE_UP | MOVE_DOWN | MOVE_LEFT | MOVE_RIGHT) => true
  | _ => false
  end.

Definition is_tick (c : Call) : bool :=
  match c with Tick _ _ => true | _ => false end.

(** The death clip after [n] frames in which it is the current clip: one
    [update()] of the clip per frame until it reports [done()]. *)
Fixpoint die_frames (n : nat) (a : Animation) : Animation :=
  match n with
  | O => a
  | S n' => if Animation_done a then a else die_frames n' (Animation_update a)
  end.

(** [n] pick-ups of the power-up [e], each followed by a frame. *)
Fixpoint pick_ups (e : CharacterEvents) (n : nat) (clock : Clock)
  (tilemap : Tilemap) : list Call :=
  match n with
  | O => []
  | S n' => SpecialEvent e :: Tick clock tilemap
              :: pick_ups e n' clock tilemap
  end.

(** [k] calls of [bomb_exploded()]. *)
Fixpoint explosions (k : nat) : list Call :=
  match k with
  | O => []
  | S k' => BombExploded :: explosions k'
  end.

End Match.

(** ** Vocabulary for the course of [__move] *)

Section Walking.

Context {constants : Constants} {clip : AnimationClip}.

(** The pose [p0] with its coordinate across [d] put on the centre line. *)
Definition snapped (d : Direction) (p0 : Pose) : Pose :=
  match d with
  | Up | Down =>
      {| pose_x := centerline (pose_x p0); pose_y := pose_y p0 |}
  | Right | Left =>
      {| pose_x := pose_x p0; pose_y := centerline (pose_y p0) |}
  end.

(** Where [__move] stands between two of its blocks, for a character that
    entered it at pose [p0]; [rest] lists the blocks still to come.  Either
    the current event is a move and the direction tuple is that move's, and
    the pose is still [p0] or was snapped by that move's own block, which
    is then behind; or the current event is a stop, the direction tuple is
    zero and the pose is still [p0]. *)
Definition walking (rest : list Direction) (p0 : Pose) (self : Character)
  (direction : Z * Z) : Prop :=
  (exists d, event self = Some (move_event d) /\ direction = vector d /\
             (pose self = p0 \/
              (pose self = snapped d p0 /\ ~ In d rest))) \/
  (exists d, event self = Some (stop_event d) /\ direction = (0, 0)%Z /\
             pose self = p0).

(** The distance a character covers in a frame. *)
Definition step (clock : Clock) (self : Character) : Q :=
  speed self * SQUARE_SIZE / get_fps clock.

End Walking.

(** ** Vocabulary for redirects and for leaving the match *)

(** The sideways move a block redirects to, towards the side of a
    diagonal probe. *)
Definition side_event (d : Direction) (w : Probe) : CharacterEvents :=
  match d, w with
  | (Up | Down), Lower => MOVE_LEFT
  | (Up | Down), Upper => MOVE_RIGHT
  | (Right | Left), Lower => MOVE_UP
  | (Right | Left), Upper => MOVE_DOWN
  | _, Ahead => move_event d
  end.

Definition side_vector (d : Direction) (w : Probe) : Z * Z :=
  match d, w with
  | (Up | Down), Lower => (-1, 0)
  | (Up | Down), Upper => (1, 0)
  | (Right | Left), Lower => (0, -1)
  | (Right | Left), Upper => (0, 1)
  | _, Ahead => vector d
  end%Z.

(** How [play] ends on an event that makes it leave. *)
Definition leave_outcome (ev : Event) : Played :=
  match ev with
  | KEYUP key =>
      if Key_eqb key K_BACKSPACE then Returned MENU else Returned PAUSE
  | _ => SystemExit
  end.

(** ** The map view: [source/core/ui/Map.py]

    [draw] paints the background and then one image per block of the grid.
    The surface is embedded as the sequence of painting calls made on it.
    [Grid] is a collaborator: its dimension and its cell accessor are what
    the view reads. *)

Inductive Image : Type := block | brick.

Inductive Paint : Type :=
| fill_green
| blit (image : Image) (pos : Q * Q).

(** [range(n)]. *)
Definition range (n : Z) : list Z := map Z.of_nat (seq 0 (Z.to_nat n)).

Module Map.

Section Map.

Context {constants : Constants}.

(** [Constants.DISPLAY_HEIGTH]. *)
Variable DISPLAY_HEIGTH : Q.

(** [self.__dim] and [self.__grid.__getattr__(position=(x, y))]. *)
Variable dim : Z * Z.
Variable getattr : Z -> Z -> Z.

(** The body of the inner loop, before [pos] moves on. *)
Definition draw_cell (x y : Z) (pos : Q * Q) : list Paint :=
  if (getattr x y =? UNIT_FIXED_BLOCK)%Z then [blit block pos]
  else if (getattr x y =? UNIT_BLOCK)%Z then [blit brick pos]
  else [].

(** [for y in range(self.__dim[1])], from [pos]: the calls made and the
    [pos] it leaves. *)
Fixpoint draw_row (x : Z) (ys : list Z) (pos : Q * Q)
  : list Paint * (Q * Q) :=
  match ys with
  | [] => ([], pos)
  | y :: ys' =>
      let (out, pos') := draw_row x ys' (fst pos + SQUARE_SIZE, snd pos) in
      (draw_cell x y pos ++ out, pos')
  end.

(** [for x in range(self.__dim[0])]. *)
Fixpoint draw_rows (xs : list Z) (pos : Q * Q) : list Paint * (Q * Q) :=
  match xs with
  | [] => ([], pos)
  | x :: xs' =>
      let (row, pos') := draw_row x (range (snd dim)) pos in
      let (out, pos'') := draw_rows xs' (0, snd pos' + SQUARE_SIZE) in
      (row ++ out, pos'')
  end.

Definition draw : list Paint :=
  fill_green :: fst (draw_rows (range (fst dim)) (0, DISPLAY_HEIGTH)).

(** *** Vocabulary for the picture *)

(** The cell holds a fixed block or a brick. *)
Definition painted (cell : Z * Z) : bool :=
  ((getattr (fst cell) (snd cell) =? UNIT_FIXED_BLOCK)
   || (getattr (fst cell) (snd cell) =? UNIT_BLOCK))%Z.

Definition image_of (cell : Z * Z) : Image :=
  if (getattr (fst cell) (snd cell) =? UNIT_FIXED_BLOCK)%Z then block
  else brick.

(** The top left corner of the screen square of a cell: the second index
    counts squares to the right, the first one squares down from the top of
    the playing field. *)
Definition corner (cell : Z * Z) : Q * Q :=
  (inject_Z (snd cell) * SQUARE_SIZE,
   DISPLAY_HEIGTH + inject_Z (fst cell) * SQUARE_SIZE).

(** The cells of the grid, first index by first index. *)
Definition cells : list (Z * Z) :=
  list_prod (range (fst dim)) (range (snd dim)).

(** The same painting call, with positions compared as numbers. *)
Definition same_paint (a b : Paint) : Prop :=
  match a, b with
  | fill_green, fill_green => True
  | blit i p, blit j q => i = j /\ fst p == fst q /\ snd p == snd q
  | _, _ => False
  end.

End Map.

End Map.

(** The position [Character.draw] hands to [display.blit], for an icon of
    the given height ([self.__icon.get_size()[1]]). *)
Definition blit_position {constants : Constants} {clip : AnimationClip}
  (DISPLAY_HEIGTH icon_height : Q) (self : Character) : Q * Q :=
  (pose_x (pose self) - 0.5 * SQUARE_SIZE,
   pose_y (pose self) + SQUARE_SIZE / 2 - icon_height + DISPLAY_HEIGTH).

(** The grid the demo tile map stands for. *)
Definition demo_getattr (x y : Z) : Z :=
  match tilemap_at demo_tilemap x y with
  | Ok unit => unit
  | Raise _ => 0%Z
  end.

(** ** The engine: [source/core/engine/Engine.py]

    [Engine.play] is a loop without end over the state of the game.  [Menu]
    and [Setup] are collaborators: what they answer in a turn of the loop is
    an input of the turn, and any answer is allowed.  Their instances, like
    those of [Match], are objects that count as true. *)

Module Engine.

(** What ends the loop: [sys.exit()] in the engine, or an exception on its
    way out of [play]. *)
Inductive Ending : Type :=
| Exit
| AttributeError
| TypeError
| FromMatch (outcome : Played)
| FromScreen.

(** The answers of one turn: whether [Menu()] and [Setup(sprites)] return an
    object, the state that [draw] followed by [update()] of the menu, and of
    the setup screen, returns ([None] when one of them raises, [SystemExit]
    included), whether [get_characters()] returns, and what the match would
    meet: the events, the clock and the tile map of its grid. *)
Record Turn : Type := {
  Menu_init : bool;
  Menu_update : option Z;
  Setup_init : bool;
  Setup_update : option Z;
  Setup_get_characters : bool;
  events : list Event;
  clock : Clock;
  tilemap : Tilemap
}.

Section Engine.

Context {constants : Constants} {clip : AnimationClip}.

(** The values of the state constants. *)
Variable code : Screen -> Z.

(** The attributes the loop works on; a screen attribute holds an object or
    [None], and the match is embedded by its player. *)
Record Engine : Type := {
  __state : Z;
  __menu : bool;
  __setup : bool;
  __match : option Character
}.

Definition set_state (s : Z) (self : Engine) : Engine :=
  {| __state := s; __menu := __menu self; __setup := __setup self;
     __match := __match self |}.

Definition set_match (m : option Character) (self : Engine) : Engine :=
  {| __state := __state self; __menu := __menu self;
     __setup := __setup self; __match := m |}.

(** [__init__]. *)
Definition init : Engine :=
  {| __state := code MENU; __menu := false; __setup := false;
     __match := None |}.

(** [Match(self.__setup.get_characters(), self.__sprites)]: the arguments
    are evaluated first; [Match.__init__] takes none besides [self]. *)
Definition new_match (t : Turn) (self : Engine) : Ending :=
  if __setup self then
    if Setup_get_characters t then TypeError else FromScreen
  else AttributeError.

(** One turn of [while True]: [None] when the loop goes on. *)
Definition turn (t : Turn) (self : Engine) : Engine * option Ending :=
  if (__state self =? code MENU)%Z then
    let entered :=
      if __menu self then Some self
      else if Menu_init t then
        Some {| __state := __state self; __menu := true;
                __setup := false; __match := None |}
      else None in
    match entered with
    | None => (self, Some FromScreen)
    | Some self' =>
        match Menu_update t with
        | Some s => (set_state s self', None)
        | None => (self', Some FromScreen)
        end
    end
  else if (__state self =? code SETUP)%Z then
    let entered :=
      if __setup self then Some self
      else if Setup_init t then
        Some {| __state := __state self; __menu := false;
                __setup := true; __match := __match self |}
      else None in
    match entered with
    | None => (self, Some FromScreen)
    | Some self' =>
        match Setup_update t with
        | Some s => (set_state s self', None)
        | None => (self', Some FromScreen)
        end
    end
  else if (__state self =? code PLAYING)%Z then
    match __match self with
    | None => (self, Some (new_match t self))
    | Some player =>
        (* [Match.play] *)
        match play (events t) (clock t) player with
        | (player', Returned s) =>
            (set_state (code s) (set_match (Some player') self), None)
        | (player', out) =>
            (set_match (Some player') self, Some (FromMatch out))
        end
    end
  else if (__state self =? code FINISH)%Z then (self, Some Exit)
  else (self, None).

(** [Engine.play]: the loop, for as many turns as there are answers. *)
Fixpoint play (ts : list Turn) (self : Engine) : Engine * option Ending :=
  match ts with
  | [] => (self, None)
  | t :: ts' =>
      match turn t self with
      | (self', None) => play ts' self'
      | ended => ended
      end
  end.

(** *** Vocabulary *)

(** The state is one the loop has a branch for. *)
Definition handled (s : Z) : bool :=
  ((s =? code MENU) || (s =? code SETUP) || (s =? code PLAYING)
   || (s =? code FINISH))%Z.

(** The branch of [PLAYING] is the one the turn takes. *)
Definition playing (self : Engine) : bool :=
  (negb (__state self =? code MENU) && negb (__state self =? code SETUP)
   && (__state self =? code PLAYING))%Z.

(** The same answers of [Menu] and [Setup], whatever the match would meet. *)
Definition same_screens (t t' : Turn) : Prop :=
  Menu_init t = Menu_init t' /\ Menu_update t = Menu_update t' /\
  Setup_init t = Setup_init t' /\ Setup_update t = Setup_update t' /\
  Setup_get_characters t = Setup_get_characters t'.

End Engine.

End Engine.

(** State constants and answers for the concrete game. *)
Definition demo_code (s : Screen) : Z :=
  match s with
  | MENU => 0 | SETUP => 1 | PLAYING => 2 | FINISH => 3
  | PAUSE => 4 | PLAYING_SINGLE => 5
  end%Z.

Definition demo_turn (menu setup : option Z) : Engine.Turn :=
  {| Engine.Menu_init := true; Engine.Menu_update := menu;
     Engine.Setup_init := true; Engine.Setup_update := setup;
     Engine.Setup_get_characters := true;
     Engine.events := [KEYDOWN K_DOWN]; Engine.clock := demo_clock;
     Engine.tilemap := demo_tilemap |}.

(** ** The priority order of the pending event

    The order in words: a vertical component of +1 asks for [MOVE_DOWN],
    else one of -1 for [MOVE_UP], else a horizontal component of +1 for
    [MOVE_RIGHT], else one of -1 for [MOVE_LEFT]; a velocity without a unit
    component asks for nothing and leaves what is there. *)
Definition priority_order (v : Z * Z) (otherwise : option CharacterEvents)
  : option CharacterEvents :=
  if (snd v =? 1)%Z then Some MOVE_DOWN
  else if (snd v =? -1)%Z then Some MOVE_UP
  else if (fst v =? 1)%Z then Some MOVE_RIGHT
  else if (fst v =? -1)%Z then Some MOVE_LEFT
  else otherwise.

(** What is pending when the velocity asks for nothing: the [STOP] event of
    an arrow key that was released, else the event that was pending. *)
Definition settled {constants : Constants} {clip : AnimationClip}
  (c : Call) (self : Character) : option CharacterEvents :=
  match c with
  | KeyUp key =>
      match released key with
      | Some e => Some e
      | None => new_event self
      end
  | _ => new_event self
  end.

(** ** Properties *)

Section Properties.

Context {constants : Constants} {clip : AnimationClip}.

(** *** Comparisons and the modulo *)

Lemma Qltb_true (a b : Q) : Qltb a b = true <-> a < b.
Proof.
  unfold Qltb. rewrite negb_true_iff.
  destruct (Qle_bool b a) eqn:E.
  - apply Qle_bool_iff in E. split; [discriminate | intro; lra].
  - split; [intros _ | reflexivity].
    destruct (Qlt_le_dec a b) as [L | L]; [exact L |].
    apply Qle_bool_iff in L. congruence.
Qed.

Lemma Qltb_false (a b : Q) : Qltb a b = false <-> b <= a.
Proof.
  unfold Qltb. rewrite negb_false_iff. apply Qle_bool_iff.
Qed.

Lemma Qle_bool_false (a b : Q) : Qle_bool a b = false <-> b < a.
Proof.
  rewrite <- Qltb_true. unfold Qltb. now rewrite negb_true_iff.
Qed.

Lemma Qeq_bool_false (a b : Q) : Qeq_bool a b = false <-> ~ a == b.
Proof.
  split; [apply Qeq_bool_neq |].
  intro N. destruct (Qeq_bool a b) eqn:E; [| reflexivity].
  apply Qeq_bool_iff in E. contradiction.
Qed.

(** Every boolean comparison in the context becomes the order fact it
    stands for. *)
Ltac reflect_Q :=
  repeat match goal with
    | H : Qltb _ _ = true |- _ => apply Qltb_true in H
    | H : Qltb _ _ = false |- _ => apply Qltb_false in H
    | H : Qle_bool _ _ = true |- _ => apply Qle_bool_iff in H
    | H : Qle_bool _ _ = false |- _ => apply Qle_bool_false in H
    | H : Qeq_bool _ _ = true |- _ => apply Qeq_bool_iff in H
    | H : Qeq_bool _ _ = false |- _ => apply Qeq_bool_false in H
    | H : andb _ _ = true |- _ => apply andb_true_iff in H; destruct H
    | H : andb _ _ = false |- _ => apply andb_false_iff in H; destruct H
    end.

Lemma py_mod_bounds (a m : Q) : 0 < m -> 0 <= py_mod a m /\ py_mod a m < m.
Proof.
  intro Hm. unfold py_mod.
  pose proof (Qfloor_le (a / m)) as Hlo.
  pose proof (Qlt_floor (a / m)) as Hhi.
  rewrite inject_Z_plus in Hhi.
  assert (Ha : a == a / m * m) by (field; lra).
  set (k := inject_Z (Qfloor (a / m))) in *.
  set (q := a / m) in *.
  change (inject_Z 1) with 1 in Hhi.
  split; nra.
Qed.

Lemma offset_bounds (v : Q) :
  0 < SQUARE_SIZE -> 0 <= offset v /\ offset v < SQUARE_SIZE.
Proof. apply py_mod_bounds. Qed.

Lemma offset_fraction_range (v : Q) :
  0 < SQUARE_SIZE -> 0 <= offset_fraction v /\ offset_fraction v < 1.
Proof.
  intro Hsq. destruct (offset_bounds v Hsq) as [Hlo Hhi].
  unfold offset_fraction.
  assert (E : offset v == offset v / SQUARE_SIZE * SQUARE_SIZE)
    by (field; lra).
  set (f := offset v / SQUARE_SIZE) in *. split; nra.
Qed.

(** *** The bomb counter *)

Lemma place_bomb_below (self : Character) :
  (placed_bombs self < total_bombs self)%Z ->
  place_bomb self
  = (set_placed_bombs (placed_bombs self + 1) self, Ok true).
Proof.
  intro H. unfold place_bomb, bind, get, modify, ret.
  apply Z.ltb_lt in H. now rewrite H.
Qed.

Lemma place_bomb_full (self : Character) :
  (total_bombs self <= placed_bombs self)%Z ->
  place_bomb self = (self, Ok false).
Proof.
  intro H. unfold place_bomb, bind, get, modify, ret.
  apply Z.ltb_ge in H. now rewrite H.
Qed.

Lemma place_bombs_S (n : nat) (self : Character) :
  place_bombs (S n) self
  = match place_bomb self with
    | (self', Ok b) =>
        let (self'', bs) := place_bombs n self' in (self'', b :: bs)
    | (self', Raise _) => (self', [])
    end.
Proof. reflexivity. Qed.

Lemma place_bombs_fill (n : nat) : forall self : Character,
  (placed_bombs self + Z.of_nat n = total_bombs self)%Z ->
  place_bombs (S n) self
  = (set_placed_bombs (total_bombs self) self, repeat true n ++ [false]).
Proof.
  induction n as [| n IH]; intros self H; rewrite place_bombs_S.
  - rewrite place_bomb_full by lia. cbn [place_bombs repeat app].
    f_equal. destruct self; cbn in *.
    unfold set_placed_bombs; cbn. f_equal. lia.
  - rewrite place_bomb_below by lia.
    rewrite IH by (cbn; lia). reflexivity.
Qed.

(** *** What each method leaves alone *)

(** One step of the state monad, without touching the arithmetic. *)
Ltac monad_red :=
  cbv beta iota delta [bind get modify ret lift]; cbn [fst snd].

Ltac branch :=
  match goal with
  | |- context [if ?b then _ else _] => destruct b eqn:?
  | |- context [match ?r with Ok _ => _ | Raise _ => _ end] => destruct r eqn:?
  end.

Lemma keeps_intent_refl (self : Character) : keeps_intent self self.
Proof. repeat split. Qed.

Lemma keeps_intent_trans (a b c : Character) :
  keeps_intent a b -> keeps_intent b c -> keeps_intent a c.
Proof.
  unfold keeps_intent. intros H1 H2.
  decompose [and] H1. decompose [and] H2. repeat split; congruence.
Qed.

Lemma move_up_block_keeps tilemap x x_tile direction (self : Character) :
  keeps_intent self (fst (move_up_block tilemap x x_tile direction self)).
Proof.
  unfold move_up_block. monad_red.
  repeat (branch; monad_red); repeat split.
Qed.

Lemma move_down_block_keeps tilemap x x_tile direction (self : Character) :
  keeps_intent self (fst (move_down_block tilemap x x_tile direction self)).
Proof.
  unfold move_down_block. monad_red.
  repeat (branch; monad_red); repeat split.
Qed.

Lemma move_right_block_keeps tilemap y y_tile direction (self : Character) :
  keeps_intent self (fst (move_right_block tilemap y y_tile direction self)).
Proof.
  unfold move_right_block. monad_red.
  repeat (branch; monad_red); repeat split.
Qed.

Lemma move_left_block_keeps tilemap y y_tile direction (self : Character) :
  keeps_intent self (fst (move_left_block tilemap y y_tile direction self)).
Proof.
  unfold move_left_block. monad_red.
  repeat (branch; monad_red); repeat split.
Qed.

(** A bind keeps what both of its halves keep. *)
Lemma bind_keeps {A B : Type} (m : M A) (k : A -> M B) (self : Character) :
  keeps_intent self (fst (m self)) ->
  (forall a s, keeps_intent s (fst (k a s))) ->
  keeps_intent self (fst (bind m k self)).
Proof.
  intros Hm Hk. unfold bind.
  destruct (m self) as [s [a | e]]; cbn [fst] in *.
  - eapply keeps_intent_trans; [exact Hm | apply Hk].
  - exact Hm.
Qed.

Lemma integrate_keeps direction clock (self : Character) :
  keeps_intent self (fst (integrate direction clock self)).
Proof.
  unfold integrate. monad_red. repeat (branch; monad_red); repeat split.
Qed.

Ltac keeps :=
  first
    [ apply move_up_block_keeps | apply move_down_block_keeps
    | apply move_right_block_keeps | apply move_left_block_keeps
    | apply integrate_keeps
    | apply bind_keeps; [keeps | intros ? ?; keeps]
    | unfold get, lift, modify, ret; cbn [fst]; repeat split ].

Lemma __move_keeps direction clock tilemap (self : Character) :
  keeps_intent self (fst (__move direction clock tilemap self)).
Proof. unfold __move. keeps. Qed.

(** *** [update] on a live character *)

Lemma update_dead clock tilemap (self : Character) :
  Animation_done (die_animation self) = true ->
  update clock tilemap self = (self, Ok false).
Proof.
  intro H. unfold update. monad_red. now rewrite H.
Qed.

Lemma begin_tick_fields (self : Character) :
  event (begin_tick self) = new_event self /\
  new_event (begin_tick self) = new_event self /\
  got_special_event (begin_tick self) = false /\
  pose (begin_tick self) = pose self /\
  speed (begin_tick self) = speed self /\
  velocity (begin_tick self) = velocity self /\
  die_animation (begin_tick self) = die_animation self.
Proof.
  unfold begin_tick. cbn.
  destruct (got_special_event self) eqn:E; cbn; repeat split; exact E.
Qed.

Lemma update_move (d : Direction) clock tilemap (self : Character) :
  Animation_done (die_animation self) = false ->
  new_event self = Some (move_event d) ->
  update clock tilemap self
  = bind (__move (vector d) clock tilemap) (fun _ => ret true)
         (begin_tick self).
Proof.
  intros Hlive Hnew.
  destruct (begin_tick_fields self) as (_ & Hn & _).
  unfold update. monad_red. rewrite Hlive.
  fold (begin_tick self). rewrite Hn, Hnew.
  destruct d; reflexivity.
Qed.

Lemma fst_bind_ret {A B : Type} (m : M A) (b : B) (self : Character) :
  fst (bind m (fun _ => ret b) self) = fst (m self).
Proof.
  unfold bind, ret. destruct (m self) as [s [a | e]]; reflexivity.
Qed.

(** *** Key edges *)

Lemma infer_from_velocity_spec (self : Character) :
  let self' := fst (infer_from_velocity self) in
  keeps_body self self' /\ velocity self' = velocity self /\
  got_special_event self' = got_special_event self /\
  snd (infer_from_velocity self) = Ok tt /\
  (got_special_event self = true -> self' = self) /\
  (got_special_event self = false ->
   let vx := fst (velocity self) in
   let vy := snd (velocity self) in
   (vy = 1 -> new_event self' = Some MOVE_DOWN) /\
   (vy = -1 -> new_event self' = Some MOVE_UP) /\
   (vy <> 1 -> vy <> -1 -> vx = 1 -> new_event self' = Some MOVE_RIGHT) /\
   (vy <> 1 -> vy <> -1 -> vx = -1 -> new_event self' = Some MOVE_LEFT) /\
   (vy <> 1 -> vy <> -1 -> vx <> 1 -> vx <> -1 ->
    new_event self' = new_event self))%Z.
Proof.
  unfold infer_from_velocity, keeps_body. monad_red.
  destruct (got_special_event self) eqn:Hflag; cbn [negb].
  - cbn [fst snd]. repeat split; intros; congruence.
  - destruct (snd (velocity self) =? 1)%Z eqn:E1;
      [| destruct (snd (velocity self) =? -1)%Z eqn:E2;
         [| destruct (fst (velocity self) =? 1)%Z eqn:E3;
            [| destruct (fst (velocity self) =? -1)%Z eqn:E4]]];
      repeat match goal with
        | H : (_ =? _)%Z = true |- _ => apply Z.eqb_eq in H
        | H : (_ =? _)%Z = false |- _ => apply Z.eqb_neq in H
        end;
      cbn; repeat split; intros; try reflexivity; try congruence;
      try contradiction; try lia.
Qed.

(** A key edge while neither [WIN] nor [DIE] is pending: the velocity is
    updated, a key-up of an arrow key leaves its [STOP] event, and the
    pending event is then read off the velocity. *)
Lemma key_edge_unfold (c : Call) (self : Character) :
  is_key_edge c = true ->
  new_event self <> Some WIN -> new_event self <> Some DIE ->
  exists mid : Character,
    call c self = infer_from_velocity mid /\
    keeps_body self mid /\
    got_special_event mid = got_special_event self /\
    (forall key, c = KeyDown key -> new_event mid = new_event self).
Proof.
  intros Hc Hw Hd.
  assert (G : is_event (new_event self) WIN || is_event (new_event self) DIE
              = false).
  { destruct (new_event self) as [[] |]; try reflexivity; congruence. }
  destruct c as [| key | key | | |]; try discriminate Hc;
    cbn [call]; unfold key_up, key_down; unfold bind at 1, get at 1;
    rewrite G; cbn [negb];
    destruct key; unfold bind at 1; unfold infer_from_velocity;
    monad_red; eexists; (split; [reflexivity |]);
    unfold keeps_body; cbn; repeat split; intros;
    try discriminate; reflexivity.
Qed.

Lemma key_edge_guarded (c : Call) (self : Character) :
  is_key_edge c = true ->
  new_event self = Some WIN \/ new_event self = Some DIE ->
  call c self = (self, Ok tt).
Proof.
  intros Hc H.
  assert (G : is_event (new_event self) WIN || is_event (new_event self) DIE
              = true) by (destruct H as [-> | ->]; reflexivity).
  destruct c as [| key | key | | |]; try discriminate Hc;
    cbn [call]; unfold key_up, key_down; monad_red; now rewrite G.
Qed.

Lemma key_edges_guarded (calls : list Call) (self : Character) :
  forallb is_key_edge calls = true ->
  new_event self = Some WIN \/ new_event self = Some DIE ->
  run calls self = self.
Proof.
  intros Hc H. induction calls as [| c calls IH]; [reflexivity |].
  cbn [forallb] in Hc. apply andb_true_iff in Hc as [Hc Hcs].
  cbn [run]. rewrite key_edge_guarded by assumption. now apply IH.
Qed.

Lemma key_edge_priority (c : Call) (self : Character) :
  is_key_edge c = true ->
  got_special_event self = false ->
  new_event self <> Some WIN -> new_event self <> Some DIE ->
  let self' := fst (call c self) in
  let vx := fst (velocity self') in
  let vy := snd (velocity self') in
  ((vy = 1 -> new_event self' = Some MOVE_DOWN) /\
   (vy = -1 -> new_event self' = Some MOVE_UP) /\
   (vy <> 1 -> vy <> -1 -> vx = 1 -> new_event self' = Some MOVE_RIGHT) /\
   (vy <> 1 -> vy <> -1 -> vx = -1 -> new_event self' = Some MOVE_LEFT))%Z.
Proof.
  intros Hc Hflag Hw Hd.
  destruct (key_edge_unfold c self Hc Hw Hd) as (mid & E & _ & Hf & _).
  cbv zeta. rewrite E.
  destruct (infer_from_velocity_spec mid) as (_ & Hv & _ & _ & _ & P).
  rewrite Hv. rewrite Hf in P. specialize (P Hflag). cbv zeta in P.
  destruct P as (P1 & P2 & P3 & P4 & _). auto.
Qed.

(** *** Calls other than a frame *)

Lemma call_keeps_body (c : Call) (self : Character) :
  (forall clock tilemap, c <> Tick clock tilemap) ->
  keeps_body self (fst (call c self)).
Proof.
  intro Hc. unfold keeps_body.
  destruct c as [clock tilemap | key | key | | | e];
    [now elim (Hc clock tilemap) | | | | |];
    cbn [call];
    unfold key_up, key_down, infer_from_velocity, place_bomb, bomb_exploded,
      special_event;
    monad_red; try destruct key; monad_red;
    repeat (branch; monad_red); cbn; repeat split.
Qed.

Lemma draw_keeps (self : Character) :
  pose (fst (draw self)) = pose self /\
  speed (fst (draw self)) = speed self /\
  snd (draw self) = Ok tt /\
  (is_event (event self) DIE = false -> fst (draw self) = self).
Proof.
  unfold draw. monad_red.
  destruct (is_event (event self) DIE); cbn; repeat split; congruence.
Qed.

(** *** The speed *)

Lemma update_increase_speed clock tilemap (self : Character) :
  Animation_done (die_animation self) = false ->
  new_event self = Some INCREASE_SPEED ->
  speed (fst (update clock tilemap self)) <= MAX_SPEED /\
  die_animation (fst (update clock tilemap self)) = die_animation self /\
  event (fst (update clock tilemap self)) = Some INCREASE_SPEED.
Proof.
  intros Hlive Hnew.
  destruct (begin_tick_fields self) as (He & Hn & _ & _ & _ & _ & Hdie).
  unfold update. monad_red. rewrite Hlive.
  fold (begin_tick self). rewrite Hn, Hnew.
  cbn [is_event CharacterEvents_eqb]. monad_red.
  repeat (branch; monad_red); cbn in *; rewrite ?Hdie, ?He, ?Hnew;
    reflect_Q; repeat split; try lra.
Qed.

Lemma update_speed clock tilemap (self : Character) :
  speed self <= MAX_SPEED ->
  speed (fst (update clock tilemap self)) <= MAX_SPEED.
Proof.
  intro Hle.
  destruct (Animation_done (die_animation self)) eqn:Hlive.
  { now rewrite update_dead. }
  destruct (begin_tick_fields self) as (_ & Hn & _ & _ & Hs & _).
  assert (Hmove : forall d, new_event self = Some (move_event d) ->
                            speed (fst (update clock tilemap self))
                            <= MAX_SPEED).
  { intros d Hd. rewrite (update_move d) by assumption.
    rewrite fst_bind_ret.
    destruct (__move_keeps (vector d) clock tilemap (begin_tick self))
      as (E & _).
    rewrite E, Hs. exact Hle. }
  destruct (new_event self) as [e |] eqn:Hnew;
    [destruct e |];
    try (apply (Hmove Up); reflexivity);
    try (apply (Hmove Down); reflexivity);
    try (apply (Hmove Left); reflexivity);
    try (apply (Hmove Right); reflexivity);
    try (now apply update_increase_speed);
    unfold update; monad_red; rewrite Hlive;
    fold (begin_tick self); rewrite Hn;
    cbn [is_event CharacterEvents_eqb]; monad_red; cbn; rewrite Hs;
    exact Hle.
Qed.

Lemma call_speed (c : Call) (self : Character) :
  speed self <= MAX_SPEED -> speed (fst (call c self)) <= MAX_SPEED.
Proof.
  intro Hle.
  destruct c as [clock tilemap | key | key | | | e];
    try (match goal with
         | |- speed (fst (call ?c _)) <= _ =>
             destruct (call_keeps_body c self) as (_ & E & _);
             [intros ? ?; discriminate | rewrite E; exact Hle]
         end).
  cbn [call]. unfold bind.
  pose proof (update_speed clock tilemap self Hle) as Hu.
  destruct (update clock tilemap self) as [s [[|] | e]]; cbn [fst] in *;
    try exact Hu.
  destruct (draw_keeps s) as (_ & E & _). now rewrite E.
Qed.

Lemma run_speed (calls : list Call) : forall self : Character,
  speed self <= MAX_SPEED -> speed (run calls self) <= MAX_SPEED.
Proof.
  induction calls as [| c calls IH]; intros self Hle; [exact Hle |].
  cbn [run]. pose proof (call_speed c self Hle) as Hc.
  destruct (call c self) as [s [u | e]]; cbn [fst] in Hc.
  - now apply IH.
  - exact Hc.
Qed.

Lemma speed_ups_bounded (n : nat) clock tilemap (self : Character) :
  Animation_done (die_animation self) = false ->
  speed (run (speed_ups (S n) clock tilemap) self) <= MAX_SPEED.
Proof.
  intro Hlive. cbn [speed_ups run call].
  unfold special_event at 1. monad_red.
  set (s1 := set_got_special_event true
               (set_new_event (Some INCREASE_SPEED) self)).
  destruct (update_increase_speed clock tilemap s1) as (Hs & _ & He);
    [exact Hlive | reflexivity |].
  destruct (update clock tilemap s1) as [s [[|] | e]]; cbn [fst] in *.
  - destruct (draw_keeps s) as (_ & E & Hok & _).
    destruct (draw s) as [s' r]; cbn [fst snd] in *. subst r.
    apply run_speed. now rewrite E.
  - monad_red. now apply run_speed.
  - exact Hs.
Qed.

(** *** After the death clip has ended *)

Lemma call_dead (c : Call) (self : Character) :
  Animation_done (die_animation self) = true ->
  pose (fst (call c self)) = pose self /\
  die_animation (fst (call c self)) = die_animation self.
Proof.
  intro Hdead.
  destruct c as [clock tilemap | key | key | | | e];
    try (match goal with
         | |- pose (fst (call ?c _)) = _ /\ _ =>
             destruct (call_keeps_body c self) as (Ep & _ & Ed);
             [intros ? ?; discriminate | now split]
         end).
  cbn [call]. unfold bind. rewrite update_dead by exact Hdead.
  now split.
Qed.

Lemma run_dead (calls : list Call) : forall self : Character,
  Animation_done (die_animation self) = true ->
  pose (run calls self) = pose self /\
  die_animation (run calls self) = die_animation self.
Proof.
  induction calls as [| c calls IH]; intros self Hdead; [now split |].
  cbn [run]. destruct (call_dead c self Hdead) as [Ep Ed].
  destruct (call c self) as [s [u | e]]; cbn [fst] in *.
  - destruct (IH s) as [Ep' Ed'].
    + now rewrite Ed.
    + split; congruence.
  - now split.
Qed.

(** C4: once the death clip reports that it has ended, [update] returns
    [False] and leaves the whole object, the position included, as it was;
    and this stays so after any further run of calls on the character
    (frames of the match, key edges, bomb calls, special events): the
    position is still the one the character died at, the clip still reports
    its end, and every later [update] returns [False] without a change. *)
Theorem dead_character_is_terminal (self : Character) :
  Animation_done (die_animation self) = true ->
  (forall clock tilemap, update clock tilemap self = (self, Ok false)) /\
  (forall calls,
     let self' := run calls self in
     pose self' = pose self /\
     Animation_done (die_animation self') = true /\
     forall clock tilemap, update clock tilemap self' = (self', Ok false)).
Proof.
  intro Hdead. split.
  - intros clock tilemap. now apply update_dead.
  - intros calls self'. subst self'.
    destruct (run_dead calls self Hdead) as [Ep Ed].
    assert (Hd : Animation_done (die_animation (run calls self)) = true)
      by now rewrite Ed.
    repeat split; try assumption.
    intros clock tilemap. now apply update_dead.
Qed.

(** C5, as amended: [place_bomb] returns [True] exactly when the placed
    count is below the capacity, and then the placed count goes up by one
    and nothing else changes; otherwise it returns [False] and the object
    is unchanged.  From no bomb placed and a capacity of [n], [n] calls
    succeed and the next one fails.  A [place_bomb] that succeeds, followed
    at once by [bomb_exploded], brings the placed count back. *)
Theorem place_bomb_capacity :
  (forall self : Character,
     (placed_bombs self < total_bombs self)%Z ->
     place_bomb self
     = (set_placed_bombs (placed_bombs self + 1) self, Ok true)) /\
  (forall self : Character,
     ~ (placed_bombs self < total_bombs self)%Z ->
     place_bomb self = (self, Ok false)) /\
  (forall self : Character,
     snd (place_bomb self) = Ok true
     <-> (placed_bombs self < total_bombs self)%Z) /\
  (forall (n : nat) (self : Character),
     placed_bombs self = 0%Z -> total_bombs self = Z.of_nat n ->
     place_bombs (S n) self
     = (set_placed_bombs (Z.of_nat n) self, repeat true n ++ [false])) /\
  (forall self : Character,
     (placed_bombs self < total_bombs self)%Z ->
     placed_bombs (fst (place_then_explode self)) = placed_bombs self).
Proof.
  repeat split.
  - intros self H. now apply place_bomb_below.
  - intros self H. apply place_bomb_full. lia.
  - intro H. destruct (Z.lt_ge_cases (placed_bombs self) (total_bombs self))
      as [L | L]; [exact L |].
    rewrite place_bomb_full in H by exact L. discriminate.
  - intro H. now rewrite place_bomb_below.
  - intros n self H0 Hn. rewrite place_bombs_fill by lia. now rewrite Hn.
  - intros self H. unfold place_then_explode, bind.
    rewrite place_bomb_below by exact H.
    unfold bomb_exploded, modify. cbn. lia.
Qed.

(** C6: while [WIN] or [DIE] is the pending event, [key_up] and [key_down]
    return without touching the object, whatever the key, and so does any
    sequence of key edges: the pending event and the velocity stay as they
    were. *)
Theorem win_die_ignore_keys (self : Character) :
  new_event self = Some WIN \/ new_event self = Some DIE ->
  (forall key,
     key_up key self = (self, Ok tt) /\ key_down key self = (self, Ok tt)) /\
  (forall calls,
     forallb is_key_edge calls = true ->
     run calls self = self /\
     new_event (run calls self) = new_event self /\
     velocity (run calls self) = velocity self).
Proof.
  intro H. split.
  - intro key. split.
    + now apply (key_edge_guarded (KeyUp key)).
    + now apply (key_edge_guarded (KeyDown key)).
  - intros calls Hc. rewrite key_edges_guarded by assumption. now repeat split.
Qed.

Lemma key_edge_derives (c : Call) (self : Character) :
  is_key_edge c = true ->
  got_special_event self = false ->
  new_event self <> Some WIN -> new_event self <> Some DIE ->
  let self' := fst (call c self) in
  snd (call c self) = Ok tt /\
  velocity self'
  = (match c with
     | KeyUp (K_OTHER _) | KeyDown (K_OTHER _) => velocity self
     | _ => (wrap64 (fst (velocity self) + fst (edge_delta c)),
             wrap64 (snd (velocity self) + snd (edge_delta c)))
     end)%Z /\
  new_event self' = priority_order (velocity self') (settled c self).
Proof.
  intros Hc Hflag Hw Hd.
  assert (G : is_event (new_event self) WIN || is_event (new_event self) DIE
              = false).
  { destruct (new_event self) as [[] |]; try reflexivity; congruence. }
  cbv zeta. unfold priority_order.
  destruct c as [| key | key | | |]; try discriminate Hc;
    cbn [call]; unfold key_up, key_down; monad_red; cbv zeta;
    rewrite G; cbn [negb];
    destruct key; monad_red; cbv zeta; unfold add_velocity;
    cbn [edge_delta settled released fst snd velocity set_velocity
         set_new_event got_special_event new_event];
    rewrite Hflag; cbn [negb];
    repeat (branch; monad_red; cbv zeta);
    cbn [fst snd velocity set_velocity set_new_event new_event] in *;
    repeat match goal with
      | H : (_ =? _)%Z = _ |- _ => rewrite H
      end;
    repeat split; congruence.
Qed.

(** C7: the pending event a key edge derives.  With no special event
    pending, a key edge (up or down) first moves the velocity: an arrow key
    adds its unit on the way down and takes it back on the way up, within
    the 64-bit cells, and another key leaves the velocity alone.  The
    pending event is then the one the priority order gives for that
    velocity: a vertical component of +1 gives [MOVE_DOWN]; otherwise -1
    gives [MOVE_UP]; otherwise a horizontal component of +1 gives
    [MOVE_RIGHT]; otherwise -1 gives [MOVE_LEFT]; the first two whatever
    the horizontal component is.  When no component is a unit, a released
    arrow key leaves its [STOP] event and any other edge leaves the pending
    event as it was. *)
Theorem pending_event_priority (c : Call) (self : Character) :
  is_key_edge c = true ->
  got_special_event self = false ->
  new_event self <> Some WIN -> new_event self <> Some DIE ->
  let self' := fst (call c self) in
  let vx := fst (velocity self') in
  let vy := snd (velocity self') in
  ((vy = 1 -> new_event self' = Some MOVE_DOWN) /\
   (vy = -1 -> new_event self' = Some MOVE_UP) /\
   (vy <> 1 -> vy <> -1 -> vx = 1 -> new_event self' = Some MOVE_RIGHT) /\
   (vy <> 1 -> vy <> -1 -> vx = -1 -> new_event self' = Some MOVE_LEFT) /\
   (vy <> 1 -> vy <> -1 -> vx <> 1 -> vx <> -1 ->
    new_event self' = settled c self) /\
   new_event self' = priority_order (vx, vy) (settled c self) /\
   (int64 (fst (velocity self)) -> int64 (snd (velocity self)) ->
    vx = wrap64 (fst (velocity self) + fst (edge_delta c)) /\
    vy = wrap64 (snd (velocity self) + snd (edge_delta c))) /\
   snd (call c self) = Ok tt)%Z.
Proof.
  intros Hc Hflag Hw Hd.
  destruct (key_edge_derives c self Hc Hflag Hw Hd) as (Hok & Hv & Hn).
  destruct (key_edge_priority c self Hc Hflag Hw Hd) as (P1 & P2 & P3 & P4).
  cbv zeta in *.
  split; [exact P1 |]. split; [exact P2 |]. split; [exact P3 |].
  split; [exact P4 |]. split; [| split; [| split; [| exact Hok]]].
  - intros N1 N2 N3 N4. rewrite Hn. unfold priority_order.
    apply Z.eqb_neq in N1, N2, N3, N4. now rewrite N1, N2, N3, N4.
  - rewrite Hn. now destruct (velocity (fst (call c self))).
  - intros Hx Hy. rewrite Hv.
    assert (Ex : wrap64 (fst (velocity self) + 0) = fst (velocity self))
      by (unfold int64, wrap64 in *; rewrite Z.add_0_r, Z.mod_small; lia).
    assert (Ey : wrap64 (snd (velocity self) + 0) = snd (velocity self))
      by (unfold int64, wrap64 in *; rewrite Z.add_0_r, Z.mod_small; lia).
    destruct c as [| [] | [] | | |]; try discriminate Hc;
      cbn [edge_delta fst snd]; rewrite ?Ex, ?Ey; now split.
Qed.

(** C8: the speed never exceeds [MAX_SPEED].  An [update] that applies
    [INCREASE_SPEED] leaves a speed of at most [MAX_SPEED] whatever it was
    before; every call on the character keeps a speed that is at most
    [MAX_SPEED] so, and so does every run of calls; any number of speed
    power-ups, each applied by the frame that follows it, ends with a speed
    of at most [MAX_SPEED]; and from a freshly constructed character, whose
    speed is [INITIAL_SPEED], the bound holds after every run of calls as
    soon as [INITIAL_SPEED] itself is within it. *)
Theorem speed_never_exceeds_max :
  (forall clock tilemap (self : Character),
     Animation_done (die_animation self) = false ->
     new_event self = Some INCREASE_SPEED ->
     speed (fst (update clock tilemap self)) <= MAX_SPEED) /\
  (forall (c : Call) (self : Character),
     speed self <= MAX_SPEED -> speed (fst (call c self)) <= MAX_SPEED) /\
  (forall (calls : list Call) (self : Character),
     speed self <= MAX_SPEED -> speed (run calls self) <= MAX_SPEED) /\
  (forall (n : nat) clock tilemap (self : Character),
     Animation_done (die_animation self) = false ->
     speed (run (speed_ups (S n) clock tilemap) self) <= MAX_SPEED) /\
  (INITIAL_SPEED <= MAX_SPEED ->
   forall initial_pose die_clip (calls : list Call),
     speed (run calls (init initial_pose die_clip)) <= MAX_SPEED).
Proof.
  repeat split.
  - intros clock tilemap self Hlive Hnew.
    now destruct (update_increase_speed clock tilemap self Hlive Hnew).
  - intros c self. apply call_speed.
  - intros calls self. apply run_speed.
  - intros n clock tilemap self. apply speed_ups_bounded.
  - intros H initial_pose die_clip calls. apply run_speed. exact H.
Qed.

(** *** Exceptions of [__move] *)

Lemma np_getitem_raises {A : Type} (a : list A) (i : Z) (e : exn) :
  np_getitem a i = Raise e -> e = IndexError.
Proof.
  unfold np_getitem.
  destruct ((_ <? 0) || _)%Z; [congruence |].
  destruct (nth_error a _); [discriminate | congruence].
Qed.

Lemma tilemap_at_raises (tilemap : Tilemap) (r c : Z) (e : exn) :
  tilemap_at tilemap r c = Raise e -> e = IndexError.
Proof.
  unfold tilemap_at. destruct (np_getitem tilemap r) as [row | e'] eqn:E.
  - apply np_getitem_raises.
  - intro H. injection H as <-. now apply np_getitem_raises in E.
Qed.

Ltac monad_zred :=
  cbv beta iota zeta delta [bind get modify ret lift]; cbn [fst snd].

Ltac tile_query :=
  intros;
  repeat match goal with
    | H : Raise _ = Raise _ |- _ => injection H as ?; subst
    | H : tilemap_at _ _ _ = Raise _ |- _ => apply tilemap_at_raises in H
    end;
  try discriminate; try congruence.

Lemma move_up_block_raises tilemap x x_tile direction (self : Character) e :
  snd (move_up_block tilemap x x_tile direction self) = Raise e ->
  e = IndexError.
Proof.
  unfold move_up_block. monad_zred.
  repeat (branch; monad_zred); tile_query.
Qed.

Lemma move_down_block_raises tilemap x x_tile direction (self : Character) e :
  snd (move_down_block tilemap x x_tile direction self) = Raise e ->
  e = IndexError.
Proof.
  unfold move_down_block. monad_zred.
  repeat (branch; monad_zred); tile_query.
Qed.

Lemma move_right_block_raises tilemap y y_tile direction (self : Character) e :
  snd (move_right_block tilemap y y_tile direction self) = Raise e ->
  e = IndexError.
Proof.
  unfold move_right_block. monad_zred.
  repeat (branch; monad_zred); tile_query.
Qed.

Lemma move_left_block_raises tilemap y y_tile direction (self : Character) e :
  snd (move_left_block tilemap y y_tile direction self) = Raise e ->
  e = IndexError.
Proof.
  unfold move_left_block. monad_zred.
  repeat (branch; monad_zred); tile_query.
Qed.

Lemma bind_raises_only {A B : Type} (P : exn -> Prop)
  (m : M A) (k : A -> M B) (self : Character) :
  (forall e, snd (m self) = Raise e -> P e) ->
  (forall a s e, snd (k a s) = Raise e -> P e) ->
  forall e, snd (bind m k self) = Raise e -> P e.
Proof.
  intros Hm Hk e. unfold bind.
  destruct (m self) as [s [a | e']]; cbn [snd] in *.
  - apply Hk.
  - intro H. apply Hm. injection H as <-. reflexivity.
Qed.

Lemma bind_always_raises {A B : Type}
  (m : M A) (k : A -> M B) (self : Character) :
  (forall a s, exists e, snd (k a s) = Raise e) ->
  exists e, snd (bind m k self) = Raise e.
Proof.
  intro Hk. unfold bind.
  destruct (m self) as [s [a | e']]; cbn [snd].
  - apply Hk.
  - now exists e'.
Qed.

Lemma integrate_running direction clock (self : Character) :
  ~ get_fps clock == 0 ->
  integrate direction clock self = (advanced direction clock self, Ok tt).
Proof.
  intro Hfps. apply Qeq_bool_false in Hfps.
  unfold integrate, py_div. monad_zred. rewrite Hfps. monad_zred.
  reflexivity.
Qed.

Lemma integrate_stalled direction clock (self : Character) :
  get_fps clock == 0 ->
  integrate direction clock self = (self, Raise ZeroDivisionError).
Proof.
  intro Hfps. apply Qeq_bool_iff in Hfps.
  unfold integrate, py_div. monad_zred. now rewrite Hfps.
Qed.

(** Walk down the first [n] binds of a method body. *)
Ltac down_binds lem n :=
  lazymatch n with
  | O => idtac
  | S ?k => apply lem; [| intros ? ?; down_binds lem k]
  end.

Lemma __move_raises direction clock tilemap (self : Character) e :
  ~ get_fps clock == 0 -> ~ SQUARE_SIZE == 0 ->
  snd (__move direction clock tilemap self) = Raise e -> e = IndexError.
Proof.
  intros Hfps Hsq. apply Qeq_bool_false in Hsq.
  unfold __move, py_div. rewrite Hsq. revert e.
  down_binds @bind_raises_only 7%nat;
    try (unfold get, lift; cbn [snd]; discriminate); intro e.
  - apply move_up_block_raises.
  - apply move_down_block_raises.
  - apply move_right_block_raises.
  - apply move_left_block_raises.
  - rewrite integrate_running by exact Hfps. discriminate.
Qed.

Lemma __move_stalled direction clock tilemap (self : Character) :
  get_fps clock == 0 ->
  exists e, snd (__move direction clock tilemap self) = Raise e.
Proof.
  intro Hfps. unfold __move.
  do 7 (apply bind_always_raises; intros ? ?).
  rewrite integrate_stalled by exact Hfps. now exists ZeroDivisionError.
Qed.

(** C10: in a frame whose pending event is a directional move, [update]
    divides the displacement by [clock.get_fps()] unguarded.  When the frame
    rate (and the tile size) is not zero the division cannot raise: [update]
    returns [True], unless a tile query fell outside the map before.  When
    the frame rate is zero the frame never completes: [update] raises. *)
Theorem frame_rate_division (d : Direction) clock tilemap
  (self : Character) :
  Animation_done (die_animation self) = false ->
  new_event self = Some (move_event d) ->
  (~ get_fps clock == 0 -> ~ SQUARE_SIZE == 0 ->
   snd (update clock tilemap self) = Ok true \/
   snd (update clock tilemap self) = Raise IndexError) /\
  (get_fps clock == 0 ->
   snd (update clock tilemap self) = Raise ZeroDivisionError \/
   snd (update clock tilemap self) = Raise IndexError).
Proof.
  intros Hlive Hnew. rewrite (update_move d) by assumption. split.
  - intros Hfps Hsq.
    pose proof (__move_raises (vector d) clock tilemap (begin_tick self))
      as Hr.
    unfold bind, ret.
    destruct (__move (vector d) clock tilemap (begin_tick self))
      as [s [u | e]]; cbn [snd] in *.
    + now left.
    + right. f_equal. now apply Hr.
  - intro Hfps.
    destruct (__move_stalled (vector d) clock tilemap (begin_tick self) Hfps)
      as [e He].
    unfold bind.
    destruct (__move (vector d) clock tilemap (begin_tick self))
      as [s [u | e']]; cbn [snd] in *; [discriminate |].
    destruct e'; [now right | now left].
Qed.

(** *** The blocks of [__move] one at a time *)

Lemma move_up_block_skip tilemap x x_tile direction (self : Character) :
  is_event (event self) MOVE_UP = false ->
  move_up_block tilemap x x_tile direction self = (self, Ok direction).
Proof. intro H. unfold move_up_block. monad_zred. now rewrite H. Qed.

Lemma move_down_block_skip tilemap x x_tile direction (self : Character) :
  is_event (event self) MOVE_DOWN = false ->
  move_down_block tilemap x x_tile direction self = (self, Ok direction).
Proof. intro H. unfold move_down_block. monad_zred. now rewrite H. Qed.

Lemma move_right_block_skip tilemap y y_tile direction (self : Character) :
  is_event (event self) MOVE_RIGHT = false ->
  move_right_block tilemap y y_tile direction self = (self, Ok direction).
Proof. intro H. unfold move_right_block. monad_zred. now rewrite H. Qed.

Lemma move_left_block_skip tilemap y y_tile direction (self : Character) :
  is_event (event self) MOVE_LEFT = false ->
  move_left_block tilemap y y_tile direction self = (self, Ok direction).
Proof. intro H. unfold move_left_block. monad_zred. now rewrite H. Qed.

(** When the block of the requested direction leaves that direction's own
    move or stop event, no other block acts, and [__move] is that block
    followed by the integration of the position. *)
Lemma __move_settled (d : Direction) clock tilemap
  (self s1 : Character) (direction : Z * Z) :
  ~ SQUARE_SIZE == 0 ->
  event self = Some (move_event d) ->
  resolve d tilemap self = (s1, Ok direction) ->
  event s1 = Some (move_event d) \/ event s1 = Some (stop_event d) ->
  __move (vector d) clock tilemap self = integrate direction clock s1.
Proof.
  intros Hsq Hev Hres Hset. apply Qeq_bool_false in Hsq.
  assert (Hskip : forall e,
             e <> move_event d -> e <> stop_event d ->
             is_event (event s1) e = false).
  { intros e N1 N2.
    destruct Hset as [-> | ->]; destruct d, e; cbn in *;
      try reflexivity; congruence. }
  unfold __move, py_div. rewrite Hsq.
  cbv beta iota zeta delta [bind get lift]. unfold resolve in Hres.
  destruct d; cbn [move_event stop_event] in *.
  - rewrite Hres.
    rewrite move_down_block_skip by (apply Hskip; discriminate).
    rewrite move_right_block_skip by (apply Hskip; discriminate).
    rewrite move_left_block_skip by (apply Hskip; discriminate).
    reflexivity.
  - rewrite move_up_block_skip by (rewrite Hev; reflexivity).
    rewrite Hres.
    rewrite move_right_block_skip by (apply Hskip; discriminate).
    rewrite move_left_block_skip by (apply Hskip; discriminate).
    reflexivity.
  - rewrite move_up_block_skip by (rewrite Hev; reflexivity).
    rewrite move_down_block_skip by (rewrite Hev; reflexivity).
    rewrite Hres.
    rewrite move_left_block_skip by (apply Hskip; discriminate).
    reflexivity.
  - rewrite move_up_block_skip by (rewrite Hev; reflexivity).
    rewrite move_down_block_skip by (rewrite Hev; reflexivity).
    rewrite move_right_block_skip by (rewrite Hev; reflexivity).
    rewrite Hres. reflexivity.
Qed.

Ltac open_block Hev :=
  unfold resolve, move_up_block, move_down_block, move_right_block,
    move_left_block, tile, probe, offset, cross, centerline, set_cross in *;
  cbn [fst snd move_event stop_event vector] in *;
  monad_zred; rewrite Hev; cbn [is_event CharacterEvents_eqb].

Ltac close_leaf :=
  first [ reflexivity
        | exfalso; congruence
        | exfalso; reflect_Q; lra ].

(** The straight path is open and the offset is inside the centring band:
    the cross coordinate is snapped and the direction is kept. *)
Lemma resolve_snap (d : Direction) tilemap (self : Character) (a : Z) :
  event self = Some (move_event d) ->
  tile d Ahead tilemap (pose self) = Ok a ->
  is_obstacle a = false ->
  SQUARE_SIZE * 0.45 < offset (cross d (pose self)) ->
  offset (cross d (pose self)) < SQUARE_SIZE * 0.55 ->
  resolve d tilemap self
  = (set_cross d (centerline (cross d (pose self))) self, Ok (vector d)).
Proof.
  intros Hev Ha Hopen Hlo Hhi.
  destruct d; open_block Hev; rewrite Ha; monad_zred; rewrite Hopen;
    cbn [negb]; repeat (branch; monad_zred); close_leaf.
Qed.

(** The straight path is blocked and the offset is in neither corner band:
    the move stops, whatever the diagonals hold. *)
Lemma resolve_stop (d : Direction) tilemap (self : Character) (a l u : Z) :
  event self = Some (move_event d) ->
  tile d Ahead tilemap (pose self) = Ok a ->
  tile d Lower tilemap (pose self) = Ok l ->
  tile d Upper tilemap (pose self) = Ok u ->
  is_obstacle a = true ->
  SQUARE_SIZE / 4 <= offset (cross d (pose self)) ->
  offset (cross d (pose self)) <= 3 * SQUARE_SIZE / 4 ->
  resolve d tilemap self
  = (set_event (Some (stop_event d)) self, Ok (0, 0)%Z).
Proof.
  intros Hev Ha Hl Hu Hblocked Hlo Hhi.
  destruct d; open_block Hev; rewrite Ha; monad_zred; rewrite Hblocked;
    cbn [negb]; rewrite Hl; monad_zred;
    repeat (branch; monad_zred); try close_leaf;
    rewrite Hu in *; monad_zred;
    repeat (branch; monad_zred); close_leaf.
Qed.

(** *** Tiles, offsets and centre lines *)

Lemma Qfloor_unique (z : Z) (q : Q) :
  inject_Z z <= q -> q < inject_Z z + 1 -> Qfloor q = z.
Proof.
  intros Hlo Hhi.
  pose proof (Qfloor_le q) as Fl. pose proof (Qlt_floor q) as Fh.
  rewrite inject_Z_plus in Fh. change (inject_Z 1) with 1 in Fh.
  assert (L1 : inject_Z (Qfloor q) < inject_Z (z + 1)).
  { rewrite inject_Z_plus. change (inject_Z 1) with 1. lra. }
  assert (L2 : inject_Z z < inject_Z (Qfloor q + 1)).
  { rewrite inject_Z_plus. change (inject_Z 1) with 1. lra. }
  rewrite <- Zlt_Qlt in L1, L2. lia.
Qed.

Lemma py_int_nonneg (q : Q) : 0 <= q -> py_int q = Qfloor q.
Proof.
  destruct q as [n dn]. unfold Qle, py_int, Qfloor. cbn.
  intro H. apply Z.quot_div_nonneg; lia.
Qed.

Lemma offset_fraction_spec (v : Q) :
  0 < SQUARE_SIZE -> offset v == offset_fraction v * SQUARE_SIZE.
Proof. intro H. unfold offset_fraction. field. lra. Qed.

Lemma offset_Qeq (a b : Q) : a == b -> offset a == offset b.
Proof.
  intro H. unfold offset, py_mod.
  assert (F : Qfloor (a / SQUARE_SIZE) = Qfloor (b / SQUARE_SIZE))
    by (now rewrite H).
  rewrite F, H. reflexivity.
Qed.

Lemma offset_fraction_Qeq (a b : Q) :
  a == b -> offset_fraction a == offset_fraction b.
Proof.
  intro H. unfold offset_fraction. now rewrite (offset_Qeq a b H).
Qed.

(** A coordinate of the form [(k + 1/2) * sq] sits at the middle of its
    tile. *)
Lemma offset_centerline (v : Q) :
  0 < SQUARE_SIZE -> offset (centerline v) == SQUARE_SIZE * 0.5.
Proof.
  intro Hsq. unfold offset, centerline, py_mod.
  set (k := py_int (v / SQUARE_SIZE)).
  assert (E : (inject_Z k + 0.5) * SQUARE_SIZE / SQUARE_SIZE
              == inject_Z k + 0.5) by (field; lra).
  rewrite (Qfloor_comp _ _ E). rewrite (Qfloor_unique k) by lra. ring.
Qed.

Lemma offset_fraction_centerline (v : Q) :
  0 < SQUARE_SIZE -> offset_fraction (centerline v) == 0.5.
Proof.
  intro Hsq. unfold offset_fraction. rewrite offset_centerline by exact Hsq.
  field. lra.
Qed.

(** On the map side of the origin a coordinate that is already at the
    middle of its tile is its own centre line. *)
Lemma centerline_fixed (v : Q) :
  0 < SQUARE_SIZE -> 0 <= v -> offset v == SQUARE_SIZE * 0.5 ->
  centerline v == v.
Proof.
  intros Hsq Hv Hoff. unfold centerline, offset, py_mod in *.
  rewrite py_int_nonneg.
  - lra.
  - apply Qle_shift_div_l; lra.
Qed.

Lemma still_step (s q f : Q) : inject_Z 0 * s * q / f == 0.
Proof. unfold Qdiv. change (inject_Z 0) with 0. ring. Qed.

(** *** A whole frame on the two settled paths *)

Lemma between_corner_bands (sq f o : Q) :
  0 < sq -> o == f * sq ->
  (0.25 < f <= 0.45) \/ (0.55 <= f < 0.75) ->
  sq / 4 <= o /\ o <= 3 * sq / 4.
Proof.
  intros Hsq Ho Hband.
  assert (E1 : sq / 4 == sq * 0.25) by field.
  assert (E2 : 3 * sq / 4 == sq * 0.75) by field.
  rewrite E1, E2. destruct Hband as [[H1 H2] | [H1 H2]]; split; nra.
Qed.

Lemma update_snap (d : Direction) clock tilemap (self : Character) (a : Z) :
  0 < SQUARE_SIZE -> ~ get_fps clock == 0 ->
  Animation_done (die_animation self) = false ->
  new_event self = Some (move_event d) ->
  tile d Ahead tilemap (pose self) = Ok a ->
  is_obstacle a = false ->
  SQUARE_SIZE * 0.45 < offset (cross d (pose self)) ->
  offset (cross d (pose self)) < SQUARE_SIZE * 0.55 ->
  update clock tilemap self
  = (advanced (vector d) clock
       (set_cross d (centerline (cross d (pose self))) (begin_tick self)),
     Ok true).
Proof.
  intros Hsq Hfps Hlive Hnew Ha Hopen Hlo Hhi.
  destruct (begin_tick_fields self) as (He & _ & _ & Hp & _).
  rewrite Hnew in He. rewrite <- Hp in Ha, Hlo, Hhi |- *.
  rewrite (update_move d) by assumption. unfold bind at 1.
  rewrite (__move_settled d clock tilemap (begin_tick self) _ _
             ltac:(lra) He
             (resolve_snap d tilemap _ a He Ha Hopen Hlo Hhi)).
  - rewrite integrate_running by exact Hfps. reflexivity.
  - left. destruct d; exact He.
Qed.

Lemma update_stop (d : Direction) clock tilemap (self : Character)
  (a l u : Z) :
  0 < SQUARE_SIZE -> ~ get_fps clock == 0 ->
  Animation_done (die_animation self) = false ->
  new_event self = Some (move_event d) ->
  tile d Ahead tilemap (pose self) = Ok a ->
  tile d Lower tilemap (pose self) = Ok l ->
  tile d Upper tilemap (pose self) = Ok u ->
  is_obstacle a = true ->
  SQUARE_SIZE / 4 <= offset (cross d (pose self)) ->
  offset (cross d (pose self)) <= 3 * SQUARE_SIZE / 4 ->
  update clock tilemap self
  = (advanced (0, 0)%Z clock
       (set_event (Some (stop_event d)) (begin_tick self)),
     Ok true).
Proof.
  intros Hsq Hfps Hlive Hnew Ha Hl Hu Hblocked Hlo Hhi.
  destruct (begin_tick_fields self) as (He & _ & _ & Hp & _).
  rewrite Hnew in He. rewrite <- Hp in Ha, Hl, Hu, Hlo, Hhi.
  rewrite (update_move d) by assumption. unfold bind at 1.
  rewrite (__move_settled d clock tilemap (begin_tick self) _ _
             ltac:(lra) He
             (resolve_stop d tilemap _ a l u He Ha Hl Hu Hblocked Hlo Hhi)).
  - rewrite integrate_running by exact Hfps. reflexivity.
  - right. reflexivity.
Qed.

(** C1: take a frame whose pending event is a move in direction [d], and
    let [f] in [0, 1) be the offset of the cross coordinate within its
    tile, as a fraction of the tile.  If the tile straight ahead is not an
    obstacle and [f] is strictly between 45% and 55%, the cross coordinate
    becomes the centre line of its tile exactly (the new offset is one
    half) and the move goes on: the event stays the requested move and the
    character advances by [speed * sq / fps] along it.  If the tile
    straight ahead is an obstacle and [f] is in (25%, 45%] or in
    [55%, 75%), the event becomes the stop event of the requested
    direction, whatever the diagonals hold, and the position does not
    change. *)
Theorem centring_and_stop_bands (d : Direction) clock tilemap
  (self : Character) (a : Z) :
  0 < SQUARE_SIZE -> ~ get_fps clock == 0 ->
  Animation_done (die_animation self) = false ->
  new_event self = Some (move_event d) ->
  tile d Ahead tilemap (pose self) = Ok a ->
  let f := offset_fraction (cross d (pose self)) in
  (0 <= f < 1) /\
  (is_obstacle a = false -> 0.45 < f < 0.55 ->
   exists self' : Character,
     update clock tilemap self = (self', Ok true) /\
     event self' = Some (move_event d) /\
     cross d (pose self') == centerline (cross d (pose self)) /\
     offset_fraction (cross d (pose self')) == 0.5 /\
     along d (pose self')
     == along d (pose self)
        + heading d * (speed self * SQUARE_SIZE / get_fps clock)) /\
  (is_obstacle a = true ->
   forall l u : Z,
     tile d Lower tilemap (pose self) = Ok l ->
     tile d Upper tilemap (pose self) = Ok u ->
     (0.25 < f <= 0.45) \/ (0.55 <= f < 0.75) ->
     exists self' : Character,
       update clock tilemap self = (self', Ok true) /\
       event self' = Some (stop_event d) /\
       pose_x (pose self') == pose_x (pose self) /\
       pose_y (pose self') == pose_y (pose self)).
Proof.
  intros Hsq Hfps Hlive Hnew Ha f.
  pose proof (offset_fraction_spec (cross d (pose self)) Hsq) as Hf.
  fold f in Hf.
  destruct (begin_tick_fields self) as (He & _ & _ & Hp & Hs & _).
  split; [apply offset_fraction_range; exact Hsq |]. split.
  - intros Hopen [Hlo Hhi].
    eexists. split.
    { eapply update_snap; try eassumption; nra. }
    assert (Hx : cross d (pose (advanced (vector d) clock
                   (set_cross d (centerline (cross d (pose self)))
                      (begin_tick self))))
                 == centerline (cross d (pose self))).
    { destruct d; cbn; rewrite still_step; ring. }
    split; [destruct d; cbn; rewrite He; exact Hnew |].
    split; [exact Hx |].
    split.
    { rewrite (offset_fraction_Qeq _ _ Hx).
      now apply offset_fraction_centerline. }
    destruct d; cbn; rewrite Hp, Hs; unfold Qdiv; ring.
  - intros Hblocked l u Hl Hu Hband.
    eexists. split.
    { destruct (between_corner_bands _ _ _ Hsq Hf Hband).
      eapply update_stop; eassumption. }
    split; [reflexivity |].
    cbn. rewrite !still_step, Hp. split; ring.
Qed.

(** C9: a live character whose pending event is [MOVE_UP], whose x offset
    within its tile is exactly half the tile size and whose tile straight
    above is not an obstacle, on the map's side of the origin ([x >= 0],
    where [int()] and the modulo agree on the tile), moves in one frame
    straight up by [speed * sq / fps]: y decreases by that much and x does
    not change. *)
Theorem centred_move_up clock tilemap (self : Character) (a : Z) :
  0 < SQUARE_SIZE -> ~ get_fps clock == 0 ->
  0 <= pose_x (pose self) ->
  Animation_done (die_animation self) = false ->
  new_event self = Some MOVE_UP ->
  offset_fraction (pose_x (pose self)) == 0.5 ->
  tile Up Ahead tilemap (pose self) = Ok a ->
  is_obstacle a = false ->
  exists self' : Character,
    update clock tilemap self = (self', Ok true) /\
    event self' = Some MOVE_UP /\
    pose_x (pose self') == pose_x (pose self) /\
    pose_y (pose self')
    == pose_y (pose self) - speed self * SQUARE_SIZE / get_fps clock.
Proof.
  intros Hsq Hfps Hx Hlive Hnew Hhalf Ha Hopen.
  pose proof (offset_fraction_spec (pose_x (pose self)) Hsq) as Hf.
  rewrite Hhalf in Hf.
  destruct (begin_tick_fields self) as (He & _ & _ & Hp & Hs & _).
  eexists. split.
  { eapply (update_snap Up); try eassumption; cbn [cross]; lra. }
  split; [cbn; rewrite He; exact Hnew |].
  cbn. rewrite still_step, Hp, Hs. split.
  - rewrite centerline_fixed; try assumption; lra.
  - unfold Qdiv. ring.
Qed.

(** *** Mirror images *)

Lemma quarter (q : Q) : q / 4 == q * 0.25.
Proof. field. Qed.

Lemma three_quarters (q : Q) : 3 * q / 4 == q * 0.75.
Proof. field. Qed.

Ltac use_facts :=
  repeat match goal with
    | H : tilemap_at _ _ _ = Ok _ |- _ => rewrite H
    | H : is_obstacle _ = _ |- _ => rewrite H
    end.

Ltac branch_if :=
  match goal with
  | |- context [if ?b then _ else _] =>
      lazymatch type of b with bool => destruct b eqn:? end
  end.

(** The block of direction [d] decides in mirrored ways in two situations
    that show it mirrored rows of tiles at offsets [m] and [sq - m]. *)
Lemma resolve_mirror (d : Direction) tilemap (self : Character)
  tilemap' (self' : Character) :
  0 < SQUARE_SIZE ->
  event self = Some (move_event d) ->
  event self' = Some (move_event d) ->
  mirrored_layout d tilemap (pose self) tilemap' (pose self') ->
  offset (cross d (pose self'))
  == SQUARE_SIZE - offset (cross d (pose self)) ->
  decision d tilemap' self' = mirror_decision d (decision d tilemap self).
Proof.
  intros Hsq Hev Hev' (a & l & u & a' & l' & u' &
                       Ha & Hl & Hu & Ha' & Hl' & Hu' & Oa & Ol & Ou) Hoff.
  pose proof (offset_bounds (cross d (pose self)) Hsq) as [B1 B2].
  pose proof (offset_bounds (cross d (pose self')) Hsq) as [B1' B2'].
  pose proof (quarter SQUARE_SIZE) as Q1.
  pose proof (three_quarters SQUARE_SIZE) as Q3.
  destruct (is_obstacle a) eqn:Ea, (is_obstacle l) eqn:El,
    (is_obstacle u) eqn:Eu;
    unfold decision;
    destruct d; open_block Hev; rewrite Hev';
    cbn [is_event CharacterEvents_eqb];
    repeat (use_facts; monad_zred; cbn [negb andb]; branch_if);
    use_facts; monad_zred; cbn [negb andb];
    cbn; rewrite ?Hev, ?Hev';
    try reflexivity; exfalso; reflect_Q; lra.
Qed.

(** *** Reversed maps *)

Lemma np_getitem_nth {A : Type} (a : list A) (i : Z) :
  (0 <= i < Z.of_nat (length a))%Z ->
  exists v, nth_error a (Z.to_nat i) = Some v /\ np_getitem a i = Ok v.
Proof.
  intro H. unfold np_getitem.
  destruct (Z.ltb_spec i 0) as [L | L]; [lia |].
  destruct (Z.ltb_spec i 0) as [L1 | L1]; [lia |].
  destruct (Z.leb_spec (Z.of_nat (length a)) i) as [L2 | L2]; [lia |].
  cbn [orb].
  destruct (nth_error a (Z.to_nat i)) as [v |] eqn:E.
  - now exists v.
  - apply nth_error_None in E. lia.
Qed.

Lemma np_getitem_rev {A : Type} (a : list A) (i : Z) :
  (0 <= i < Z.of_nat (length a))%Z ->
  np_getitem (rev a) i = np_getitem a (Z.of_nat (length a) - 1 - i).
Proof.
  intro H.
  destruct (np_getitem_nth (rev a) i) as (v & E & ->);
    [rewrite length_rev; lia |].
  destruct (np_getitem_nth a (Z.of_nat (length a) - 1 - i)) as (w & F & ->);
    [lia |].
  rewrite nth_error_rev in E.
  destruct (Nat.ltb_spec (Z.to_nat i) (length a)) as [L | L]; [| lia].
  replace (length a - S (Z.to_nat i))%nat
    with (Z.to_nat (Z.of_nat (length a) - 1 - i)) in E by lia.
  congruence.
Qed.

Lemma tilemap_at_rev_rows (tilemap : Tilemap) (r c : Z) :
  (0 <= r < rows tilemap)%Z ->
  tilemap_at (rev tilemap) r c = tilemap_at tilemap (rows tilemap - 1 - r) c.
Proof.
  intro H. unfold tilemap_at, rows in *. now rewrite np_getitem_rev.
Qed.

Lemma rectangular_row (tilemap : Tilemap) (r : Z) :
  rectangular tilemap -> (0 <= r < rows tilemap)%Z ->
  exists row, np_getitem tilemap r = Ok row /\
              Z.of_nat (length row) = columns tilemap /\
              np_getitem (map (@rev Z) tilemap) r = Ok (rev row).
Proof.
  intros Hrect H. unfold rows in H.
  destruct (np_getitem_nth tilemap r H) as (row & E & G).
  exists row. split; [exact G |]. split.
  - unfold columns. f_equal.
    apply (proj1 (Forall_forall _ _) Hrect). eapply nth_error_In, E.
  - destruct (np_getitem_nth (map (@rev Z) tilemap) r) as (row' & E' & ->);
      [rewrite length_map; lia |].
    rewrite nth_error_map, E in E'. cbn in E'. congruence.
Qed.

Lemma tilemap_at_rev_columns (tilemap : Tilemap) (r c : Z) :
  rectangular tilemap ->
  (0 <= r < rows tilemap)%Z -> (0 <= c < columns tilemap)%Z ->
  tilemap_at (map (@rev Z) tilemap) r c
  = tilemap_at tilemap r (columns tilemap - 1 - c).
Proof.
  intros Hrect Hr Hc.
  destruct (rectangular_row tilemap r Hrect Hr) as (row & E & Hlen & E').
  unfold tilemap_at. rewrite E, E'. rewrite <- Hlen in *.
  now apply np_getitem_rev.
Qed.

Lemma tilemap_at_inside (tilemap : Tilemap) (r c : Z) :
  rectangular tilemap ->
  (0 <= r < rows tilemap)%Z -> (0 <= c < columns tilemap)%Z ->
  exists v, tilemap_at tilemap r c = Ok v.
Proof.
  intros Hrect Hr Hc.
  destruct (rectangular_row tilemap r Hrect Hr) as (row & E & Hlen & _).
  unfold tilemap_at. rewrite E.
  destruct (np_getitem_nth row c) as (v & _ & ->); [lia |]. now exists v.
Qed.

(** *** Reflected coordinates *)

Lemma offset_floor (v : Q) :
  0 < SQUARE_SIZE ->
  v == inject_Z (Qfloor (v / SQUARE_SIZE)) * SQUARE_SIZE + offset v /\
  inject_Z (Qfloor (v / SQUARE_SIZE)) <= v / SQUARE_SIZE /\
  v / SQUARE_SIZE < inject_Z (Qfloor (v / SQUARE_SIZE)) + 1.
Proof.
  intro Hsq. split; [unfold offset, py_mod; ring |]. split.
  - apply Qfloor_le.
  - pose proof (Qlt_floor (v / SQUARE_SIZE)) as H.
    rewrite inject_Z_plus in H. exact H.
Qed.

Lemma inject_Z_sub (a b : Z) : inject_Z (a - b) == inject_Z a - inject_Z b.
Proof.
  unfold Z.sub. rewrite inject_Z_plus, inject_Z_opp. ring.
Qed.

Lemma mirrored_floor (n : Z) (v : Q) :
  0 < SQUARE_SIZE -> 0 < offset v ->
  Qfloor ((inject_Z n * SQUARE_SIZE - v) / SQUARE_SIZE)
  = (n - 1 - Qfloor (v / SQUARE_SIZE))%Z.
Proof.
  intros Hsq Hoff.
  destruct (offset_floor v Hsq) as (Hv & Hlo & Hhi).
  set (k := Qfloor (v / SQUARE_SIZE)) in *.
  assert (Hq : v / SQUARE_SIZE * SQUARE_SIZE == v) by (field; lra).
  assert (E : (inject_Z n * SQUARE_SIZE - v) / SQUARE_SIZE
              == inject_Z n - v / SQUARE_SIZE) by (field; lra).
  rewrite (Qfloor_comp _ _ E).
  apply Qfloor_unique; rewrite !inject_Z_sub;
    change (inject_Z 1) with 1; set (q := v / SQUARE_SIZE) in *; nra.
Qed.

Lemma mirrored_offset (n : Z) (v : Q) :
  0 < SQUARE_SIZE -> 0 < offset v ->
  offset (inject_Z n * SQUARE_SIZE - v) == SQUARE_SIZE - offset v.
Proof.
  intros Hsq Hoff. unfold offset at 1. unfold py_mod.
  rewrite mirrored_floor by assumption.
  destruct (offset_floor v Hsq) as (Hv & _).
  rewrite !inject_Z_sub. change (inject_Z 1) with 1.
  set (k := inject_Z (Qfloor (v / SQUARE_SIZE))) in *. lra.
Qed.

Lemma mirrored_index (n : Z) (v : Q) :
  0 < SQUARE_SIZE -> 0 <= v -> 0 < offset v ->
  (py_int (v / SQUARE_SIZE) <= n - 1)%Z ->
  py_int ((inject_Z n * SQUARE_SIZE - v) / SQUARE_SIZE)
  = (n - 1 - py_int (v / SQUARE_SIZE))%Z.
Proof.
  intros Hsq Hv Hoff Hk.
  assert (Hq : 0 <= v / SQUARE_SIZE) by (apply Qle_shift_div_l; lra).
  rewrite (py_int_nonneg _ Hq) in *.
  destruct (offset_floor v Hsq) as (Ev & Hlo & Hhi).
  rewrite py_int_nonneg; [now apply mirrored_floor |].
  apply Qle_shift_div_l; [exact Hsq |].
  rewrite Zle_Qle, inject_Z_sub in Hk.
  change (inject_Z 1) with 1 in Hk.
  set (k := inject_Z (Qfloor (v / SQUARE_SIZE))) in *.
  assert (E : v == v / SQUARE_SIZE * SQUARE_SIZE) by (field; lra).
  set (q := v / SQUARE_SIZE) in *. nra.
Qed.

(** *** The reflection of a situation shows the mirrored row of tiles *)

Lemma reflection_mirrors_layout (d : Direction) tilemap (p : Pose) :
  0 < SQUARE_SIZE -> rectangular tilemap -> inside d tilemap p ->
  0 < offset (cross d p) ->
  mirrored_layout d tilemap p (mirror_tilemap d tilemap)
    (mirror_pose d tilemap p) /\
  offset (cross d (mirror_pose d tilemap p))
  == SQUARE_SIZE - offset (cross d p).
Proof.
  intros Hsq Hrect (Hpos & Hk & Hin) Hoff.
  split.
  2: { destruct d; cbn [cross mirror_pose pose_x pose_y];
       now apply mirrored_offset. }
  unfold mirrored_layout, tile.
  assert (Hidx : py_int ((extent d tilemap - cross d p) / SQUARE_SIZE)
                 = (cross_tiles d tilemap - 1
                    - py_int (cross d p / SQUARE_SIZE))%Z).
  { apply mirrored_index; try assumption. lia. }
  destruct d; cbn [cross cross_tiles mirror_tilemap mirror_pose] in *;
    unfold probe in *; cbn [fst snd pose_x pose_y] in *; rewrite Hidx;
    match goal with
    | Hin : (0 <= ?r < rows _)%Z |- _ =>
        set (row := r) in *;
        set (k := py_int (pose_x p / SQUARE_SIZE)) in *;
        destruct (tilemap_at_inside tilemap row k Hrect) as [a Ha];
          [lia | lia |];
        destruct (tilemap_at_inside tilemap row (k - 1) Hrect) as [l Hl];
          [lia | lia |];
        destruct (tilemap_at_inside tilemap row (k + 1) Hrect) as [u Hu];
          [lia | lia |];
        exists a, l, u, a, u, l;
        repeat split; try assumption;
        rewrite tilemap_at_rev_columns by (try exact Hrect; lia);
        match goal with
        | |- tilemap_at _ _ ?c = _ =>
            first [ replace c with k by lia
                  | replace c with (k - 1)%Z by lia
                  | replace c with (k + 1)%Z by lia ]
        end; assumption
    | Hin : (0 <= ?c < columns _)%Z |- _ =>
        set (col := c) in *;
        set (k := py_int (pose_y p / SQUARE_SIZE)) in *;
        destruct (tilemap_at_inside tilemap k col Hrect) as [a Ha];
          [lia | lia |];
        destruct (tilemap_at_inside tilemap (k - 1) col Hrect) as [l Hl];
          [lia | lia |];
        destruct (tilemap_at_inside tilemap (k + 1) col Hrect) as [u Hu];
          [lia | lia |];
        exists a, l, u, a, u, l;
        repeat split; try assumption;
        rewrite tilemap_at_rev_rows by lia;
        match goal with
        | |- tilemap_at _ ?r _ = _ =>
            first [ replace r with k by lia
                  | replace r with (k - 1)%Z by lia
                  | replace r with (k + 1)%Z by lia ]
        end; assumption
    end.
Qed.

(** C2, as amended: for a character that is not exactly on a tile boundary
    (offset [f] with [0 < f < 1]), reflecting the situation across the axis
    of the requested move (the row of tiles the move faces is reversed, the
    offset becomes [1 - f]) reflects what the block of that move decides: a
    redirect towards one side becomes the redirect towards the other side,
    and going straight or stopping stays what it was; in each of the four
    directions. *)
Theorem corner_assist_mirror (d : Direction) tilemap (self : Character) :
  0 < SQUARE_SIZE ->
  event self = Some (move_event d) ->
  rectangular tilemap -> inside d tilemap (pose self) ->
  0 < offset_fraction (cross d (pose self)) ->
  offset_fraction (cross d (pose (mirror_character d tilemap self)))
  == 1 - offset_fraction (cross d (pose self)) /\
  decision d (mirror_tilemap d tilemap) (mirror_character d tilemap self)
  = mirror_decision d (decision d tilemap self).
Proof.
  intros Hsq Hev Hrect Hin Hf.
  assert (Hoff : 0 < offset (cross d (pose self))).
  { rewrite (offset_fraction_spec _ Hsq). nra. }
  destruct (reflection_mirrors_layout d tilemap (pose self)
              Hsq Hrect Hin Hoff) as [Hlay Hm].
  split.
  - unfold offset_fraction, mirror_character. cbn [pose set_pose].
    rewrite Hm. field. lra.
  - apply resolve_mirror; try assumption.
Qed.

(** *** Special events *)






(** *** Frames that do not move *)

Lemma begin_tick_counters (self : Character) :
  placed_bombs (begin_tick self) = placed_bombs self /\
  total_bombs (begin_tick self) = total_bombs self /\
  fire (begin_tick self) = fire self.
Proof.
  unfold begin_tick. cbn.
  destruct (got_special_event self); cbn; repeat split.
Qed.

Lemma update_still clock tilemap (self : Character) :
  Animation_done (die_animation self) = false ->
  is_move (new_event self) = false ->
  (forall e, new_event self = Some e -> is_powerup e = false) ->
  update clock tilemap self = (begin_tick self, Ok true).
Proof.
  intros Hlive Hmove Hpow.
  destruct (begin_tick_fields self) as (_ & Hn & _).
  unfold update. monad_zred. rewrite Hlive.
  fold (begin_tick self). rewrite Hn.
  destruct (new_event self) as [e |]; [| reflexivity].
  specialize (Hpow e eq_refl).
  destruct e; try discriminate; reflexivity.
Qed.

Lemma update_bomb clock tilemap (self : Character) :
  Animation_done (die_animation self) = false ->
  new_event self = Some INCREASE_BOMB ->
  update clock tilemap self
  = (set_new_event None
       (set_total_bombs (total_bombs (begin_tick self) + 1)
          (begin_tick self)),
     Ok true).
Proof.
  intros Hlive Hnew.
  destruct (begin_tick_fields self) as (_ & Hn & _).
  unfold update. monad_zred. rewrite Hlive.
  fold (begin_tick self). rewrite Hn, Hnew. reflexivity.
Qed.

Lemma update_fire clock tilemap (self : Character) :
  Animation_done (die_animation self) = false ->
  new_event self = Some INCREASE_FIRE ->
  update clock tilemap self
  = (set_new_event None
       (set_fire (fire (begin_tick self) + FIRE_INCREMENT)
          (begin_tick self)),
     Ok true).
Proof.
  intros Hlive Hnew.
  destruct (begin_tick_fields self) as (_ & Hn & _).
  unfold update. monad_zred. rewrite Hlive.
  fold (begin_tick self). rewrite Hn, Hnew. reflexivity.
Qed.

Lemma update_speed_up clock tilemap (self : Character) :
  Animation_done (die_animation self) = false ->
  new_event self = Some INCREASE_SPEED ->
  let s1 := set_speed (speed (begin_tick self) + SPEED_INCREMENT)
              (begin_tick self) in
  let s2 := if Qltb MAX_SPEED (speed s1) then set_speed MAX_SPEED s1
            else s1 in
  update clock tilemap self
  = if Qeq_bool MAX_SPEED 0 then (s2, Raise ZeroDivisionError)
    else (set_new_event None s2, Ok true).
Proof.
  intros Hlive Hnew.
  destruct (begin_tick_fields self) as (_ & Hn & _).
  cbv zeta. unfold update, py_div. monad_zred. rewrite Hlive.
  fold (begin_tick self). rewrite Hn, Hnew.
  cbn [is_event CharacterEvents_eqb]. monad_zred.
  destruct (Qeq_bool MAX_SPEED 0); reflexivity.
Qed.

(** Every shape a frame can take, by the pending event. *)
Lemma update_shape clock tilemap (self : Character) :
  Animation_done (die_animation self) = true \/
  (exists d, new_event self = Some (move_event d)) \/
  new_event self = Some INCREASE_SPEED \/
  new_event self = Some INCREASE_BOMB \/
  new_event self = Some INCREASE_FIRE \/
  (Animation_done (die_animation self) = false /\
   update clock tilemap self = (begin_tick self, Ok true)).
Proof.
  destruct (Animation_done (die_animation self)) eqn:Hlive; [now left |].
  right.
  destruct (new_event self) as [e |] eqn:Hnew.
  - destruct e;
      first
        [ left; (now exists Up) || (now exists Down)
                || (now exists Left) || (now exists Right)
        | right; left; reflexivity
        | right; right; left; reflexivity
        | right; right; right; left; reflexivity
        | right; right; right; right; split; [reflexivity |];
          apply update_still;
          [ exact Hlive | rewrite Hnew; reflexivity
          | intros e E; rewrite Hnew in E; injection E as <-;
            reflexivity ] ].
  - right; right; right; right. split; [reflexivity |].
    apply update_still; [exact Hlive | now rewrite Hnew |].
    rewrite Hnew. discriminate.
Qed.

(** What a frame does to the bomb counters and the velocity. *)
Lemma update_counters clock tilemap (self : Character) :
  let self' := fst (update clock tilemap self) in
  placed_bombs self' = placed_bombs self /\
  velocity self' = velocity self /\
  (total_bombs self' = total_bombs self \/
   total_bombs self' = (total_bombs self + 1)%Z).
Proof.
  cbv zeta.
  destruct (begin_tick_fields self) as (_ & _ & _ & _ & _ & Hv & _).
  destruct (begin_tick_counters self) as (Hp & Ht & _).
  destruct (update_shape clock tilemap self)
    as [Hd | [[d Hm] | [Hs | [Hb | [Hf | [Hlive E]]]]]].
  - rewrite update_dead by exact Hd. cbn. auto.
  - destruct (Animation_done (die_animation self)) eqn:Hlive.
    + rewrite update_dead by exact Hlive. cbn. auto.
    + rewrite (update_move d) by assumption. rewrite fst_bind_ret.
      destruct (__move_keeps (vector d) clock tilemap (begin_tick self))
        as (_ & Ev & Ep & Et & _).
      rewrite Ev, Ep, Et, Hv, Hp, Ht. auto.
  - destruct (Animation_done (die_animation self)) eqn:Hlive.
    + rewrite update_dead by exact Hlive. cbn. auto.
    + pose proof (update_speed_up clock tilemap self Hlive Hs) as E.
      cbv zeta in E. rewrite E.
      destruct (Qeq_bool MAX_SPEED 0); destruct (Qltb _ _); cbn;
        rewrite Hv, Hp, Ht; auto.
  - destruct (Animation_done (die_animation self)) eqn:Hlive.
    + rewrite update_dead by exact Hlive. cbn. auto.
    + rewrite update_bomb by assumption. cbn. rewrite Hv, Hp, Ht. auto.
  - destruct (Animation_done (die_animation self)) eqn:Hlive.
    + rewrite update_dead by exact Hlive. cbn. auto.
    + rewrite update_fire by assumption. cbn. rewrite Hv, Hp, Ht. auto.
  - rewrite E. cbn. rewrite Hv, Hp, Ht. auto.
Qed.

Lemma draw_only_clip (self : Character) :
  exists a, draw self = (set_die_animation a self, Ok tt) /\
            (is_event (event self) DIE = false -> a = die_animation self) /\
            (is_event (event self) DIE = true ->
             a = Animation_update (die_animation self)).
Proof.
  unfold draw. monad_zred.
  destruct (is_event (event self) DIE).
  - eexists. split; [reflexivity |]. split; [discriminate | reflexivity].
  - exists (die_animation self). split.
    + destruct self; reflexivity.
    + split; [reflexivity | discriminate].
Qed.

Lemma call_counters (c : Call) (self : Character) :
  (placed_bombs self <= total_bombs self)%Z ->
  (placed_bombs (fst (call c self)) <= total_bombs (fst (call c self)))%Z.
Proof.
  intro H.
  destruct c as [clock tilemap | key | key | | | e]; cbn [call].
  - pose proof (update_counters clock tilemap self) as U. cbv zeta in U.
    unfold bind.
    destruct (update clock tilemap self) as [s [[|] | e]]; cbn [fst] in *.
    + destruct (draw_only_clip s) as (a & -> & _). cbn. lia.
    + cbn. lia.
    + lia.
  - unfold key_up. monad_zred.
    destruct (negb _); [| exact H].
    destruct key; monad_zred; repeat (branch_if; monad_zred); cbn; exact H.
  - unfold key_down. monad_zred.
    destruct (negb _); [| exact H].
    destruct key; monad_zred; repeat (branch_if; monad_zred); cbn; exact H.
  - unfold place_bomb. monad_zred.
    destruct (Z.ltb_spec (placed_bombs self) (total_bombs self));
      monad_zred; cbn; lia.
  - unfold bomb_exploded. monad_zred. cbn. lia.
  - unfold special_event. monad_zred. cbn. exact H.
Qed.

(** X1: the character never has more bombs placed than its capacity: every
    call keeps [placed_bombs <= total_bombs], and so does every run of
    calls; a freshly constructed character starts within it. *)
Theorem bombs_within_capacity :
  (forall (c : Call) (self : Character),
     (placed_bombs self <= total_bombs self)%Z ->
     (placed_bombs (fst (call c self))
      <= total_bombs (fst (call c self)))%Z) /\
  (forall (calls : list Call) (self : Character),
     (placed_bombs self <= total_bombs self)%Z ->
     (placed_bombs (run calls self) <= total_bombs (run calls self))%Z) /\
  (forall initial_pose die_clip (calls : list Call),
     (placed_bombs (run calls (init initial_pose die_clip))
      <= total_bombs (run calls (init initial_pose die_clip)))%Z).
Proof.
  assert (Hrun : forall (calls : list Call) (self : Character),
             (placed_bombs self <= total_bombs self)%Z ->
             (placed_bombs (run calls self)
              <= total_bombs (run calls self))%Z).
  { induction calls as [| c calls IH]; intros self H; [exact H |].
    cbn [run]. pose proof (call_counters c self H) as Hc.
    destruct (call c self) as [s [u | e]]; cbn [fst] in Hc; auto. }
  split; [exact call_counters |]. split; [exact Hrun |].
  intros initial_pose die_clip calls. apply Hrun. cbn. lia.
Qed.

(** *** The velocity under key edges *)

Lemma wrap64_range (z : Z) : int64 (wrap64 z).
Proof.
  unfold int64, wrap64.
  pose proof (Z.mod_pos_bound (z + 2 ^ 63) (2 ^ 64) ltac:(lia)). lia.
Qed.

Lemma wrap64_id (z : Z) : int64 z -> wrap64 z = z.
Proof.
  unfold int64, wrap64. intro H. rewrite Z.mod_small; lia.
Qed.

Lemma wrap64_add (a b : Z) : wrap64 (wrap64 a + b) = wrap64 (a + b).
Proof.
  unfold wrap64. f_equal.
  replace ((a + 2 ^ 63) mod 2 ^ 64 - 2 ^ 63 + b + 2 ^ 63)%Z
    with ((a + 2 ^ 63) mod 2 ^ 64 + b)%Z by lia.
  rewrite Zplus_mod_idemp_l. f_equal. lia.
Qed.

Lemma key_edge_velocity (c : Call) (self : Character) :
  is_key_edge c = true ->
  new_event self <> Some WIN -> new_event self <> Some DIE ->
  int64 (fst (velocity self)) -> int64 (snd (velocity self)) ->
  let self' := fst (call c self) in
  snd (call c self) = Ok tt /\
  velocity self'
  = (wrap64 (fst (velocity self) + fst (edge_delta c)),
     wrap64 (snd (velocity self) + snd (edge_delta c))) /\
  new_event self' <> Some WIN /\ new_event self' <> Some DIE.
Proof.
  intros Hc Hw Hd Hx Hy.
  assert (G : is_event (new_event self) WIN || is_event (new_event self) DIE
              = false).
  { destruct (new_event self) as [[] |]; try reflexivity; congruence. }
  assert (Ex : wrap64 (fst (velocity self) + 0) = fst (velocity self))
    by (rewrite Z.add_0_r; now apply wrap64_id).
  assert (Ey : wrap64 (snd (velocity self) + 0) = snd (velocity self))
    by (rewrite Z.add_0_r; now apply wrap64_id).
  cbv zeta.
  destruct c as [| key | key | | |]; try discriminate Hc;
    cbn [call]; unfold key_up, key_down; monad_zred; rewrite G; cbn [negb];
    destruct key; monad_zred; unfold add_velocity;
    cbn [edge_delta fst snd velocity set_velocity set_new_event
         got_special_event new_event];
    repeat (branch_if; monad_zred);
    cbn [edge_delta fst snd velocity set_velocity set_new_event
         got_special_event new_event];
    rewrite ?Ex, ?Ey;
    (split; [reflexivity |]);
    (split; [try reflexivity; now destruct (velocity self) |]);
    split; first [assumption | discriminate].
Qed.

(** X2: the velocity is the sum of the key edges.  While neither [WIN] nor
    [DIE] is pending, after any sequence of key edges each component of the
    velocity is what it was plus what the edges added (an arrow key adds its
    unit on the way down and takes it back on the way up, another key adds
    nothing), within the 64-bit cell; so edges that cancel out restore the
    velocity, and a key pressed and released leaves it as it was. *)
Theorem velocity_accumulates (calls : list Call) (self : Character) :
  forallb is_key_edge calls = true ->
  new_event self <> Some WIN -> new_event self <> Some DIE ->
  int64 (fst (velocity self)) -> int64 (snd (velocity self)) ->
  velocity (run calls self)
  = (wrap64 (fst (velocity self) + fst (net_delta calls)),
     wrap64 (snd (velocity self) + snd (net_delta calls))) /\
  (net_delta calls = (0, 0)%Z ->
   velocity (run calls self) = velocity self) /\
  (forall key,
     velocity (run [KeyDown key; KeyUp key] (run calls self))
     = velocity (run calls self)).
Proof.
  intros Hc Hw Hd Hx Hy.
  assert (Hgen : forall (calls : list Call) (self : Character),
             forallb is_key_edge calls = true ->
             new_event self <> Some WIN -> new_event self <> Some DIE ->
             int64 (fst (velocity self)) -> int64 (snd (velocity self)) ->
             velocity (run calls self)
             = (wrap64 (fst (velocity self) + fst (net_delta calls)),
                wrap64 (snd (velocity self) + snd (net_delta calls))) /\
             new_event (run calls self) <> Some WIN /\
             new_event (run calls self) <> Some DIE).
  { clear. induction calls as [| c calls IH]; intros self Hc Hw Hd Hx Hy.
    - cbn. rewrite !Z.add_0_r, !wrap64_id by assumption.
      split; [now destruct (velocity self) | now split].
    - cbn [forallb] in Hc. apply andb_true_iff in Hc as [Hc Hcs].
      destruct (key_edge_velocity c self Hc Hw Hd Hx Hy)
        as (Hok & Hv & Hw' & Hd').
      cbn [run net_delta fst snd].
      destruct (call c self) as [s r]; cbn [fst snd] in *. subst r.
      destruct (IH s Hcs Hw' Hd') as (Ev & Ew & Ed);
        try (rewrite Hv; cbn [fst snd]; apply wrap64_range).
      split; [| now split].
      rewrite Ev, Hv. cbn [fst snd]. rewrite !wrap64_add.
      f_equal; f_equal; lia. }
  destruct (Hgen calls self Hc Hw Hd Hx Hy) as (Ev & Ew & Ed).
  split; [exact Ev |]. split.
  - intro H0. rewrite Ev, H0. cbn [fst snd].
    rewrite !Z.add_0_r, !wrap64_id by assumption.
    now destruct (velocity self).
  - intro key.
    assert (Rx : int64 (fst (velocity (run calls self))))
      by (rewrite Ev; apply wrap64_range).
    assert (Ry : int64 (snd (velocity (run calls self))))
      by (rewrite Ev; apply wrap64_range).
    destruct (Hgen [KeyDown key; KeyUp key] (run calls self) eq_refl
                Ew Ed Rx Ry) as (E2 & _).
    rewrite E2.
    assert (N : net_delta [KeyDown key; KeyUp key] = (0, 0)%Z)
      by (destruct key; reflexivity).
    rewrite N. cbn [fst snd]. rewrite !Z.add_0_r, !wrap64_id by assumption.
    now destruct (velocity (run calls self)).
Qed.

(** X3: releasing an arrow key while neither [WIN] nor [DIE] is pending
    leaves the stop event of that key as the pending event, unless the
    one-shot flag is clear and the velocity left by the release still has a
    unit component; whatever was pending before, a power-up included, is
    replaced. *)
Theorem key_up_faces_released_key (key : Key) (e : CharacterEvents)
  (self : Character) :
  released key = Some e ->
  new_event self <> Some WIN -> new_event self <> Some DIE ->
  got_special_event self = true \/
  at_rest (velocity (fst (key_up key self))) ->
  new_event (fst (key_up key self)) = Some e.
Proof.
  intros Hk Hw Hd Hrest.
  assert (G : is_event (new_event self) WIN || is_event (new_event self) DIE
              = false).
  { destruct (new_event self) as [[] |]; try reflexivity; congruence. }
  revert Hrest. unfold at_rest, key_up. monad_zred. rewrite G. cbn [negb].
  destruct key; try discriminate Hk; injection Hk as <-; monad_zred;
    cbn [got_special_event set_new_event velocity new_event];
    destruct (got_special_event (add_velocity _ self)) eqn:Hflag;
    cbn [negb]; monad_zred;
    repeat (branch_if; monad_zred);
    cbn [got_special_event set_new_event velocity new_event fst snd];
    intros [Hf | (H1 & H2 & H3 & H4)];
    repeat match goal with
      | H : (_ =? _)%Z = true |- _ => apply Z.eqb_eq in H
      end;
    try reflexivity; try contradiction;
    unfold add_velocity in *; cbn in *; congruence.
Qed.

(** X4: an edge of a key that is not an arrow key never touches the
    velocity, the pose or any counter: only the pending event can change.
    While [WIN] or [DIE] is pending, or the one-shot flag is set, the edge
    changes nothing at all.  Otherwise the pending event is derived again
    from the velocity, in the priority order: it becomes the move that the
    velocity asks for, and stays what it was only when no component of the
    velocity is a unit. *)
Theorem other_keys_change_pending_only (c : Call) (code : Z)
  (self : Character) :
  c = KeyUp (K_OTHER code) \/ c = KeyDown (K_OTHER code) ->
  exists pending,
    call c self = (set_new_event pending self, Ok tt) /\
    (new_event self = Some WIN \/ new_event self = Some DIE \/
     got_special_event self = true \/ at_rest (velocity self) ->
     pending = new_event self) /\
    (new_event self <> Some WIN -> new_event self <> Some DIE ->
     got_special_event self = false ->
     pending = priority_order (velocity self) (new_event self) /\
     reads_velocity (set_new_event pending self)).
Proof.
  intros Hc.
  assert (Hself : set_new_event (new_event self) self = self)
    by (destruct self; reflexivity).
  destruct (is_event (new_event self) WIN || is_event (new_event self) DIE)
    eqn:G.
  { exists (new_event self). rewrite Hself.
    split; [| split; [reflexivity |]].
    - destruct Hc as [-> | ->]; cbn [call]; unfold key_up, key_down;
        monad_zred; rewrite G; reflexivity.
    - intros Hw Hd. exfalso.
      destruct (new_event self) as [[] |]; try discriminate G; congruence. }
  assert (Hw : new_event self <> Some WIN)
    by (intro E; rewrite E in G; discriminate).
  assert (Hd : new_event self <> Some DIE)
    by (intro E; rewrite E in G; discriminate).
  destruct (got_special_event self) eqn:Hflag.
  { exists (new_event self). rewrite Hself.
    split; [| split; [reflexivity | discriminate]].
    destruct Hc as [-> | ->]; cbn [call]; unfold key_up, key_down;
      monad_zred; rewrite G; cbn [negb]; monad_zred; rewrite Hflag;
      reflexivity. }
  exists (priority_order (velocity self) (new_event self)).
  unfold priority_order, at_rest, reads_velocity.
  cbn [velocity set_new_event new_event].
  split; [| split].
  - destruct Hc as [-> | ->]; cbn [call]; unfold key_up, key_down;
      monad_zred; rewrite G; cbn [negb]; monad_zred; rewrite Hflag;
      cbn [negb]; repeat (branch_if; monad_zred);
      first [reflexivity | f_equal; symmetry; exact Hself].
  - intros [E | [E | [E | (H1 & H2 & H3 & H4)]]]; try congruence.
    apply Z.eqb_neq in H1, H2, H3, H4. now rewrite H3, H4, H1, H2.
  - intros _ _ _. split; [reflexivity |].
    destruct (snd (velocity self) =? 1)%Z eqn:E1;
      [| destruct (snd (velocity self) =? -1)%Z eqn:E2;
         [| destruct (fst (velocity self) =? 1)%Z eqn:E3;
            [| destruct (fst (velocity self) =? -1)%Z eqn:E4]]];
      repeat match goal with
        | H : (_ =? _)%Z = true |- _ => apply Z.eqb_eq in H
        | H : (_ =? _)%Z = false |- _ => apply Z.eqb_neq in H
        end;
      repeat split; intros; try reflexivity; exfalso; lia.
Qed.

(** *** Frames without a move, and power-ups *)

(** X5: unless the pending event is one of the four moves, [update] reads
    neither the clock nor the tile map, leaves the pose where it is and
    never fails on a tile query. *)
Theorem only_moves_read_the_map (self : Character) :
  is_move (new_event self) = false ->
  forall clock tilemap,
    (forall clock' tilemap',
       update clock' tilemap' self = update clock tilemap self) /\
    pose (fst (update clock tilemap self)) = pose self /\
    snd (update clock tilemap self) <> Raise IndexError.
Proof.
  intros Hmove clock tilemap.
  destruct (begin_tick_fields self) as (_ & _ & _ & Hp & _).
  destruct (update_shape clock tilemap self)
    as [Hd | [[d Hm] | [Hs | [Hb | [Hf | [Hlive E]]]]]].
  - split; [intros; now rewrite !update_dead |].
    rewrite update_dead by exact Hd. now split.
  - rewrite Hm in Hmove. destruct d; discriminate.
  - destruct (Animation_done (die_animation self)) eqn:Hlive.
    + split; [intros; now rewrite !update_dead |].
      rewrite update_dead by exact Hlive. now split.
    + pose proof (fun c t => update_speed_up c t self Hlive Hs) as E.
      cbv zeta in E. split; [intros; now rewrite !E |]. rewrite E.
      destruct (Qeq_bool MAX_SPEED 0); destruct (Qltb _ _); cbn;
        rewrite Hp; now split.
  - destruct (Animation_done (die_animation self)) eqn:Hlive.
    + split; [intros; now rewrite !update_dead |].
      rewrite update_dead by exact Hlive. now split.
    + split; [intros; now rewrite !update_bomb |].
      rewrite update_bomb by assumption. cbn. rewrite Hp. now split.
  - destruct (Animation_done (die_animation self)) eqn:Hlive.
    + split; [intros; now rewrite !update_dead |].
      rewrite update_dead by exact Hlive. now split.
    + split; [intros; now rewrite !update_fire |].
      rewrite update_fire by assumption. cbn. rewrite Hp. now split.
  - split.
    + intros clock' tilemap'. rewrite E.
      destruct (update_shape clock' tilemap' self)
        as [Hd | [[d Hm] | [Hs | [Hb | [Hf | [_ E']]]]]];
        try congruence.
      * rewrite Hm in Hmove. destruct d; discriminate.
      * pose proof (update_speed_up clock tilemap self Hlive Hs) as F.
        cbv zeta in F. rewrite E in F.
        rewrite (update_speed_up clock' tilemap' self Hlive Hs).
        cbv zeta. now rewrite F.
      * rewrite update_bomb in E by assumption.
        now rewrite update_bomb by assumption.
      * rewrite update_fire in E by assumption.
        now rewrite update_fire by assumption.
    + rewrite E. cbn. rewrite Hp. now split.
Qed.

(** One pick-up of a power-up followed by a frame, on a live character. *)
Lemma pick_up_frame (e : CharacterEvents) clock tilemap (self : Character) :
  is_powerup e = true ->
  (e = INCREASE_SPEED -> ~ MAX_SPEED == 0) ->
  Animation_done (die_animation self) = false ->
  exists s : Character,
    run [SpecialEvent e; Tick clock tilemap] self = s /\
    (forall calls,
       run (SpecialEvent e :: Tick clock tilemap :: calls) self
       = run calls s) /\
    die_animation s = die_animation self /\ pose s = pose self /\
    placed_bombs s = placed_bombs self /\ velocity s = velocity self /\
    new_event s = None /\ got_special_event s = false /\
    total_bombs s = (if CharacterEvents_eqb e INCREASE_BOMB
                     then total_bombs self + 1 else total_bombs self)%Z /\
    fire s = (if CharacterEvents_eqb e INCREASE_FIRE
              then fire self + FIRE_INCREMENT else fire self) /\
    speed s = if CharacterEvents_eqb e INCREASE_SPEED
              then if Qltb MAX_SPEED (speed self + SPEED_INCREMENT)
                   then MAX_SPEED else speed self + SPEED_INCREMENT
              else speed self.
Proof.
  intros Hp Hmax Hlive.
  set (s1 := set_got_special_event true (set_new_event (Some e) self)).
  assert (Hrun : forall calls,
             run (SpecialEvent e :: Tick clock tilemap :: calls) self
             = match call (Tick clock tilemap) s1 with
               | (s, Ok _) => run calls s
               | (s, Raise _) => s
               end) by reflexivity.
  assert (Hflag : got_special_event s1 = true) by reflexivity.
  assert (Hpend : new_event s1 = Some e) by reflexivity.
  assert (Hl1 : Animation_done (die_animation s1) = false) by exact Hlive.
  assert (Hb : begin_tick s1
               = set_got_special_event false (set_event (Some e) s1))
    by reflexivity.
  assert (Hcall : exists s,
             call (Tick clock tilemap) s1 = (s, Ok tt) /\
             s = set_new_event None
                   (match e with
                    | INCREASE_BOMB =>
                        set_total_bombs (total_bombs self + 1)
                          (begin_tick s1)
                    | INCREASE_FIRE =>
                        set_fire (fire self + FIRE_INCREMENT) (begin_tick s1)
                    | _ =>
                        if Qltb MAX_SPEED (speed self + SPEED_INCREMENT)
                        then set_speed MAX_SPEED (begin_tick s1)
                        else set_speed (speed self + SPEED_INCREMENT)
                               (begin_tick s1)
                    end)).
  { cbn [call]. unfold bind.
    destruct e; try discriminate Hp.
    - pose proof (update_speed_up clock tilemap s1 Hl1 Hpend) as E.
      cbv zeta in E. rewrite E.
      assert (Hz : Qeq_bool MAX_SPEED 0 = false)
        by (apply Qeq_bool_false; now apply Hmax).
      rewrite Hz, Hb. subst s1.
      cbn [speed set_speed set_got_special_event set_event set_new_event].
      destruct (Qltb MAX_SPEED (speed self + SPEED_INCREMENT));
        unfold draw; monad_zred; cbn; eexists; split; reflexivity.
    - rewrite update_bomb by assumption. rewrite Hb.
      unfold draw. monad_zred. cbn. eexists; split; reflexivity.
    - rewrite update_fire by assumption. rewrite Hb.
      unfold draw. monad_zred. cbn. eexists; split; reflexivity. }
  destruct Hcall as (s & Ecall & Es).
  exists s. split; [rewrite (Hrun []), Ecall; reflexivity |].
  split; [intro calls; rewrite Hrun, Ecall; reflexivity |].
  subst s. rewrite Hb.
  destruct e; try discriminate Hp; cbn;
    try destruct (Qltb MAX_SPEED (speed self + SPEED_INCREMENT));
    cbn; repeat split.
Qed.

(** X6: every bomb power-up applied by a frame raises the capacity by
    exactly one, with no upper limit: after [n] of them the capacity is
    [n] higher, the placed count is unchanged, and a character with no bomb
    placed can then place that many more bombs before [place_bomb] fails. *)
Theorem bomb_pick_ups_raise_capacity (n : nat) clock tilemap
  (self : Character) :
  Animation_done (die_animation self) = false ->
  let self' := run (pick_ups INCREASE_BOMB n clock tilemap) self in
  total_bombs self' = (total_bombs self + Z.of_nat n)%Z /\
  placed_bombs self' = placed_bombs self /\
  (forall k : nat,
     placed_bombs self = 0%Z -> total_bombs self = Z.of_nat k ->
     snd (place_bombs (S (k + n)) self') = repeat true (k + n) ++ [false]).
Proof.
  intro Hlive. cbv zeta.
  assert (H : total_bombs (run (pick_ups INCREASE_BOMB n clock tilemap) self)
              = (total_bombs self + Z.of_nat n)%Z /\
              placed_bombs (run (pick_ups INCREASE_BOMB n clock tilemap) self)
              = placed_bombs self).
  { revert self Hlive. induction n as [| n IH]; intros self Hlive.
    - cbn. split; [lia | reflexivity].
    - destruct (pick_up_frame INCREASE_BOMB clock tilemap self eq_refl
                  ltac:(discriminate) Hlive)
        as (s & _ & Hrun & Hd & _ & Hp & _ & _ & _ & Ht & _).
      cbn [pick_ups]. rewrite Hrun.
      destruct (IH s) as [E1 E2]; [now rewrite Hd |].
      cbn in Ht. rewrite E1, E2, Ht, Hp. split; [lia | reflexivity]. }
  destruct H as [Ht Hp]. split; [exact Ht |]. split; [exact Hp |].
  intros k H0 Hk. rewrite place_bombs_fill; [reflexivity |].
  rewrite Ht, Hp, H0, Hk. lia.
Qed.

(** X7: every fire power-up applied by a frame adds exactly
    [FIRE_INCREMENT] to the fire range, with no upper limit: after [n] of
    them the range is [n * FIRE_INCREMENT] higher. *)
Theorem fire_pick_ups_add_up (n : nat) clock tilemap (self : Character) :
  Animation_done (die_animation self) = false ->
  fire (run (pick_ups INCREASE_FIRE n clock tilemap) self)
  == fire self + inject_Z (Z.of_nat n) * FIRE_INCREMENT.
Proof.
  revert self. induction n as [| n IH]; intros self Hlive.
  - cbn [pick_ups run Z.of_nat]. change (inject_Z 0) with 0. ring.
  - destruct (pick_up_frame INCREASE_FIRE clock tilemap self eq_refl
                ltac:(discriminate) Hlive)
      as (s & _ & Hrun & Hd & _ & _ & _ & _ & _ & _ & Hf & _).
    cbn [pick_ups]. rewrite Hrun, IH by (now rewrite Hd).
    cbn in Hf. rewrite Hf, Nat2Z.inj_succ. unfold Z.succ.
    rewrite inject_Z_plus. change (inject_Z 1) with 1. ring.
Qed.

(** X8: with a speed increment that is not negative, [n] speed power-ups,
    each applied by a frame, leave the smaller of [speed + n *
    SPEED_INCREMENT] and [MAX_SPEED]: the speed climbs by the increment and
    then stays at the maximum. *)
Theorem speed_pick_ups_clamp (n : nat) clock tilemap (self : Character) :
  0 <= SPEED_INCREMENT -> ~ MAX_SPEED == 0 ->
  speed self <= MAX_SPEED ->
  Animation_done (die_animation self) = false ->
  speed (run (pick_ups INCREASE_SPEED n clock tilemap) self)
  == Qmin (speed self + inject_Z (Z.of_nat n) * SPEED_INCREMENT) MAX_SPEED.
Proof.
  intros Hinc Hmax. revert self.
  induction n as [| n IH]; intros self Hle Hlive.
  - cbn [pick_ups run Z.of_nat]. change (inject_Z 0) with 0.
    rewrite Q.min_l; [ring | lra].
  - destruct (pick_up_frame INCREASE_SPEED clock tilemap self eq_refl
                ltac:(intros _; exact Hmax) Hlive)
      as (s & _ & Hrun & Hd & _ & _ & _ & _ & _ & _ & _ & Hs).
    cbn [pick_ups]. rewrite Hrun. cbn in Hs.
    assert (Hn : 0 <= inject_Z (Z.of_nat n)).
    { rewrite <- (Zle_Qle 0). lia. }
    rewrite Nat2Z.inj_succ. unfold Z.succ.
    rewrite inject_Z_plus. change (inject_Z 1) with 1.
    set (k := inject_Z (Z.of_nat n)) in *.
    destruct (Qltb MAX_SPEED (speed self + SPEED_INCREMENT)) eqn:Hc;
      reflect_Q.
    + rewrite IH; [| rewrite Hs; lra | now rewrite Hd].
      rewrite Hs. rewrite !Q.min_r; [reflexivity | nra | nra].
    + rewrite IH; [| rewrite Hs; lra | now rewrite Hd].
      rewrite Hs.
      assert (E : speed self + SPEED_INCREMENT + k * SPEED_INCREMENT
                  == speed self + (k + 1) * SPEED_INCREMENT) by ring.
      rewrite E. reflexivity.
Qed.

(** *** Standing still, and dying *)

Lemma tick_still clock tilemap (self : Character) :
  Animation_done (die_animation self) = false ->
  is_move (new_event self) = false ->
  (forall e, new_event self = Some e -> is_powerup e = false) ->
  call (Tick clock tilemap) self
  = (if is_event (new_event self) DIE
     then set_die_animation (Animation_update (die_animation self))
            (begin_tick self)
     else begin_tick self, Ok tt).
Proof.
  intros Hlive Hmove Hpow.
  destruct (begin_tick_fields self) as (He & _ & _ & _ & _ & _ & Hd).
  cbn [call]. unfold bind. rewrite update_still by assumption.
  unfold draw. monad_zred. rewrite He, Hd.
  destruct (is_event (new_event self) DIE); reflexivity.
Qed.

Lemma idle_frames (frames : list (Clock * Tilemap)) :
  forall self : Character,
    Animation_done (die_animation self) = false ->
    new_event self = None ->
    let self' := run (map (fun f => Tick (fst f) (snd f)) frames) self in
    pose self' = pose self /\ velocity self' = velocity self /\
    new_event self' = None.
Proof.
  induction frames as [| [clock tilemap] frames IH]; intros self Hlive Hnew.
  - cbn. now repeat split.
  - cbn [map run fst snd].
    rewrite tick_still; try assumption; rewrite ?Hnew; try reflexivity;
      try discriminate.
    cbn [is_event].
    destruct (begin_tick_fields self) as (_ & Hn & _ & Hp & _ & Hv & Hd).
    destruct (IH (begin_tick self)) as (E1 & E2 & E3);
      [now rewrite Hd | now rewrite Hn |].
    cbv zeta. rewrite E1, E2, E3, Hp, Hv. now repeat split.
Qed.

(** X9: a power-up stops the walk.  The frame that applies a power-up
    clears the pending event without reading the velocity, so from then on
    the character stays where it is, frame after frame, however the keys are
    held, until the next key edge. *)
Theorem power_up_halts_walk (e : CharacterEvents) clock tilemap
  (self : Character) :
  is_powerup e = true ->
  (e = INCREASE_SPEED -> ~ MAX_SPEED == 0) ->
  Animation_done (die_animation self) = false ->
  let picked := run [SpecialEvent e; Tick clock tilemap] self in
  new_event picked = None /\ velocity picked = velocity self /\
  forall frames : list (Clock * Tilemap),
    pose (run (map (fun f => Tick (fst f) (snd f)) frames) picked)
    = pose self.
Proof.
  intros Hp Hmax Hlive.
  destruct (pick_up_frame e clock tilemap self Hp Hmax Hlive)
    as (s & -> & _ & Hd & Hpose & _ & Hv & Hn & _).
  cbv zeta. split; [exact Hn |]. split; [exact Hv |].
  intro frames.
  destruct (idle_frames frames s) as (E & _); [now rewrite Hd | exact Hn |].
  now rewrite E.
Qed.

Lemma die_frames_done (n : nat) (a : Animation) :
  Animation_done a = true -> die_frames n a = a.
Proof. intro H. destruct n; cbn; [reflexivity | now rewrite H]. Qed.

(** X10: the death sequence.  Once [DIE] is the pending event, frames and
    key edges do nothing but play the death clip: each frame advances the
    clip by one [update()] until it reports [done()], after that no frame
    touches it, and all along the pose and the pending [DIE] stay as they
    are. *)
Theorem death_sequence (calls : list Call) (self : Character) :
  new_event self = Some DIE ->
  forallb (fun c => is_tick c || is_key_edge c) calls = true ->
  let self' := run calls self in
  die_animation self'
  = die_frames (length (filter is_tick calls)) (die_animation self) /\
  pose self' = pose self /\ new_event self' = Some DIE.
Proof.
  revert self. induction calls as [| c calls IH]; intros self Hnew Hc.
  - cbn. now repeat split.
  - cbn [forallb] in Hc. apply andb_true_iff in Hc as [Hc Hcs].
    destruct c as [clock tilemap | key | key | | |]; try discriminate Hc;
      cbn [filter is_tick length run].
    + destruct (Animation_done (die_animation self)) eqn:Hlive.
      * cbn [call]. unfold bind. rewrite update_dead by exact Hlive.
        monad_zred. destruct (IH self Hnew Hcs) as (E1 & E2 & E3).
        cbv zeta. rewrite E1, E2, E3.
        rewrite (die_frames_done (S _)), die_frames_done by exact Hlive.
        now repeat split.
      * rewrite tick_still; try assumption; rewrite ?Hnew;
          try reflexivity;
          [| intros e E; injection E as <-; reflexivity].
        cbn [is_event CharacterEvents_eqb die_frames].
        destruct (begin_tick_fields self)
          as (_ & Hn & _ & Hp & _ & _ & Hd).
        destruct (IH (set_die_animation
                        (Animation_update (die_animation self))
                        (begin_tick self))) as (E1 & E2 & E3);
          [cbn; now rewrite Hn | exact Hcs |].
        cbv zeta. rewrite E1, E2, E3, Hlive. cbn. rewrite Hp.
        now repeat split.
    + rewrite (key_edge_guarded (KeyUp key)) by (auto; reflexivity).
      now apply IH.
    + rewrite (key_edge_guarded (KeyDown key)) by (auto; reflexivity).
      now apply IH.
Qed.

(** *** The course of [__move] *)

Ltac skip_block lem He Hdir Hp :=
  rewrite lem by (rewrite He; reflexivity);
  left; eexists; split; [exact He |]; split; [exact Hdir |];
  destruct Hp as [Hp | [Hp Hin]];
  [ left; exact Hp
  | right; split; [exact Hp | intro; apply Hin; right; assumption] ].

Ltac walk_snap d He Hnot :=
  solve [ left; exists d; split; [exact He |]; split; [reflexivity |];
          right; split; [reflexivity | exact Hnot] ].

Ltac walk_turn d :=
  solve [ left; exists d; split; [reflexivity |]; split; [reflexivity |];
          left; reflexivity ].

Ltac walk_stop d :=
  solve [ right; exists d; split; [reflexivity |]; split; reflexivity ].

Ltac walk_leaf He Hnot :=
  first
    [ solve [split; [reflexivity | eapply tilemap_at_raises; eassumption]]
    | walk_snap Up He Hnot | walk_snap Down He Hnot
    | walk_snap Right He Hnot | walk_snap Left He Hnot
    | walk_turn Up | walk_turn Down | walk_turn Right | walk_turn Left
    | walk_stop Up | walk_stop Down | walk_stop Right | walk_stop Left ].

Ltac active_block He Hdir Hp Hnot :=
  destruct Hp as [Hp | [_ Hin]]; [| elim Hin; left; reflexivity];
  subst;
  unfold move_up_block, move_down_block, move_right_block, move_left_block,
    snapped, centerline;
  monad_zred; rewrite He; cbn [is_event CharacterEvents_eqb move_event];
  repeat (branch; monad_zred); walk_leaf He Hnot.

Lemma move_up_block_walks tilemap (p0 : Pose) rest (self : Character)
  direction :
  walking (Up :: rest) p0 self direction -> ~ In Up rest ->
  match move_up_block tilemap (pose_x p0)
          (py_int (pose_x p0 / SQUARE_SIZE)) direction self with
  | (self', Ok direction') => walking rest p0 self' direction'
  | (self', Raise e) => pose self' = p0 /\ e = IndexError
  end.
Proof.
  intros [(d & He & Hdir & Hp) | (d & He & Hdir & Hp)] Hnot.
  - destruct d;
      [ active_block He Hdir Hp Hnot
      | skip_block move_up_block_skip He Hdir Hp
      | skip_block move_up_block_skip He Hdir Hp
      | skip_block move_up_block_skip He Hdir Hp ].
  - rewrite move_up_block_skip by (rewrite He; destruct d; reflexivity).
    right. now exists d.
Qed.

Lemma move_down_block_walks tilemap (p0 : Pose) rest (self : Character)
  direction :
  walking (Down :: rest) p0 self direction -> ~ In Down rest ->
  match move_down_block tilemap (pose_x p0)
          (py_int (pose_x p0 / SQUARE_SIZE)) direction self with
  | (self', Ok direction') => walking rest p0 self' direction'
  | (self', Raise e) => pose self' = p0 /\ e = IndexError
  end.
Proof.
  intros [(d & He & Hdir & Hp) | (d & He & Hdir & Hp)] Hnot.
  - destruct d;
      [ skip_block move_down_block_skip He Hdir Hp
      | active_block He Hdir Hp Hnot
      | skip_block move_down_block_skip He Hdir Hp
      | skip_block move_down_block_skip He Hdir Hp ].
  - rewrite move_down_block_skip by (rewrite He; destruct d; reflexivity).
    right. now exists d.
Qed.

Lemma move_right_block_walks tilemap (p0 : Pose) rest (self : Character)
  direction :
  walking (Right :: rest) p0 self direction -> ~ In Right rest ->
  match move_right_block tilemap (pose_y p0)
          (py_int (pose_y p0 / SQUARE_SIZE)) direction self with
  | (self', Ok direction') => walking rest p0 self' direction'
  | (self', Raise e) => pose self' = p0 /\ e = IndexError
  end.
Proof.
  intros [(d & He & Hdir & Hp) | (d & He & Hdir & Hp)] Hnot.
  - destruct d;
      [ skip_block move_right_block_skip He Hdir Hp
      | skip_block move_right_block_skip He Hdir Hp
      | active_block He Hdir Hp Hnot
      | skip_block move_right_block_skip He Hdir Hp ].
  - rewrite move_right_block_skip by (rewrite He; destruct d; reflexivity).
    right. now exists d.
Qed.

Lemma move_left_block_walks tilemap (p0 : Pose) rest (self : Character)
  direction :
  walking (Left :: rest) p0 self direction -> ~ In Left rest ->
  match move_left_block tilemap (pose_y p0)
          (py_int (pose_y p0 / SQUARE_SIZE)) direction self with
  | (self', Ok direction') => walking rest p0 self' direction'
  | (self', Raise e) => pose self' = p0 /\ e = IndexError
  end.
Proof.
  intros [(d & He & Hdir & Hp) | (d & He & Hdir & Hp)] Hnot.
  - destruct d;
      [ skip_block move_left_block_skip He Hdir Hp
      | skip_block move_left_block_skip He Hdir Hp
      | skip_block move_left_block_skip He Hdir Hp
      | active_block He Hdir Hp Hnot ].
  - rewrite move_left_block_skip by (rewrite He; destruct d; reflexivity).
    right. now exists d.
Qed.

Lemma walking_pose_y (p0 : Pose) (self : Character) direction :
  walking [Right; Left] p0 self direction ->
  pose_y (pose self) = pose_y p0.
Proof.
  intros [(d & _ & _ & [Hp | [Hp Hin]]) | (d & _ & _ & Hp)];
    rewrite Hp; try reflexivity.
  destruct d; try reflexivity; elim Hin; cbn; auto.
Qed.

(** [__move] either stops at a failed division by the tile size or a failed
    tile query, with the pose untouched, or comes out of its four blocks
    in step and integrates the position. *)
Lemma __move_course (d0 : Direction) clock tilemap (self : Character) :
  event self = Some (move_event d0) ->
  (pose (fst (__move (vector d0) clock tilemap self)) = pose self /\
   exists e, snd (__move (vector d0) clock tilemap self) = Raise e /\
             (e = IndexError \/ SQUARE_SIZE == 0)) \/
  (exists (s4 : Character) (direction : Z * Z),
     walking [] (pose self) s4 direction /\ keeps_intent self s4 /\
     ~ SQUARE_SIZE == 0 /\
     __move (vector d0) clock tilemap self = integrate direction clock s4).
Proof.
  intro He.
  assert (W0 : walking [Up; Down; Right; Left] (pose self) self (vector d0)).
  { left. exists d0. split; [exact He |]. split; [reflexivity |]. now left. }
  unfold __move, py_div.
  destruct (Qeq_bool SQUARE_SIZE 0) eqn:Hsq.
  { left. monad_zred. split; [reflexivity |].
    exists ZeroDivisionError. split; [reflexivity |].
    right. now apply Qeq_bool_iff. }
  apply Qeq_bool_false in Hsq.
  cbv beta iota zeta delta [bind get lift].
  pose proof (move_up_block_walks tilemap (pose self) [Down; Right; Left]
                self (vector d0) W0) as W1.
  pose proof (move_up_block_keeps tilemap (pose_x (pose self))
                (py_int (pose_x (pose self) / SQUARE_SIZE)) (vector d0) self)
    as K1.
  destruct (move_up_block tilemap (pose_x (pose self))
              (py_int (pose_x (pose self) / SQUARE_SIZE)) (vector d0) self)
    as [s1 [d1 | e1]]; cbn [fst snd] in *.
  2: { left. destruct W1 as [E ->];
         [cbn; intuition discriminate |].
       split; [exact E |]. exists IndexError. auto. }
  specialize (W1 ltac:(cbn; intuition discriminate)).
  pose proof (move_down_block_walks tilemap (pose self) [Right; Left]
                s1 d1 W1) as W2.
  pose proof (move_down_block_keeps tilemap (pose_x (pose self))
                (py_int (pose_x (pose self) / SQUARE_SIZE)) d1 s1) as K2.
  destruct (move_down_block tilemap (pose_x (pose self))
              (py_int (pose_x (pose self) / SQUARE_SIZE)) d1 s1)
    as [s2 [d2 | e2]]; cbn [fst snd] in *.
  2: { left. destruct W2 as [E ->];
         [cbn; intuition discriminate |].
       split; [exact E |]. exists IndexError. auto. }
  specialize (W2 ltac:(cbn; intuition discriminate)).
  rewrite (walking_pose_y _ _ _ W2).
  pose proof (move_right_block_walks tilemap (pose self) [Left] s2 d2 W2)
    as W3.
  pose proof (move_right_block_keeps tilemap (pose_y (pose self))
                (py_int (pose_y (pose self) / SQUARE_SIZE)) d2 s2) as K3.
  destruct (move_right_block tilemap (pose_y (pose self))
              (py_int (pose_y (pose self) / SQUARE_SIZE)) d2 s2)
    as [s3 [d3 | e3]]; cbn [fst snd] in *.
  2: { left. destruct W3 as [E ->];
         [cbn; intuition discriminate |].
       split; [exact E |]. exists IndexError. auto. }
  specialize (W3 ltac:(cbn; intuition discriminate)).
  pose proof (move_left_block_walks tilemap (pose self) [] s3 d3 W3) as W4.
  pose proof (move_left_block_keeps tilemap (pose_y (pose self))
                (py_int (pose_y (pose self) / SQUARE_SIZE)) d3 s3) as K4.
  destruct (move_left_block tilemap (pose_y (pose self))
              (py_int (pose_y (pose self) / SQUARE_SIZE)) d3 s3)
    as [s4 [d4 | e4]]; cbn [fst snd] in *.
  2: { left. destruct W4 as [E ->]; [cbn; tauto |].
       split; [exact E |]. exists IndexError. auto. }
  specialize (W4 ltac:(cbn; tauto)).
  right. exists s4, d4. split; [exact W4 |]. split; [| now split].
  eapply keeps_intent_trans; [exact K1 |].
  eapply keeps_intent_trans; [exact K2 |].
  eapply keeps_intent_trans; [exact K3 | exact K4].
Qed.

Lemma integrate_outcome direction clock (self : Character) :
  (~ get_fps clock == 0 /\
   integrate direction clock self = (advanced direction clock self, Ok tt))
  \/ (get_fps clock == 0 /\
      integrate direction clock self = (self, Raise ZeroDivisionError)).
Proof.
  destruct (Qeq_dec (get_fps clock) 0) as [E | N].
  - right. split; [exact E | now apply integrate_stalled].
  - left. split; [exact N | now apply integrate_running].
Qed.

(** X11: when a tile query of a directional frame falls outside the map,
    [update] raises [IndexError] before it has written the position: the
    pose, the velocity and the pending event are the ones before the
    call. *)
Theorem index_error_leaves_pose (d0 : Direction) clock tilemap
  (self : Character) :
  Animation_done (die_animation self) = false ->
  new_event self = Some (move_event d0) ->
  snd (update clock tilemap self) = Raise IndexError ->
  pose (fst (update clock tilemap self)) = pose self /\
  velocity (fst (update clock tilemap self)) = velocity self /\
  new_event (fst (update clock tilemap self)) = new_event self.
Proof.
  intros Hlive Hnew.
  destruct (begin_tick_fields self) as (He & Hn & _ & Hp & _ & Hv & _).
  rewrite Hnew in He.
  rewrite (update_move d0) by assumption. rewrite fst_bind_ret.
  destruct (__move_keeps (vector d0) clock tilemap (begin_tick self))
    as (_ & Kv & _ & _ & _ & Kn & _).
  rewrite Kv, Kn, Hv, Hn. intro Hraise.
  split; [| now split].
  destruct (__move_course d0 clock tilemap (begin_tick self) He)
    as [[E _] | (s4 & dir & _ & _ & _ & E)].
  - now rewrite E.
  - exfalso. revert Hraise. unfold bind. rewrite E.
    destruct (integrate_outcome dir clock s4) as [[_ ->] | [_ ->]];
      discriminate.
Qed.

(** X12: a directional frame that completes moves the character along one
    axis only, by exactly [speed * sq / fps], or not at all.  When [update]
    returns [True] the frame rate and the tile size were not zero, and the
    current event it leaves is either a move, with the coordinate along
    that move advanced by one step and the coordinate across it unchanged
    or put on the centre line of its tile, or a stop, with the pose
    unchanged. *)
Theorem frame_moves_along_one_axis (d0 : Direction) clock tilemap
  (self self' : Character) :
  Animation_done (die_animation self) = false ->
  new_event self = Some (move_event d0) ->
  update clock tilemap self = (self', Ok true) ->
  ~ get_fps clock == 0 /\ ~ SQUARE_SIZE == 0 /\
  exists d,
    (event self' = Some (move_event d) /\
     along d (pose self')
     == along d (pose self) + heading d * step clock self /\
     (cross d (pose self') == cross d (pose self) \/
      cross d (pose self') == centerline (cross d (pose self)))) \/
    (event self' = Some (stop_event d) /\
     pose_x (pose self') == pose_x (pose self) /\
     pose_y (pose self') == pose_y (pose self)).
Proof.
  intros Hlive Hnew.
  destruct (begin_tick_fields self) as (He & _ & _ & Hp & Hs & _).
  rewrite Hnew in He.
  rewrite (update_move d0) by assumption. unfold bind, ret.
  destruct (__move_course d0 clock tilemap (begin_tick self) He)
    as [[_ (e & E & _)] | (s4 & dir & W & K & Hsq & E)].
  { destruct (__move (vector d0) clock tilemap (begin_tick self))
      as [s r]; cbn [snd] in E. subst r. discriminate. }
  rewrite E.
  destruct (integrate_outcome dir clock s4) as [[Hfps ->] | [_ ->]];
    [| discriminate].
  intro H. injection H as <-.
  split; [exact Hfps |]. split; [exact Hsq |].
  destruct K as (Ks & _). rewrite Hp in W. rewrite Hs in Ks.
  unfold step.
  destruct W as [(d & Ev & -> & Hpose) | (d & Ev & -> & Hpose)];
    exists d; [left | right].
  - split; [exact Ev |].
    destruct Hpose as [Hpose | [Hpose _]]; split;
      try (destruct d; cbn; rewrite Hpose, Ks; cbn;
           unfold Qdiv; ring).
    + left. destruct d; cbn; rewrite Hpose, still_step; ring.
    + right. destruct d; cbn; rewrite Hpose; cbn; rewrite still_step; ring.
  - split; [exact Ev |].
    cbn. rewrite Hpose, !still_step. split; ring.
Qed.

(** *** Corner assistance and centring, block by block *)

(** X13: corner assistance.  With the tile straight ahead blocked, the
    block of a move redirects towards a free diagonal when the character
    overlaps that side by less than a quarter of a tile: towards the lower
    side (left, or up) for an offset below a quarter, towards the upper
    side (right, or down) for an offset above three quarters.  An offset of
    exactly zero counts for the lower side in the downward, rightward and
    leftward moves but not in the upward move, which stops there. *)
Theorem corner_assist_bands (d : Direction) tilemap (self : Character)
  (a : Z) :
  0 < SQUARE_SIZE ->
  event self = Some (move_event d) ->
  tile d Ahead tilemap (pose self) = Ok a -> is_obstacle a = true ->
  (forall l,
     tile d Lower tilemap (pose self) = Ok l -> is_obstacle l = false ->
     offset (cross d (pose self)) < SQUARE_SIZE / 4 ->
     0 < offset (cross d (pose self)) \/ d <> Up ->
     decision d tilemap self
     = Ok (side_vector d Lower, Some (side_event d Lower))) /\
  (forall l u,
     tile d Lower tilemap (pose self) = Ok l ->
     tile d Upper tilemap (pose self) = Ok u -> is_obstacle u = false ->
     3 * SQUARE_SIZE / 4 < offset (cross d (pose self)) ->
     decision d tilemap self
     = Ok (side_vector d Upper, Some (side_event d Upper))) /\
  (forall l u,
     tile d Lower tilemap (pose self) = Ok l ->
     tile d Upper tilemap (pose self) = Ok u ->
     d = Up -> offset (cross d (pose self)) == 0 ->
     decision d tilemap self = Ok ((0, 0)%Z, Some STOP_UP)).
Proof.
  intros Hsq Hev Ha Hblocked.
  pose proof (offset_bounds (cross d (pose self)) Hsq) as [B1 B2].
  pose proof (quarter SQUARE_SIZE) as Q1.
  pose proof (three_quarters SQUARE_SIZE) as Q3.
  split; [| split].
  - intros l Hl Hopen Hlt Hpos. unfold decision.
    destruct d; open_block Hev;
      repeat (use_facts; monad_zred; cbn [negb andb]; branch_if);
      use_facts; monad_zred; cbn [negb andb];
      try reflexivity; exfalso; reflect_Q;
      destruct Hpos as [Hpos | Hpos]; try congruence; lra.
  - intros l u Hl Hu Hopen Hgt. unfold decision.
    destruct d; open_block Hev;
      repeat (use_facts; monad_zred; cbn [negb andb]; branch_if);
      use_facts; monad_zred; cbn [negb andb];
      try reflexivity; exfalso; reflect_Q; lra.
  - intros l u Hl Hu -> Hzero. unfold decision.
    open_block Hev;
      repeat (use_facts; monad_zred; cbn [negb andb]; branch_if);
      use_facts; monad_zred; cbn [negb andb];
      try reflexivity; exfalso; reflect_Q; lra.
Qed.

(** X14: centring.  With the tile straight ahead free and the offset
    outside the 45%-55% band, the block of a move does not advance but
    redirects across, and always towards the centre line of the tile: to
    the upper side (right, or down) when the offset is at most 45%, where
    the coordinate lies below the centre line, and to the lower side (left,
    or up) otherwise, where it lies above. *)
Theorem centring_heads_for_centre (d : Direction) tilemap
  (self : Character) (a : Z) :
  0 < SQUARE_SIZE ->
  event self = Some (move_event d) ->
  tile d Ahead tilemap (pose self) = Ok a -> is_obstacle a = false ->
  0 <= cross d (pose self) ->
  (offset (cross d (pose self)) <= SQUARE_SIZE * 0.45 ->
   decision d tilemap self
   = Ok (side_vector d Upper, Some (side_event d Upper)) /\
   cross d (pose self) < centerline (cross d (pose self))) /\
  (SQUARE_SIZE * 0.55 <= offset (cross d (pose self)) ->
   decision d tilemap self
   = Ok (side_vector d Lower, Some (side_event d Lower)) /\
   centerline (cross d (pose self)) < cross d (pose self)).
Proof.
  intros Hsq Hev Ha Hopen Hpos.
  assert (Hc : centerline (cross d (pose self))
               == cross d (pose self) - offset (cross d (pose self))
                  + SQUARE_SIZE * 0.5).
  { unfold centerline, offset, py_mod. rewrite py_int_nonneg; [ring |].
    apply Qle_shift_div_l; lra. }
  split; intro Hband; (split; [| lra]); unfold decision;
    destruct d; open_block Hev;
    repeat (use_facts; monad_zred; cbn [negb andb]; branch_if);
    use_facts; monad_zred; cbn [negb andb];
    try reflexivity; exfalso; reflect_Q; lra.
Qed.

(** *** The match loop *)

Lemma key_calls_return (c : Call) (self : Character) :
  is_key_edge c = true -> snd (call c self) = Ok tt.
Proof.
  intro Hc.
  destruct c as [| key | key | | |]; try discriminate Hc; cbn [call];
    unfold key_up, key_down; monad_zred;
    destruct (negb _); try reflexivity;
    destruct key; monad_zred; repeat (branch_if; monad_zred); reflexivity.
Qed.

Lemma run_app (calls calls' : list Call) (self : Character) :
  forallb is_key_edge calls = true ->
  run (calls ++ calls') self = run calls' (run calls self).
Proof.
  revert self. induction calls as [| c calls IH]; intros self Hc;
    [reflexivity |].
  cbn [forallb] in Hc. apply andb_true_iff in Hc as [Hc Hcs].
  cbn [app run]. pose proof (key_calls_return c self Hc) as Hok.
  destruct (call c self) as [s r]; cbn [snd] in Hok. subst r.
  now apply IH.
Qed.

Lemma calls_of_edges (events : list Event) :
  forallb is_key_edge (flat_map calls_of events) = true.
Proof.
  induction events as [| ev events IH]; [reflexivity |].
  cbn [flat_map]. rewrite forallb_app, IH. now destruct ev.
Qed.

Lemma drain_staying (pre rest : list Event) (player : Character) :
  forallb (fun ev => negb (leaves ev)) pre = true ->
  drain (pre ++ rest) player
  = drain rest (run (flat_map calls_of pre) player).
Proof.
  revert player. induction pre as [| ev pre IH]; intros player Hpre;
    [reflexivity |].
  cbn [forallb] in Hpre. apply andb_true_iff in Hpre as [Hev Hpre].
  destruct ev as [| key | key |]; cbn [leaves negb] in Hev;
    try discriminate Hev; cbn [app drain flat_map calls_of run].
  - apply negb_true_iff, orb_false_iff in Hev as [H1 H2].
    rewrite H1, H2. cbn [call].
    pose proof (key_calls_return (KeyUp key) player eq_refl) as Hok.
    cbn [call] in Hok.
    destruct (key_up key player) as [s r]; cbn [snd] in Hok. subst r.
    now apply IH.
  - cbn [call].
    pose proof (key_calls_return (KeyDown key) player eq_refl) as Hok.
    cbn [call] in Hok.
    destruct (key_down key player) as [s r]; cbn [snd] in Hok. subst r.
    now apply IH.
  - now apply IH.
Qed.

(** X15: leaving the match.  At the first [QUIT] event, or release of
    Backspace or Escape, among the events of a frame, [play] ends at once:
    with [sys.exit()], [MENU] or [PAUSE].  The player has then received the
    key edges that came before and nothing else: the events behind are
    dropped unread, and the clock does not matter. *)
Theorem play_leaves_at_once (pre post : list Event) (ev : Event)
  clock (player : Character) :
  forallb (fun ev => negb (leaves ev)) pre = true ->
  leaves ev = true ->
  play (pre ++ ev :: post) clock player
  = (run (flat_map calls_of pre) player, leave_outcome ev).
Proof.
  intros Hpre Hev. unfold play. rewrite drain_staying by exact Hpre.
  destruct ev as [| key | key |]; try discriminate Hev; cbn [drain].
  - reflexivity.
  - cbn [leaves] in Hev. unfold leave_outcome.
    destruct (Key_eqb key K_BACKSPACE); [reflexivity |].
    cbn [orb] in Hev. now rewrite Hev.
Qed.

(** X16: a frame never reaches [update].  When no event makes [play]
    leave, the player receives the key edges of the frame in order (a press
    of Backspace or Escape is an ordinary key edge, events of other types
    are skipped), and then [play] ends with [AttributeError]: the argument
    [self.__map.get_grid().get_tilemap()] of [update] fails before the
    call, [Map] having no [get_grid].  Neither [update] nor [draw] of the
    player is called, and [PLAYING_SINGLE] is not returned. *)
Theorem play_stops_before_update (events : list Event) clock
  (player : Character) :
  forallb (fun ev => negb (leaves ev)) events = true ->
  play events clock player
  = (run (flat_map calls_of events) player, AttributeError).
Proof.
  intro Hev. unfold play.
  rewrite <- (app_nil_r events) at 1.
  rewrite drain_staying by exact Hev. reflexivity.
Qed.

Lemma drain_runs (events : list Event) :
  forall player : Character,
  exists calls,
    fst (drain events player) = run calls player /\
    forallb is_key_edge calls = true /\
    (snd (drain events player) = None \/
     snd (drain events player) = Some SystemExit \/
     snd (drain events player) = Some (Returned MENU) \/
     snd (drain events player) = Some (Returned PAUSE)).
Proof.
  induction events as [| ev events IH]; intro player;
    [solve [exists []; repeat split; auto 6] |].
  destruct ev as [| key | key |]; cbn [drain].
  - solve [exists []; repeat split; auto 6].
  - destruct (Key_eqb key K_BACKSPACE);
      [solve [exists []; repeat split; auto 6] |].
    destruct (Key_eqb key K_ESCAPE);
      [solve [exists []; repeat split; auto 6] |].
    pose proof (key_calls_return (KeyUp key) player eq_refl) as Hok.
    cbn [call] in Hok.
    destruct (IH (fst (key_up key player))) as (calls & E & Hk & Hout).
    exists (KeyUp key :: calls). cbn [run call forallb is_key_edge].
    destruct (key_up key player) as [s r]; cbn [fst snd] in *. subst r.
    now repeat split.
  - pose proof (key_calls_return (KeyDown key) player eq_refl) as Hok.
    cbn [call] in Hok.
    destruct (IH (fst (key_down key player))) as (calls & E & Hk & Hout).
    exists (KeyDown key :: calls). cbn [run call forallb is_key_edge].
    destruct (key_down key player) as [s r]; cbn [fst snd] in *. subst r.
    now repeat split.
  - apply IH.
Qed.

Lemma key_edge_fields (c : Call) (self : Character) :
  is_key_edge c = true ->
  let self' := fst (call c self) in
  pose self' = pose self /\ event self' = event self /\
  speed self' = speed self /\ placed_bombs self' = placed_bombs self /\
  total_bombs self' = total_bombs self /\ fire self' = fire self /\
  got_special_event self' = got_special_event self /\
  die_animation self' = die_animation self.
Proof.
  intro Hc. cbv zeta.
  destruct c as [| key | key | | |]; try discriminate Hc; cbn [call];
    unfold key_up, key_down; monad_zred;
    (destruct (negb _); [| now repeat split]);
    destruct key; monad_zred; repeat (branch_if; monad_zred);
    cbn; now repeat split.
Qed.

Lemma key_edges_fields (calls : list Call) :
  forall self : Character,
    forallb is_key_edge calls = true ->
    let self' := run calls self in
    pose self' = pose self /\ event self' = event self /\
    speed self' = speed self /\ placed_bombs self' = placed_bombs self /\
    total_bombs self' = total_bombs self /\ fire self' = fire self /\
    got_special_event self' = got_special_event self /\
    die_animation self' = die_animation self.
Proof.
  induction calls as [| c calls IH]; intros self Hc; [now repeat split |].
  cbn [forallb] in Hc. apply andb_true_iff in Hc as [Hc Hcs].
  cbv zeta. cbn [run].
  pose proof (key_calls_return c self Hc) as Hok.
  pose proof (key_edge_fields c self Hc) as Hf. cbv zeta in Hf.
  destruct (call c self) as [s r]; cbn [fst snd] in *. subst r.
  specialize (IH s Hcs). cbv zeta in IH.
  decompose [and] Hf. decompose [and] IH. repeat split; congruence.
Qed.

(** X17: the match never moves its player.  Whatever the events of the
    frame, the player that [play] leaves is the player after a run of key
    edges, no [update] and no [draw] among them: its pose, current event,
    speed, bomb counters, fire, one-shot flag and death clip are what they
    were, and only the velocity and the pending event can differ.  And
    [play] ends in one of four ways: [sys.exit()], [MENU], [PAUSE] or the
    [AttributeError] of the missing [get_grid]; it never returns
    [PLAYING_SINGLE]. *)
Theorem play_never_moves_the_player (events : list Event) clock
  (player : Character) :
  let player' := fst (play events clock player) in
  (exists calls,
     forallb is_key_edge calls = true /\ player' = run calls player) /\
  (pose player' = pose player /\ event player' = event player /\
   speed player' = speed player /\
   placed_bombs player' = placed_bombs player /\
   total_bombs player' = total_bombs player /\ fire player' = fire player /\
   got_special_event player' = got_special_event player /\
   die_animation player' = die_animation player) /\
  (snd (play events clock player) = SystemExit \/
   snd (play events clock player) = Returned MENU \/
   snd (play events clock player) = Returned PAUSE \/
   snd (play events clock player) = AttributeError).
Proof.
  cbv zeta.
  destruct (drain_runs events player) as (calls & E & Hk & Hout).
  unfold play. destruct (drain events player) as [p [out |]];
    cbn [fst snd] in *; subst p.
  - split; [now exists calls |].
    split; [exact (key_edges_fields calls player Hk) |].
    destruct Hout as [H | [H | [H | H]]]; try discriminate H;
      injection H as ->; auto.
  - split; [now exists calls |].
    split; [exact (key_edges_fields calls player Hk) |]. auto.
Qed.

(** *** The map view *)

Lemma draw_cell_painted (getattr : Z -> Z -> Z) (x y : Z) (pos : Q * Q) :
  Map.draw_cell getattr x y pos
  = if Map.painted getattr (x, y)
    then [blit (Map.image_of getattr (x, y)) pos] else [].
Proof.
  unfold Map.draw_cell, Map.painted, Map.image_of. cbn [fst snd].
  destruct (getattr x y =? UNIT_FIXED_BLOCK)%Z; [reflexivity |].
  destruct (getattr x y =? UNIT_BLOCK)%Z; reflexivity.
Qed.

Lemma draw_row_picture (DH : Q) getattr (x : Z) (n : nat) :
  forall (a : nat) (pos : Q * Q),
    fst pos == inject_Z (Z.of_nat a) * SQUARE_SIZE ->
    snd pos == DH + inject_Z x * SQUARE_SIZE ->
    Forall2 Map.same_paint
      (fst (Map.draw_row getattr x (map Z.of_nat (seq a n)) pos))
      (map (fun cell => blit (Map.image_of getattr cell)
                             (Map.corner DH cell))
           (filter (Map.painted getattr)
                   (map (pair x) (map Z.of_nat (seq a n))))) /\
    snd (snd (Map.draw_row getattr x (map Z.of_nat (seq a n)) pos))
    = snd pos.
Proof.
  induction n as [| n IH]; intros a pos Hx Hy; [now split |].
  cbn [seq map Map.draw_row filter].
  destruct (IH (S a) (fst pos + SQUARE_SIZE, snd pos)) as [Hrow Hpos].
  { cbn [fst]. rewrite Hx, Nat2Z.inj_succ. unfold Z.succ.
    rewrite inject_Z_plus. ring. }
  { exact Hy. }
  destruct (Map.draw_row getattr x (map Z.of_nat (seq (S a) n))
              (fst pos + SQUARE_SIZE, snd pos)) as [out pos'].
  cbn [fst snd] in *. split; [| exact Hpos].
  rewrite draw_cell_painted.
  destruct (Map.painted getattr (x, Z.of_nat a)); cbn [app map];
    [| exact Hrow].
  constructor; [| exact Hrow].
  cbn [Map.same_paint Map.corner fst snd]. now repeat split.
Qed.

Lemma Forall2_same_paint_app (l1 l2 l1' l2' : list Paint) :
  Forall2 Map.same_paint l1 l1' -> Forall2 Map.same_paint l2 l2' ->
  Forall2 Map.same_paint (l1 ++ l2) (l1' ++ l2').
Proof. apply Forall2_app. Qed.

Lemma draw_rows_picture (DH : Q) dim getattr (m : nat) :
  forall (b : nat) (pos : Q * Q),
    fst pos == 0 ->
    snd pos == DH + inject_Z (Z.of_nat b) * SQUARE_SIZE ->
    Forall2 Map.same_paint
      (fst (Map.draw_rows dim getattr (map Z.of_nat (seq b m)) pos))
      (map (fun cell => blit (Map.image_of getattr cell)
                             (Map.corner DH cell))
           (filter (Map.painted getattr)
                   (list_prod (map Z.of_nat (seq b m)) (range (snd dim))))).
Proof.
  induction m as [| m IH]; intros b pos Hx Hy; [constructor |].
  cbn [seq map Map.draw_rows list_prod].
  rewrite filter_app, map_app.
  destruct (draw_row_picture DH getattr (Z.of_nat b) (Z.to_nat (snd dim))
              0%nat pos) as [Hrow Hpos].
  { rewrite Hx. cbn. ring. }
  { exact Hy. }
  fold (range (snd dim)) in Hrow, Hpos.
  destruct (Map.draw_row getattr (Z.of_nat b) (range (snd dim)) pos)
    as [row pos'].
  cbn [fst snd] in Hrow, Hpos.
  specialize (IH (S b) (0, snd pos' + SQUARE_SIZE)).
  destruct (Map.draw_rows dim getattr (map Z.of_nat (seq (S b) m))
              (0, snd pos' + SQUARE_SIZE)) as [out pos''].
  cbn [fst snd] in *. apply Forall2_same_paint_app; [exact Hrow |].
  apply IH; [reflexivity |].
  rewrite Hpos, Hy, Nat2Z.inj_succ. unfold Z.succ.
  rewrite inject_Z_plus. ring.
Qed.

(** X18: the picture of the map.  [Map.draw] fills the surface and then
    makes exactly one [blit] for each cell of the grid that holds a fixed
    block or a brick, first index by first index, and none for the other
    cells.  The running position of the two loops comes to a closed form:
    the cell [(x, y)] is painted with its top left corner at
    [(y * SQUARE_SIZE, DISPLAY_HEIGTH + x * SQUARE_SIZE)], so the first index
    of the grid runs down the screen and the second one across, as the
    character's own look-ups [tilemap[row][column]] have it.  A dimension
    that is zero or negative paints no cell. *)
Theorem map_picture (DISPLAY_HEIGTH : Q) (dim : Z * Z)
  (getattr : Z -> Z -> Z) :
  Forall2 Map.same_paint
    (Map.draw DISPLAY_HEIGTH dim getattr)
    (fill_green ::
     map (fun cell => blit (Map.image_of getattr cell)
                           (Map.corner DISPLAY_HEIGTH cell))
         (filter (Map.painted getattr) (Map.cells dim))).
Proof.
  unfold Map.draw, Map.cells. constructor; [exact I |].
  unfold range at 1 3.
  apply draw_rows_picture; cbn [fst snd]; [reflexivity |].
  cbn. ring.
Qed.

(** X19: the sprite on its square.  [draw] positions the icon from the
    pose: for a character that stands at the centre of the tile in row [i]
    and column [j] (the tile its pose indexes in the tile map), the left
    edge of the icon is the left edge of the square [Map.draw] paints for
    the cell [(i, j)], and the icon's bottom edge, its height below the
    blit position, is the bottom edge of that square, whatever the height
    of the icon. *)
Theorem sprite_stands_on_its_square (DISPLAY_HEIGTH icon_height : Q)
  (i j : Z) (self : Character) :
  0 < SQUARE_SIZE ->
  (0 <= i)%Z -> (0 <= j)%Z ->
  pose_x (pose self) == (inject_Z j + 0.5) * SQUARE_SIZE ->
  pose_y (pose self) == (inject_Z i + 0.5) * SQUARE_SIZE ->
  py_int (pose_y (pose self) / SQUARE_SIZE) = i /\
  py_int (pose_x (pose self) / SQUARE_SIZE) = j /\
  fst (blit_position DISPLAY_HEIGTH icon_height self)
  == fst (Map.corner DISPLAY_HEIGTH (i, j)) /\
  snd (blit_position DISPLAY_HEIGTH icon_height self) + icon_height
  == snd (Map.corner DISPLAY_HEIGTH (i, j)) + SQUARE_SIZE.
Proof.
  intros Hsq Hi Hj Hx Hy.
  assert (Htile : forall (k : Z) (q : Q),
             (0 <= k)%Z -> q == (inject_Z k + 0.5) * SQUARE_SIZE ->
             py_int (q / SQUARE_SIZE) = k).
  { intros k q Hk Hq.
    assert (E : q / SQUARE_SIZE == inject_Z k + 0.5).
    { rewrite Hq. field. lra. }
    assert (Hk' : 0 <= inject_Z k)
      by (change 0 with (inject_Z 0); now rewrite <- Zle_Qle).
    rewrite py_int_nonneg by (rewrite E; lra).
    rewrite (Qfloor_comp _ _ E).
    apply Qfloor_unique; lra. }
  split; [now apply Htile |]. split; [now apply Htile |].
  unfold blit_position, Map.corner. cbn [fst snd].
  split; [rewrite Hx; ring |].
  rewrite Hy. field.
Qed.

(** *** The engine *)

Section EngineProperties.

Variable code : Screen -> Z.

Lemma turn_without_match (t : Engine.Turn) (self : Engine.Engine) :
  Engine.__match self = None ->
  Engine.__match (fst (Engine.turn code t self)) = None.
Proof.
  intro Hm. unfold Engine.turn.
  destruct (Engine.__state self =? code MENU)%Z.
  { destruct (Engine.__menu self); [| destruct (Engine.Menu_init t)];
      try destruct (Engine.Menu_update t); cbn; auto. }
  destruct (Engine.__state self =? code SETUP)%Z.
  { destruct (Engine.__setup self); [| destruct (Engine.Setup_init t)];
      try destruct (Engine.Setup_update t); cbn; auto. }
  destruct (Engine.__state self =? code PLAYING)%Z.
  { rewrite Hm. exact Hm. }
  destruct (Engine.__state self =? code FINISH)%Z; exact Hm.
Qed.

Lemma turn_same_screens (t t' : Engine.Turn) (self : Engine.Engine) :
  Engine.__match self = None -> Engine.same_screens t t' ->
  Engine.turn code t' self = Engine.turn code t self.
Proof.
  intros Hm (E1 & E2 & E3 & E4 & E5).
  unfold Engine.turn, Engine.new_match.
  now rewrite Hm, E1, E2, E3, E4, E5.
Qed.

Lemma play_without_match (ts : list Engine.Turn) :
  forall self : Engine.Engine,
    Engine.__match self = None ->
    Engine.__match (fst (Engine.play code ts self)) = None.
Proof.
  induction ts as [| t ts IH]; intros self Hm; [exact Hm |].
  cbn [Engine.play].
  pose proof (turn_without_match t self Hm) as Ht.
  destruct (Engine.turn code t self) as [s [e |]]; cbn [fst] in *.
  - exact Ht.
  - now apply IH.
Qed.

Lemma play_same_screens (ts : list Engine.Turn) :
  forall (ts' : list Engine.Turn) (self : Engine.Engine),
    Engine.__match self = None -> Forall2 Engine.same_screens ts ts' ->
    Engine.play code ts' self = Engine.play code ts self.
Proof.
  induction ts as [| t ts IH]; intros ts' self Hm Hs;
    inversion Hs as [| ? t' ? ts'' Ht Hts]; subst; [reflexivity |].
  cbn [Engine.play]. rewrite (turn_same_screens t t' self Hm Ht).
  pose proof (turn_without_match t self Hm) as Hm'.
  destruct (Engine.turn code t self) as [s [e |]]; cbn [fst] in *.
  - reflexivity.
  - now apply IH.
Qed.

(** X20: the engine never starts a match.  The only place that gives
    [self.__match] an object is [Match(self.__setup.get_characters(),
    self.__sprites)], and [Match.__init__] takes no such arguments.  So
    from an engine without a match (as [__init__] leaves it) the loop never
    holds a match, whatever [Menu] and [Setup] answer; [Match.play] is never
    called: what a match would meet (events, clock, tile map) has no
    influence on the loop; and a turn that finds the state [PLAYING] ends
    the loop with an exception and the engine as it was: [AttributeError]
    when there is no setup screen to ask for the characters, else
    [TypeError], or what [get_characters()] raised. *)
Theorem engine_never_starts_a_match (ts : list Engine.Turn)
  (self : Engine.Engine) :
  Engine.__match self = None ->
  Engine.__match (fst (Engine.play code ts self)) = None /\
  (forall ts', Forall2 Engine.same_screens ts ts' ->
               Engine.play code ts' self = Engine.play code ts self) /\
  (forall t, Engine.playing code self = true ->
     exists e,
       Engine.turn code t self = (self, Some e) /\
       (Engine.__setup self = false -> e = Engine.AttributeError) /\
       (Engine.__setup self = true ->
        e = Engine.TypeError \/ e = Engine.FromScreen)).
Proof.
  intro Hm. split; [now apply play_without_match |].
  split; [intros ts' Hs; now apply play_same_screens |].
  intros t Hp. unfold Engine.playing in Hp.
  apply andb_true_iff in Hp as [Hp H3].
  apply andb_true_iff in Hp as [H1 H2].
  apply negb_true_iff in H1, H2.
  exists (Engine.new_match t self). split.
  - unfold Engine.turn. now rewrite H1, H2, H3, Hm.
  - unfold Engine.new_match. split; intro Hs; rewrite Hs.
    + reflexivity.
    + destruct (Engine.Setup_get_characters t); auto.
Qed.

(** X21: a state without a branch stalls the engine.  When the state is
    none of [MENU], [SETUP], [PLAYING] and [FINISH] (the values [PAUSE] and
    [PLAYING_SINGLE] of [Match.play]'s [return] statements have no branch
    of their own)
    a turn changes nothing, so the loop goes on for ever with the engine
    as it is: no screen is drawn or updated again and the loop never
    ends. *)
Theorem engine_stalls_on_other_states (self : Engine.Engine) :
  Engine.handled code (Engine.__state self) = false ->
  forall ts : list Engine.Turn,
    Engine.play code ts self = (self, None).
Proof.
  intros Hh ts. unfold Engine.handled in Hh.
  apply orb_false_iff in Hh as [Hh H4].
  apply orb_false_iff in Hh as [Hh H3].
  apply orb_false_iff in Hh as [H1 H2].
  induction ts as [| t ts IH]; [reflexivity |].
  cbn [Engine.play]. unfold Engine.turn. rewrite H1, H2, H3, H4.
  exact IH.
Qed.

Lemma turn_one_screen (t : Engine.Turn) (self : Engine.Engine) :
  Engine.__menu self && Engine.__setup self = false ->
  Engine.__menu (fst (Engine.turn code t self))
  && Engine.__setup (fst (Engine.turn code t self)) = false.
Proof.
  unfold Engine.turn.
  destruct (Engine.__state self =? code MENU)%Z.
  { destruct (Engine.__menu self) eqn:Em;
      [| destruct (Engine.Menu_init t)];
      try destruct (Engine.Menu_update t); cbn; rewrite ?Em; cbn; auto. }
  destruct (Engine.__state self =? code SETUP)%Z.
  { destruct (Engine.__setup self) eqn:Es;
      [| destruct (Engine.Setup_init t)];
      try destruct (Engine.Setup_update t); cbn;
      rewrite ?Es, ?andb_false_r; auto. }
  intro H.
  destruct (Engine.__state self =? code PLAYING)%Z.
  { destruct (Engine.__match self) as [player |]; [| exact H].
    destruct (play _ _ player) as [p [s | | e |]]; exact H. }
  destruct (Engine.__state self =? code FINISH)%Z; exact H.
Qed.

(** X22: one screen at a time.  The engine never holds a menu and a setup
    screen together: entering [MENU] without a menu builds one and drops
    the setup screen and the match, entering [SETUP] without a setup screen
    builds one and drops the menu.  So after a turn in the state [MENU]
    that goes on there is a menu and no setup screen, after one in the
    state [SETUP] a setup screen and no menu, and no run of turns from an
    engine with at most one of them leaves both. *)
Theorem one_screen_at_a_time (ts : list Engine.Turn)
  (self : Engine.Engine) :
  Engine.__menu self && Engine.__setup self = false ->
  Engine.__menu (fst (Engine.play code ts self))
  && Engine.__setup (fst (Engine.play code ts self)) = false /\
  (forall t self',
     Engine.turn code t self = (self', None) ->
     (Engine.__state self = code MENU ->
      Engine.__menu self' = true /\ Engine.__setup self' = false) /\
     (Engine.__state self <> code MENU ->
      Engine.__state self = code SETUP ->
      Engine.__setup self' = true /\ Engine.__menu self' = false)).
Proof.
  intro H. split.
  - revert self H. induction ts as [| t ts IH]; intros self H; [exact H |].
    cbn [Engine.play]. pose proof (turn_one_screen t self H) as Ht.
    destruct (Engine.turn code t self) as [s [e |]]; cbn [fst] in *.
    + exact Ht.
    + now apply IH.
  - intros t self' Ht.
    pose proof (turn_one_screen t self H) as Hone.
    rewrite Ht in Hone. cbn [fst] in Hone.
    split.
    + intro Hs. apply Z.eqb_eq in Hs.
      unfold Engine.turn in Ht. rewrite Hs in Ht.
      assert (Hmenu : Engine.__menu self' = true).
      { destruct (Engine.__menu self) eqn:Em;
          [| destruct (Engine.Menu_init t)];
          destruct (Engine.Menu_update t); try discriminate Ht;
          injection Ht as <-; cbn; auto. }
      rewrite Hmenu in Hone. now split.
    + intros Hn Hs. apply Z.eqb_neq in Hn. apply Z.eqb_eq in Hs.
      unfold Engine.turn in Ht. rewrite Hn, Hs in Ht.
      assert (Hsetup : Engine.__setup self' = true).
      { destruct (Engine.__setup self) eqn:Es;
          [| destruct (Engine.Setup_init t)];
          destruct (Engine.Setup_update t); try discriminate Ht;
          injection Ht as <-; cbn; auto. }
      rewrite Hsetup in Hone. split; [exact Hsetup |].
      now rewrite andb_true_r in Hone.
Qed.

End EngineProperties.

End Properties.

(** ** The statements on the concrete game *)

#[local] Existing Instances demo_constants demo_clip.

Ltac by_evaluation :=
  vm_compute;
  first [ reflexivity | discriminate | lia
        | repeat split; first [reflexivity | discriminate | lia] ].

Lemma rectangular_demo_tilemap : rectangular demo_tilemap.
Proof. repeat constructor. Qed.

Lemma centring_and_stop_bands_witness :
  (exists self',
     update demo_clock demo_tilemap (at_pose 48 111 MOVE_UP)
     = (self', Ok true) /\ event self' = Some MOVE_UP) /\
  (exists self',
     update demo_clock demo_tilemap (at_pose 73.6 111 MOVE_UP)
     = (self', Ok true) /\ event self' = Some STOP_UP).
Proof.
  split.
  - destruct (centring_and_stop_bands Up demo_clock demo_tilemap
                (at_pose 48 111 MOVE_UP) 0%Z) as (_ & Hsnap & _);
      [by_evaluation | by_evaluation | by_evaluation | by_evaluation
      | by_evaluation |].
    destruct Hsnap as (s & E & Ev & _); [by_evaluation | by_evaluation |].
    exists s. now split.
  - destruct (centring_and_stop_bands Up demo_clock demo_tilemap
                (at_pose 73.6 111 MOVE_UP) 2%Z) as (_ & _ & Hstop);
      [by_evaluation | by_evaluation | by_evaluation | by_evaluation
      | by_evaluation |].
    destruct (Hstop eq_refl 0%Z 0%Z) as (s & E & Ev & _);
      [by_evaluation | by_evaluation | left; by_evaluation |].
    exists s. now split.
Defined.

Lemma corner_assist_mirror_witness :
  decision Up (mirror_tilemap Up demo_tilemap)
    (mirror_character Up demo_tilemap (at_pose 67.2 111 MOVE_UP))
  = mirror_decision Up (decision Up demo_tilemap (at_pose 67.2 111 MOVE_UP))
  /\ decision Up demo_tilemap (at_pose 67.2 111 MOVE_UP)
     = Ok ((-1, 0)%Z, Some MOVE_LEFT).
Proof.
  split; [| reflexivity].
  apply corner_assist_mirror;
    [by_evaluation | by_evaluation | apply rectangular_demo_tilemap
    | by_evaluation | by_evaluation].
Defined.

(** C2 as stated fails on a tile boundary ([f = 0]).  A character moving
    up with its x exactly between columns 1 and 2, blocked above column 2
    and free above column 1, is stopped; its mirror image (the map is its
    own mirror image) stands exactly between columns 4 and 5, blocked above
    column 4 and free above column 5, and is sent to the right. *)
Lemma corner_assist_boundary_counterexample :
  let self := at_pose 64 111 MOVE_UP in
  offset_fraction (pose_x (pose self)) == 0 /\
  mirror_tilemap Up demo_tilemap = demo_tilemap /\
  pose_x (pose (mirror_character Up demo_tilemap self)) == 160 /\
  decision Up demo_tilemap self = Ok ((0, 0)%Z, Some STOP_UP) /\
  decision Up (mirror_tilemap Up demo_tilemap)
    (mirror_character Up demo_tilemap self)
  = Ok ((1, 0)%Z, Some MOVE_RIGHT) /\
  decision Up (mirror_tilemap Up demo_tilemap)
    (mirror_character Up demo_tilemap self)
  <> mirror_decision Up (decision Up demo_tilemap self).
Proof. by_evaluation. Qed.

(** The downward move at the same boundary does mirror: it takes the
    corner to the left, and its mirror image is sent to the right. *)
Example down_boundary_mirrors :
  let self := at_pose 64 113 MOVE_DOWN in
  decision Down demo_tilemap self = Ok ((-1, 0)%Z, Some MOVE_LEFT) /\
  decision Down (mirror_tilemap Down demo_tilemap)
    (mirror_character Down demo_tilemap self)
  = Ok ((1, 0)%Z, Some MOVE_RIGHT).
Proof. by_evaluation. Qed.



Lemma dead_character_is_terminal_witness :
  update demo_clock demo_tilemap dead_player = (dead_player, Ok false) /\
  pose (run [KeyDown K_DOWN; Tick demo_clock demo_tilemap;
             Tick demo_clock demo_tilemap] dead_player)
  = pose dead_player.
Proof.
  destruct (dead_character_is_terminal dead_player eq_refl) as [Hu Hrun].
  split; [apply Hu |].
  exact (proj1 (Hrun [KeyDown K_DOWN; Tick demo_clock demo_tilemap;
                      Tick demo_clock demo_tilemap])).
Defined.

Lemma place_bomb_capacity_witness :
  place_bomb demo_player = (set_placed_bombs 1 demo_player, Ok true) /\
  place_bomb (set_placed_bombs 1 demo_player)
  = (set_placed_bombs 1 demo_player, Ok false) /\
  place_bombs 2 demo_player
  = (set_placed_bombs 1 demo_player, [true; false]) /\
  placed_bombs (fst (place_then_explode demo_player)) = 0%Z.
Proof.
  destruct (@place_bomb_capacity demo_clip) as (H1 & H2 & _ & H4 & H5).
  split; [exact (H1 demo_player eq_refl) |].
  split; [apply H2; by_evaluation |].
  split; [exact (H4 1%nat demo_player eq_refl eq_refl) |].
  exact (H5 demo_player eq_refl).
Defined.

(** C5 as stated fails at capacity: [place_bomb] then fails, and the
    [bomb_exploded] that follows still takes one off the placed count. *)
Lemma place_then_explode_counterexample :
  let full := run [PlaceBomb] demo_player in
  placed_bombs full = 1%Z /\ total_bombs full = 1%Z /\
  snd (place_bomb full) = Ok false /\
  placed_bombs (fst (place_then_explode full)) = 0%Z /\
  placed_bombs (fst (place_then_explode full)) <> placed_bombs full.
Proof. by_evaluation. Qed.

Lemma win_die_ignore_keys_witness :
  key_up K_LEFT (set_new_event (Some WIN) demo_player)
  = (set_new_event (Some WIN) demo_player, Ok tt) /\
  run [KeyDown K_UP; KeyUp K_UP; KeyDown K_LEFT]
    (set_new_event (Some WIN) demo_player)
  = set_new_event (Some WIN) demo_player.
Proof.
  destruct (win_die_ignore_keys (set_new_event (Some WIN) demo_player)
              (or_introl eq_refl)) as [Hk Hrun].
  split; [exact (proj1 (Hk K_LEFT)) |].
  exact (proj1 (Hrun [KeyDown K_UP; KeyUp K_UP; KeyDown K_LEFT] eq_refl)).
Defined.

Lemma pending_event_priority_witness :
  let right := run [KeyDown K_RIGHT] demo_player in
  let both := run [KeyDown K_RIGHT; KeyDown K_DOWN] demo_player in
  let back :=
    run [KeyDown K_RIGHT; KeyDown K_DOWN; KeyUp K_DOWN] demo_player in
  new_event (fst (call (KeyDown K_DOWN) right)) = Some MOVE_DOWN /\
  new_event (fst (call (KeyUp K_DOWN) both)) = Some MOVE_RIGHT /\
  fst (velocity (fst (call (KeyUp K_DOWN) both))) = 1%Z /\
  snd (velocity (fst (call (KeyUp K_DOWN) both))) = 0%Z /\
  new_event (fst (call (KeyUp K_RIGHT) back)) = Some STOP_RIGHT.
Proof.
  cbv zeta.
  destruct (pending_event_priority (KeyDown K_DOWN)
              (run [KeyDown K_RIGHT] demo_player))
    as (Hdown & _);
    [by_evaluation | by_evaluation | by_evaluation | by_evaluation |].
  destruct (pending_event_priority (KeyUp K_DOWN)
              (run [KeyDown K_RIGHT; KeyDown K_DOWN] demo_player))
    as (_ & _ & Hright & _ & _ & _ & Hback & _);
    [by_evaluation | by_evaluation | by_evaluation | by_evaluation |].
  destruct (pending_event_priority (KeyUp K_RIGHT)
              (run [KeyDown K_RIGHT; KeyDown K_DOWN; KeyUp K_DOWN]
                 demo_player))
    as (_ & _ & _ & _ & Hrest & _);
    [by_evaluation | by_evaluation | by_evaluation | by_evaluation |].
  split; [apply Hdown; by_evaluation |].
  split; [apply Hright; by_evaluation |].
  assert (Hi : int64 (fst (velocity
                 (run [KeyDown K_RIGHT; KeyDown K_DOWN] demo_player))))
    by (vm_compute; split; [discriminate | reflexivity]).
  assert (Hj : int64 (snd (velocity
                 (run [KeyDown K_RIGHT; KeyDown K_DOWN] demo_player))))
    by (vm_compute; split; [discriminate | reflexivity]).
  destruct (Hback Hi Hj) as [Hx Hy].
  split; [rewrite Hx; vm_compute; reflexivity |].
  split; [rewrite Hy; vm_compute; reflexivity |].
  rewrite Hrest by by_evaluation. reflexivity.
Defined.

Lemma speed_never_exceeds_max_witness :
  speed (run (speed_ups 7 demo_clock demo_tilemap) demo_player) <= MAX_SPEED
  /\ speed (run [KeyDown K_DOWN; Tick demo_clock demo_tilemap] demo_player)
     <= MAX_SPEED.
Proof.
  destruct (@speed_never_exceeds_max demo_constants demo_clip)
    as (_ & _ & _ & Hups & Hinit).
  split.
  - exact (Hups 6%nat demo_clock demo_tilemap demo_player eq_refl).
  - apply (Hinit ltac:(by_evaluation) {| pose_x := 48; pose_y := 48 |}
             0%nat [KeyDown K_DOWN; Tick demo_clock demo_tilemap]).
Defined.

Lemma centred_move_up_witness :
  exists self',
    update demo_clock demo_tilemap (at_pose 48 111 MOVE_UP)
    = (self', Ok true) /\
    pose_x (pose self') == 48 /\
    pose_y (pose self') == 111 - 2 * 32 / 60.
Proof.
  destruct (centred_move_up demo_clock demo_tilemap
              (at_pose 48 111 MOVE_UP) 0%Z)
    as (s & E & _ & Hx & Hy);
    [by_evaluation | by_evaluation | by_evaluation | by_evaluation
    | by_evaluation | by_evaluation | by_evaluation | by_evaluation |].
  exists s. repeat split; assumption.
Defined.

Lemma frame_rate_division_witness :
  snd (update demo_clock demo_tilemap (at_pose 48 48 MOVE_DOWN)) = Ok true /\
  snd (update stalled_clock demo_tilemap (at_pose 48 48 MOVE_DOWN))
  = Raise ZeroDivisionError.
Proof.
  destruct (frame_rate_division Down demo_clock demo_tilemap
              (at_pose 48 48 MOVE_DOWN) eq_refl eq_refl) as [Hrun _].
  destruct (frame_rate_division Down stalled_clock demo_tilemap
              (at_pose 48 48 MOVE_DOWN) eq_refl eq_refl) as [_ Hstall].
  split.
  - destruct Hrun as [H | H];
      [by_evaluation | by_evaluation | exact H | discriminate H].
  - destruct Hstall as [H | H];
      [by_evaluation | exact H | discriminate H].
Defined.

(** *** Further properties on the concrete game *)

Lemma bombs_within_capacity_witness :
  (placed_bombs (run [PlaceBomb; PlaceBomb; BombExploded] demo_player)
   <= total_bombs (run [PlaceBomb; PlaceBomb; BombExploded] demo_player))%Z.
Proof.
  destruct (@bombs_within_capacity demo_constants demo_clip)
    as (_ & Hrun & _).
  apply (Hrun [PlaceBomb; PlaceBomb; BombExploded] demo_player).
  by_evaluation.
Defined.

Lemma velocity_accumulates_witness :
  velocity (run [KeyDown K_LEFT; KeyDown K_UP; KeyUp K_LEFT] demo_player)
  = (0, -1)%Z /\
  velocity (run [KeyDown K_LEFT; KeyUp K_LEFT] demo_player)
  = velocity demo_player.
Proof.
  split.
  - destruct (velocity_accumulates
                [KeyDown K_LEFT; KeyDown K_UP; KeyUp K_LEFT] demo_player)
      as (Hsum & _);
      [by_evaluation | by_evaluation | by_evaluation
      | unfold int64; cbn; lia | unfold int64; cbn; lia |].
    exact Hsum.
  - destruct (velocity_accumulates [KeyDown K_LEFT; KeyUp K_LEFT]
                demo_player)
      as (_ & Hzero & _);
      [by_evaluation | by_evaluation | by_evaluation
      | unfold int64; cbn; lia | unfold int64; cbn; lia |].
    exact (Hzero eq_refl).
Defined.

Lemma key_up_faces_released_key_witness :
  new_event (fst (key_up K_LEFT (run [KeyDown K_LEFT] demo_player)))
  = Some STOP_LEFT.
Proof.
  apply (key_up_faces_released_key K_LEFT STOP_LEFT
           (run [KeyDown K_LEFT] demo_player));
    [by_evaluation | by_evaluation | by_evaluation | right; by_evaluation].
Defined.

Lemma other_keys_change_pending_only_witness :
  (exists pending,
     call (KeyDown (K_OTHER 32)) demo_player
     = (set_new_event pending demo_player, Ok tt) /\
     pending = new_event demo_player) /\
  let held :=
    run [KeyDown K_DOWN; SpecialEvent INCREASE_BOMB;
         Tick demo_clock demo_tilemap] demo_player in
  new_event held = None /\
  exists pending,
    call (KeyUp (K_OTHER 32)) held = (set_new_event pending held, Ok tt) /\
    pending = Some MOVE_DOWN.
Proof.
  split.
  - destruct (other_keys_change_pending_only (KeyDown (K_OTHER 32)) 32
                demo_player) as (pending & Hcall & Hsame & _);
      [right; reflexivity |].
    exists pending. split; [exact Hcall |].
    apply Hsame. right. right. right. by_evaluation.
  - cbv zeta. split; [reflexivity |].
    destruct (other_keys_change_pending_only (KeyUp (K_OTHER 32)) 32
                (run [KeyDown K_DOWN; SpecialEvent INCREASE_BOMB;
                      Tick demo_clock demo_tilemap] demo_player))
      as (pending & Hcall & _ & Hderived);
      [left; reflexivity |].
    exists pending. split; [exact Hcall |].
    destruct Hderived as [Hp _];
      [by_evaluation | by_evaluation | by_evaluation |].
    exact Hp.
Defined.

Lemma only_moves_read_the_map_witness :
  update stalled_clock [] demo_player
  = update demo_clock demo_tilemap demo_player /\
  pose (fst (update demo_clock demo_tilemap demo_player))
  = pose demo_player.
Proof.
  destruct (only_moves_read_the_map demo_player eq_refl demo_clock
              demo_tilemap) as (Hany & Hpose & _).
  split; [apply Hany | exact Hpose].
Defined.

Lemma bomb_pick_ups_raise_capacity_witness :
  let self' :=
    run (pick_ups INCREASE_BOMB 2 demo_clock demo_tilemap) demo_player in
  total_bombs self' = 3%Z /\ placed_bombs self' = 0%Z /\
  snd (place_bombs 4 self') = [true; true; true; false].
Proof.
  destruct (bomb_pick_ups_raise_capacity 2 demo_clock demo_tilemap
              demo_player eq_refl) as (Htotal & Hplaced & Hplace).
  split; [exact Htotal |]. split; [exact Hplaced |].
  exact (Hplace 1%nat eq_refl eq_refl).
Defined.

Lemma fire_pick_ups_add_up_witness :
  fire (run (pick_ups INCREASE_FIRE 3 demo_clock demo_tilemap) demo_player)
  == fire demo_player + inject_Z (Z.of_nat 3) * FIRE_INCREMENT.
Proof.
  apply (fire_pick_ups_add_up 3 demo_clock demo_tilemap demo_player).
  reflexivity.
Defined.

Lemma speed_pick_ups_clamp_witness :
  speed (run (pick_ups INCREASE_SPEED 3 demo_clock demo_tilemap) demo_player)
  == Qmin (speed demo_player + inject_Z (Z.of_nat 3) * SPEED_INCREMENT)
       MAX_SPEED /\
  speed (run (pick_ups INCREASE_SPEED 7 demo_clock demo_tilemap) demo_player)
  == Qmin (speed demo_player + inject_Z (Z.of_nat 7) * SPEED_INCREMENT)
       MAX_SPEED.
Proof.
  split.
  - apply (speed_pick_ups_clamp 3 demo_clock demo_tilemap demo_player);
      [by_evaluation | by_evaluation | by_evaluation | reflexivity].
  - apply (speed_pick_ups_clamp 7 demo_clock demo_tilemap demo_player);
      [by_evaluation | by_evaluation | by_evaluation | reflexivity].
Defined.

Lemma power_up_halts_walk_witness :
  let picked :=
    run [SpecialEvent INCREASE_SPEED; Tick demo_clock demo_tilemap]
      (at_pose 48 48 MOVE_DOWN) in
  new_event picked = None /\
  pose (run [Tick demo_clock demo_tilemap; Tick demo_clock demo_tilemap]
          picked)
  = pose (at_pose 48 48 MOVE_DOWN).
Proof.
  destruct (power_up_halts_walk INCREASE_SPEED demo_clock demo_tilemap
              (at_pose 48 48 MOVE_DOWN))
    as (Hnone & _ & Hpose);
    [reflexivity | intros _; by_evaluation | reflexivity |].
  split; [exact Hnone |].
  exact (Hpose [(demo_clock, demo_tilemap); (demo_clock, demo_tilemap)]).
Defined.

Lemma death_sequence_witness :
  let self' :=
    run [Tick demo_clock demo_tilemap; KeyDown K_LEFT;
         Tick demo_clock demo_tilemap]
      (run [SpecialEvent DIE] demo_player) in
  die_animation self' = 2%nat /\ pose self' = pose demo_player /\
  new_event self' = Some DIE.
Proof.
  exact (death_sequence
           [Tick demo_clock demo_tilemap; KeyDown K_LEFT;
            Tick demo_clock demo_tilemap]
           (run [SpecialEvent DIE] demo_player) eq_refl eq_refl).
Defined.

Lemma index_error_leaves_pose_witness :
  snd (update demo_clock demo_tilemap (at_pose 48 300 MOVE_DOWN))
  = Raise IndexError /\
  pose (fst (update demo_clock demo_tilemap (at_pose 48 300 MOVE_DOWN)))
  = pose (at_pose 48 300 MOVE_DOWN).
Proof.
  split; [reflexivity |].
  apply (index_error_leaves_pose Down demo_clock demo_tilemap
           (at_pose 48 300 MOVE_DOWN));
    [by_evaluation | by_evaluation | by_evaluation].
Defined.

Lemma frame_moves_along_one_axis_witness :
  let self := at_pose 40 111 MOVE_UP in
  let self' := fst (update demo_clock demo_tilemap self) in
  exists d,
    (event self' = Some (move_event d) /\
     along d (pose self')
     == along d (pose self) + heading d * step demo_clock self /\
     (cross d (pose self') == cross d (pose self) \/
      cross d (pose self') == centerline (cross d (pose self)))) \/
    (event self' = Some (stop_event d) /\
     pose_x (pose self') == pose_x (pose self) /\
     pose_y (pose self') == pose_y (pose self)).
Proof.
  cbv zeta.
  apply (frame_moves_along_one_axis Up demo_clock demo_tilemap
           (at_pose 40 111 MOVE_UP)
           (fst (update demo_clock demo_tilemap (at_pose 40 111 MOVE_UP))));
    [by_evaluation | by_evaluation | by_evaluation].
Defined.

Lemma corner_assist_bands_witness :
  decision Up demo_tilemap (at_pose 67.2 111 MOVE_UP)
  = Ok ((-1, 0)%Z, Some MOVE_LEFT) /\
  decision Up demo_tilemap (at_pose 92.8 111 MOVE_UP)
  = Ok ((1, 0)%Z, Some MOVE_RIGHT) /\
  decision Up demo_tilemap (at_pose 64 111 MOVE_UP)
  = Ok ((0, 0)%Z, Some STOP_UP).
Proof.
  split; [| split].
  - destruct (corner_assist_bands Up demo_tilemap
                (at_pose 67.2 111 MOVE_UP) 2%Z) as (Hlow & _);
      [by_evaluation | by_evaluation | by_evaluation | by_evaluation |].
    apply (Hlow 0%Z);
      [by_evaluation | by_evaluation | by_evaluation | left; by_evaluation].
  - destruct (corner_assist_bands Up demo_tilemap
                (at_pose 92.8 111 MOVE_UP) 2%Z) as (_ & Hup & _);
      [by_evaluation | by_evaluation | by_evaluation | by_evaluation |].
    apply (Hup 0%Z 0%Z);
      [by_evaluation | by_evaluation | by_evaluation | by_evaluation].
  - destruct (corner_assist_bands Up demo_tilemap
                (at_pose 64 111 MOVE_UP) 2%Z) as (_ & _ & Hedge);
      [by_evaluation | by_evaluation | by_evaluation | by_evaluation |].
    apply (Hedge 0%Z 0%Z);
      [by_evaluation | by_evaluation | reflexivity | by_evaluation].
Defined.

Lemma centring_heads_for_centre_witness :
  decision Up demo_tilemap (at_pose 40 111 MOVE_UP)
  = Ok ((1, 0)%Z, Some MOVE_RIGHT) /\
  decision Up demo_tilemap (at_pose 56 111 MOVE_UP)
  = Ok ((-1, 0)%Z, Some MOVE_LEFT).
Proof.
  split.
  - destruct (centring_heads_for_centre Up demo_tilemap
                (at_pose 40 111 MOVE_UP) 0%Z) as (Hbelow & _);
      [by_evaluation | by_evaluation | by_evaluation | by_evaluation
      | by_evaluation |].
    apply Hbelow. by_evaluation.
  - destruct (centring_heads_for_centre Up demo_tilemap
                (at_pose 56 111 MOVE_UP) 0%Z) as (_ & Habove);
      [by_evaluation | by_evaluation | by_evaluation | by_evaluation
      | by_evaluation |].
    apply Habove. by_evaluation.
Defined.

Lemma play_leaves_at_once_witness :
  play [KEYDOWN K_LEFT; KEYUP K_ESCAPE; KEYDOWN K_UP; QUIT]
    stalled_clock demo_player
  = (run [KeyDown K_LEFT] demo_player, Returned PAUSE).
Proof.
  exact (play_leaves_at_once [KEYDOWN K_LEFT] [KEYDOWN K_UP; QUIT]
           (KEYUP K_ESCAPE) stalled_clock demo_player
           eq_refl eq_refl).
Defined.

Lemma play_stops_before_update_witness :
  play [KEYDOWN K_ESCAPE; OTHER_EVENT; KEYDOWN K_DOWN] demo_clock
    demo_player
  = (run [KeyDown K_ESCAPE; KeyDown K_DOWN] demo_player, AttributeError) /\
  pose (fst (play [KEYDOWN K_ESCAPE; OTHER_EVENT; KEYDOWN K_DOWN]
               demo_clock demo_player))
  = pose demo_player.
Proof.
  rewrite (play_stops_before_update
             [KEYDOWN K_ESCAPE; OTHER_EVENT; KEYDOWN K_DOWN]
             demo_clock demo_player eq_refl).
  split; reflexivity.
Defined.

Lemma sprite_stands_on_its_square_witness :
  py_int (pose_y (pose demo_player) / SQUARE_SIZE) = 1%Z /\
  py_int (pose_x (pose demo_player) / SQUARE_SIZE) = 1%Z /\
  fst (blit_position 64 40 demo_player)
  == fst (Map.corner 64 (1, 1)%Z) /\
  snd (blit_position 64 40 demo_player) + 40
  == snd (Map.corner 64 (1, 1)%Z) + SQUARE_SIZE.
Proof.
  apply (sprite_stands_on_its_square 64 40 1 1 demo_player);
    [by_evaluation | by_evaluation | by_evaluation | by_evaluation
    | by_evaluation].
Defined.

Lemma engine_never_starts_a_match_witness :
  let chosen := [demo_turn (Some 1%Z) None; demo_turn None (Some 2%Z)] in
  let ready := fst (Engine.play demo_code chosen (Engine.init demo_code)) in
  Engine.__state ready = demo_code PLAYING /\
  Engine.__match ready = None /\
  Engine.turn demo_code (demo_turn None None) ready
  = (ready, Some Engine.TypeError).
Proof.
  cbv zeta.
  destruct (engine_never_starts_a_match demo_code
              [demo_turn (Some 1%Z) None; demo_turn None (Some 2%Z)]
              (Engine.init demo_code) eq_refl) as (Hnone & _ & _).
  split; [reflexivity |]. split; [exact Hnone |].
  destruct (engine_never_starts_a_match demo_code []
              (fst (Engine.play demo_code
                      [demo_turn (Some 1%Z) None;
                       demo_turn None (Some 2%Z)]
                      (Engine.init demo_code))) Hnone)
    as (_ & _ & Hturn).
  destruct (Hturn (demo_turn None None) eq_refl) as (e & Et & _ & He).
  rewrite Et. destruct (He eq_refl) as [-> | ->];
    [reflexivity | discriminate Et].
Defined.

Lemma engine_stalls_on_other_states_witness :
  Engine.play demo_code
    [demo_turn (Some 0%Z) None; demo_turn None None]
    (Engine.set_state (demo_code PAUSE) (Engine.init demo_code))
  = (Engine.set_state (demo_code PAUSE) (Engine.init demo_code), None).
Proof.
  apply (engine_stalls_on_other_states demo_code
           (Engine.set_state (demo_code PAUSE) (Engine.init demo_code))).
  reflexivity.
Defined.

Lemma one_screen_at_a_time_witness :
  let chosen :=
    [demo_turn (Some 1%Z) None; demo_turn None (Some 0%Z);
     demo_turn (Some 0%Z) None] in
  let final := fst (Engine.play demo_code chosen (Engine.init demo_code)) in
  Engine.__menu final && Engine.__setup final = false.
Proof.
  exact (proj1 (one_screen_at_a_time demo_code
                  [demo_turn (Some 1%Z) None; demo_turn None (Some 0%Z);
                   demo_turn (Some 0%Z) None]
                  (Engine.init demo_code) eq_refl)).
Defined.
